(** * export_all_cookies.py: the cookie decryption and decoding engine

    A shallow embedding of [scripts/export_all_cookies.py] and of the parts of
    the Python runtime and of the cryptographic library it calls, followed by
    the properties of the program.

    Conventions.
    - A Python [bytes] object is a [list byte].
    - A Python [str] is held as the UTF-8 encoding of its text, in a [string];
      [bytes.decode('utf-8', errors='replace')] therefore maps a byte string to
      the encoding of the decoded text, every ill-formed subsequence replaced
      by the encoding of U+FFFD.
    - A Python [int] is a [Z]; a [float] is an IEEE-754 binary64 value, held
      as a [spec_float].
    - A call that can raise returns a [result]; [try ... except] is
      [try_except].
    - What the program consults outside itself (the platform, the secret
      stores, the files of the stores, the time zone) is a field of a
      [world].

    The modules [AES], [GCM] and [KDF] follow FIPS 197, NIST SP 800-38D,
    FIPS 180-4 and RFC 8018; their known answers are at the end of the
    file. *)

From Stdlib Require Import Strings.String Strings.Ascii Strings.Byte.
From Stdlib Require Import ZArith List Bool Lia Btauto.
From Stdlib Require Import Floats.SpecFloat.
Import ListNotations.
Open Scope Z_scope.

Set Implicit Arguments.

(** ** The Python runtime *)

Module Py.

Definition bytes := list byte.
Definition str := string.

(** The exceptions the program can meet; all of them derive from
    [Exception]. *)
Inductive exn :=
| ValueError | IndexError | TypeError | OverflowError
| StructError | UnicodeDecodeError | OSError.

Inductive result (A : Type) :=
| Ok (a : A)
| Raise (e : exn).
Arguments Ok {A} a.
Arguments Raise {A} e.

Definition bind {A B} (r : result A) (k : A -> result B) : result B :=
  match r with Ok a => k a | Raise e => Raise e end.

(** [try: body / except: handler] *)
Definition try_except {A} (body : result A) (handler : result A) : result A :=
  match body with Ok a => Ok a | Raise _ => handler end.

Definition b2z (b : byte) : Z := Z.of_N (Byte.to_N b).

Definition z2b (z : Z) : byte :=
  match Byte.of_N (Z.to_N (z mod 256)) with Some b => b | None => x00 end.

Definition bytes_eqb (a b : bytes) : bool :=
  if list_eq_dec Byte.byte_eq_dec a b then true else false.

Definition len {A} (l : list A) : Z := Z.of_nat (length l).

(** An endpoint of a slice, brought into [0, len]: a negative one counts
    from the end. *)
Definition slice_bound (n i : Z) : Z :=
  if i <? 0 then Z.max 0 (i + n) else Z.min i n.

(** [l[lo:hi]]; [None] is an omitted endpoint. *)
Definition slice {A} (l : list A) (lo hi : option Z) : list A :=
  let n := len l in
  let a := match lo with None => 0 | Some i => slice_bound n i end in
  let b := match hi with None => n | Some j => slice_bound n j end in
  firstn (Z.to_nat (b - a)) (skipn (Z.to_nat a) l).

(** [l[i]] *)
Definition index {A} (l : list A) (i : Z) : result A :=
  let n := len l in
  let j := if i <? 0 then i + n else i in
  if (j <? 0) || (n <=? j) then Raise IndexError
  else match nth_error l (Z.to_nat j) with
       | Some a => Ok a
       | None => Raise IndexError
       end.

(** The last element, when there is one *)
Definition last_opt {A} (l : list A) : option A :=
  match rev l with
  | x :: _ => Some x
  | [] => None
  end.

(** The index of the first [b] in [l], whose head has index [i]; [-1] when
    there is none. *)
Fixpoint find_from (b : byte) (l : bytes) (i : Z) : Z :=
  match l with
  | [] => -1
  | c :: t => if Byte.eqb c b then i else find_from b t (i + 1)
  end.

(** [d.find(bytes([b]), start)] for [0 <= start] *)
Definition find (d : bytes) (b : byte) (start : Z) : Z :=
  if len d <? start then -1
  else find_from b (skipn (Z.to_nat start) d) start.

(** *** struct.unpack *)

Fixpoint le_value (l : list Z) : Z :=
  match l with
  | [] => 0
  | b :: t => b + 256 * le_value t
  end.

(** [struct.unpack('<I', b)[0]] *)
Definition unpack_le_u32 (b : bytes) : result Z :=
  if len b =? 4 then Ok (le_value (map b2z b)) else Raise StructError.

(** [struct.unpack('>I', b)[0]] *)
Definition unpack_be_u32 (b : bytes) : result Z :=
  if len b =? 4 then Ok (le_value (rev (map b2z b))) else Raise StructError.

Definition be_value (l : list Z) : Z :=
  fold_left (fun acc b => 256 * acc + b) l 0.

(** The [n] bytes of [v], most significant first *)
Definition be_bytes (n : nat) (v : Z) : list Z :=
  map (fun i => Z.land (Z.shiftr v (8 * Z.of_nat (n - 1 - i))) 255) (seq 0 n).

(** [bytes.fromhex(s)], for a string of hexadecimal digits *)
Definition hex_digit (a : ascii) : Z :=
  let n := Z.of_nat (nat_of_ascii a) in
  if n <? 58 then n - 48 else if n <? 71 then n - 55 else n - 87.

Fixpoint fromhex (s : string) : bytes :=
  match s with
  | String a (String b t) => z2b (16 * hex_digit a + hex_digit b) :: fromhex t
  | _ => []
  end.

(** *** UTF-8 *)

Definition is_cont (b : Z) : bool := (0x80 <=? b) && (b <=? 0xBF).

Definition in_range (lo hi b : Z) : bool := (lo <=? b) && (b <=? hi).

(** The first item of a byte sequence: [(n, true)] when its first [n] bytes
    encode one scalar value, [(n, false)] when its first [n] bytes are a
    maximal ill-formed part, which the decoder reports as one error. *)
Definition utf8_step (l : list Z) : nat * bool :=
  match l with
  | [] => (0%nat, true)
  | b0 :: t =>
    if b0 <? 0x80 then (1%nat, true)
    else if b0 <? 0xC2 then (1%nat, false)
    else if b0 <? 0xE0 then
      match t with
      | b1 :: _ => if is_cont b1 then (2%nat, true) else (1%nat, false)
      | [] => (1%nat, false)
      end
    else if b0 <? 0xF0 then
      let lo := if b0 =? 0xE0 then 0xA0 else 0x80 in
      let hi := if b0 =? 0xED then 0x9F else 0xBF in
      match t with
      | [] => (1%nat, false)
      | b1 :: t1 =>
        if in_range lo hi b1 then
          match t1 with
          | [] => (2%nat, false)
          | b2 :: _ => if is_cont b2 then (3%nat, true) else (2%nat, false)
          end
        else (1%nat, false)
      end
    else if b0 <? 0xF5 then
      let lo := if b0 =? 0xF0 then 0x90 else 0x80 in
      let hi := if b0 =? 0xF4 then 0x8F else 0xBF in
      match t with
      | [] => (1%nat, false)
      | b1 :: t1 =>
        if in_range lo hi b1 then
          match t1 with
          | [] => (2%nat, false)
          | b2 :: t2 =>
            if is_cont b2 then
              match t2 with
              | [] => (3%nat, false)
              | b3 :: _ => if is_cont b3 then (4%nat, true) else (3%nat, false)
              end
            else (2%nat, false)
          end
        else (1%nat, false)
      end
    else (1%nat, false)
  end.

(** The items of a byte sequence: each is its bytes, or [None] for an
    error. *)
Fixpoint utf8_items (fuel : nat) (l : bytes) : list (option bytes) :=
  match fuel with
  | O => []
  | S fuel' =>
    match l with
    | [] => []
    | _ :: _ =>
      let '(n, ok) := utf8_step (map b2z l) in
      (if ok then Some (firstn n l) else None) :: utf8_items fuel' (skipn n l)
    end
  end.

(** U+FFFD in UTF-8 *)
Definition replacement : bytes := [xef; xbf; xbd].

(** [b.decode('utf-8', errors='replace')] *)
Definition decode_replace (b : bytes) : str :=
  string_of_list_byte
    (concat (map (fun i => match i with Some s => s | None => replacement end)
                 (utf8_items (length b) b))).

(** [b.decode('utf-8')] *)
Definition decode_strict (b : bytes) : result str :=
  if forallb (fun i => match i with Some _ => true | None => false end)
             (utf8_items (length b) b)
  then Ok (string_of_list_byte b) else Raise UnicodeDecodeError.

(** [s.encode()] *)
Definition encode (s : str) : bytes := list_byte_of_string s.

End Py.

(** ** AES (FIPS 197), as [Crypto.Cipher.AES] computes it *)

Module AES.

Definition xtime (a : Z) : Z :=
  let b := 2 * a in if 256 <=? b then Z.lxor b 0x11b else b.

(** Multiplication in GF(2^8) modulo x^8 + x^4 + x^3 + x + 1 *)
Fixpoint gmul_aux (n : nat) (a b : Z) : Z :=
  match n with
  | O => 0
  | S n' =>
    Z.lxor (if Z.odd b then a else 0) (gmul_aux n' (xtime a) (Z.div2 b))
  end.

Definition gmul (a b : Z) : Z := gmul_aux 8 a b.

Definition gsq (a : Z) : Z := gmul a a.

(** The inverse [a^254], with [ginv 0 = 0] *)
Definition ginv (a : Z) : Z :=
  let a2 := gsq a in
  let a4 := gsq a2 in
  let a8 := gsq a4 in
  let a16 := gsq a8 in
  let a32 := gsq a16 in
  let a64 := gsq a32 in
  let a128 := gsq a64 in
  gmul a128 (gmul a64 (gmul a32 (gmul a16 (gmul a8 (gmul a4 a2))))).

Definition rotl8 (a : Z) (k : Z) : Z :=
  Z.land (Z.lor (Z.shiftl a k) (Z.shiftr a (8 - k))) 255.

Definition sub_byte (a : Z) : Z :=
  let b := ginv a in
  Z.lxor (Z.lxor (Z.lxor (Z.lxor (Z.lxor b (rotl8 b 1)) (rotl8 b 2)) (rotl8 b 3))
                 (rotl8 b 4)) 0x63.

Definition inv_sub_byte (s : Z) : Z :=
  ginv (Z.lxor (Z.lxor (Z.lxor (rotl8 s 1) (rotl8 s 3)) (rotl8 s 6)) 0x05).

Definition byte_values : list Z := map Z.of_nat (seq 0 256).

Definition sbox_table : list Z := Eval vm_compute in map sub_byte byte_values.

Definition inv_sbox_table : list Z :=
  Eval vm_compute in map inv_sub_byte byte_values.

Definition sbox (a : Z) : Z := nth (Z.to_nat a) sbox_table 0.

Definition inv_sbox (a : Z) : Z := nth (Z.to_nat a) inv_sbox_table 0.

Fixpoint xor_list (a b : list Z) : list Z :=
  match a, b with
  | x :: a', y :: b' => Z.lxor x y :: xor_list a' b'
  | _, _ => []
  end.

(** *** Key expansion *)

Definition rot_word (w : list Z) : list Z :=
  match w with
  | a :: t => t ++ [a]
  | [] => []
  end.

Fixpoint rcon (i : nat) : Z :=
  match i with
  | O => 0
  | S O => 1
  | S i' => xtime (rcon i')
  end.

(** The words [w[i]], [i >= nk], in order; [ws] holds the words before
    [i], the latest first. *)
Fixpoint expand (n : nat) (nk i : nat) (ws : list (list Z)) : list (list Z) :=
  match n with
  | O => ws
  | S n' =>
    let prev := nth 0 ws [] in
    let temp :=
      if (i mod nk =? 0)%nat
      then xor_list (map sbox (rot_word prev)) [rcon (i / nk); 0; 0; 0]
      else if (6 <? nk)%nat && (i mod nk =? 4)%nat then map sbox prev
      else prev in
    expand n' nk (S i) (xor_list (nth (nk - 1) ws []) temp :: ws)
  end.

Fixpoint chunks (n : nat) (size : nat) (l : list Z) : list (list Z) :=
  match n with
  | O => []
  | S n' => firstn size l :: chunks n' size (skipn size l)
  end.

(** The round keys, 16 bytes each, for a key of 16, 24 or 32 bytes *)
Definition key_schedule (key : list Z) : list (list Z) :=
  let nk := (length key / 4)%nat in
  let nr := (nk + 6)%nat in
  let ws := rev (expand (4 * (nr + 1) - nk) nk nk (rev (chunks nk 4 key))) in
  chunks (nr + 1) 16 (concat ws).

(** *** The cipher and its inverse, on a state of 16 bytes held column by
    column *)

Definition at_ (s : list Z) (i : nat) : Z := nth i s 0.

Definition shift_rows (s : list Z) : list Z :=
  map (fun i => at_ s (4 * ((i / 4 + i mod 4) mod 4) + i mod 4)) (seq 0 16).

Definition inv_shift_rows (s : list Z) : list Z :=
  map (fun i => at_ s (4 * ((i / 4 + 4 - i mod 4) mod 4) + i mod 4)) (seq 0 16).

Definition mix_column (c : list Z) : list Z :=
  match c with
  | [a0; a1; a2; a3] =>
    [ Z.lxor (Z.lxor (gmul 2 a0) (gmul 3 a1)) (Z.lxor a2 a3);
      Z.lxor (Z.lxor a0 (gmul 2 a1)) (Z.lxor (gmul 3 a2) a3);
      Z.lxor (Z.lxor a0 a1) (Z.lxor (gmul 2 a2) (gmul 3 a3));
      Z.lxor (Z.lxor (gmul 3 a0) a1) (Z.lxor a2 (gmul 2 a3)) ]
  | _ => c
  end.

Definition inv_mix_column (c : list Z) : list Z :=
  match c with
  | [a0; a1; a2; a3] =>
    [ Z.lxor (Z.lxor (gmul 14 a0) (gmul 11 a1)) (Z.lxor (gmul 13 a2) (gmul 9 a3));
      Z.lxor (Z.lxor (gmul 9 a0) (gmul 14 a1)) (Z.lxor (gmul 11 a2) (gmul 13 a3));
      Z.lxor (Z.lxor (gmul 13 a0) (gmul 9 a1)) (Z.lxor (gmul 14 a2) (gmul 11 a3));
      Z.lxor (Z.lxor (gmul 11 a0) (gmul 13 a1)) (Z.lxor (gmul 9 a2) (gmul 14 a3)) ]
  | _ => c
  end.

Definition mix_columns (s : list Z) : list Z :=
  concat (map mix_column (chunks 4 4 s)).

Definition inv_mix_columns (s : list Z) : list Z :=
  concat (map inv_mix_column (chunks 4 4 s)).

Definition encrypt_round (s rk : list Z) : list Z :=
  xor_list (mix_columns (shift_rows (map sbox s))) rk.

Definition decrypt_round (s rk : list Z) : list Z :=
  inv_mix_columns (xor_list (map inv_sbox (inv_shift_rows s)) rk).

(** The forward cipher on one block, under the round keys [rks] *)
Definition cipher (rks : list (list Z)) (block : list Z) : list Z :=
  match rks with
  | [] => block
  | rk0 :: rest =>
    let middle := removelast rest in
    let final := last rest [] in
    let s := fold_left encrypt_round middle (xor_list block rk0) in
    xor_list (shift_rows (map sbox s)) final
  end.

(** The inverse cipher on one block *)
Definition inv_cipher (rks : list (list Z)) (block : list Z) : list Z :=
  match rev rks with
  | [] => block
  | rkn :: rest =>
    let middle := removelast rest in
    let rk0 := last rest [] in
    let s := fold_left decrypt_round middle (xor_list block rkn) in
    xor_list (map inv_sbox (inv_shift_rows s)) rk0
  end.

Definition valid_key_length (n : nat) : bool :=
  ((n =? 16) || (n =? 24) || (n =? 32))%nat.

(** *** CBC *)

Fixpoint cbc_blocks (n : nat) (rks : list (list Z)) (prev : list Z) (c : list Z)
  : list Z :=
  match n with
  | O => []
  | S n' =>
    let block := firstn 16 c in
    xor_list (inv_cipher rks block) prev ++ cbc_blocks n' rks block (skipn 16 c)
  end.

(** [AES.new(key, AES.MODE_CBC, iv).decrypt(data)]: a [ValueError] for a key
    that is not of 16, 24 or 32 bytes, an initialization vector that is not of
    16, or data that is not a whole number of blocks. *)
Definition cbc_decrypt (key iv data : Py.bytes) : Py.result Py.bytes :=
  if negb (valid_key_length (length key)) then Py.Raise Py.ValueError
  else if negb (length iv =? 16)%nat then Py.Raise Py.ValueError
  else if negb (length data mod 16 =? 0)%nat then Py.Raise Py.ValueError
  else
    let rks := key_schedule (map Py.b2z key) in
    Py.Ok (map Py.z2b (cbc_blocks (length data / 16) rks (map Py.b2z iv)
                                  (map Py.b2z data))).

End AES.

(** ** AES-GCM (NIST SP 800-38D), as [Crypto.Cipher.AES] in [MODE_GCM]
    computes it, with no associated data and a tag of 16 bytes *)

Module GCM.

Definition R : Z := Z.shiftl 0xe1 120.

(** The product of two blocks in GF(2^128); a block is the integer its 16
    bytes spell, most significant first. *)
Fixpoint gf_mul_aux (n : nat) (x v z : Z) : Z :=
  match n with
  | O => z
  | S n' =>
    gf_mul_aux n' x
      (if Z.odd v then Z.lxor (Z.shiftr v 1) R else Z.shiftr v 1)
      (if Z.testbit x (Z.of_nat n') then Z.lxor z v else z)
  end.

Definition gf_mul (x y : Z) : Z := gf_mul_aux 128 x y 0.

Definition pad16 (l : list Z) : list Z :=
  l ++ repeat 0 ((16 - length l mod 16) mod 16).

Fixpoint ghash_blocks (n : nat) (h y : Z) (data : list Z) : Z :=
  match n with
  | O => y
  | S n' =>
    ghash_blocks n' h (gf_mul (Z.lxor y (Py.be_value (firstn 16 data))) h)
                 (skipn 16 data)
  end.

(** GHASH of [data], whose length is a multiple of 16 *)
Definition ghash (h : Z) (data : list Z) : Z :=
  ghash_blocks (length data / 16) h 0 data.

Definition bit_length64 (l : list Z) : list Z :=
  Py.be_bytes 8 (8 * Z.of_nat (length l)).

(** The pre-counter block J0 *)
Definition j0 (h : Z) (nonce : list Z) : list Z :=
  if (length nonce =? 12)%nat then nonce ++ [0; 0; 0; 1]
  else Py.be_bytes 16
         (ghash h (pad16 nonce ++ repeat 0 8 ++ bit_length64 nonce)).

Definition counter_block (j : list Z) (i : Z) : list Z :=
  firstn 12 j ++ Py.be_bytes 4 ((Py.be_value (skipn 12 j) + i) mod 2 ^ 32).

(** Counter mode from the block after J0 *)
Fixpoint ctr_blocks (n : nat) (rks : list (list Z)) (j : list Z) (i : Z)
                    (data : list Z) : list Z :=
  match n with
  | O => []
  | S n' =>
    AES.xor_list (firstn 16 data) (AES.cipher rks (counter_block j i))
      ++ ctr_blocks n' rks j (i + 1) (skipn 16 data)
  end.

Definition ctr (rks : list (list Z)) (j : list Z) (data : list Z) : list Z :=
  ctr_blocks ((length data + 15) / 16) rks j 1 data.

(** The tag of the ciphertext [c] *)
Definition mac (rks : list (list Z)) (h : Z) (j : list Z) (c : list Z) : list Z :=
  AES.xor_list
    (Py.be_bytes 16 (ghash h (pad16 c ++ repeat 0 8 ++ bit_length64 c)))
    (AES.cipher rks j).

(** [AES.new(key, AES.MODE_GCM, nonce=nonce).decrypt_and_verify(c, tag)]: a
    [ValueError] for an empty nonce, for a key that is not of 16, 24 or 32
    bytes, and for a tag that is not the one computed ("MAC check failed");
    an [OverflowError] when the 32-bit counter would wrap around. *)
Definition decrypt_and_verify (key nonce c tag : Py.bytes) : Py.result Py.bytes :=
  if (length nonce =? 0)%nat then Py.Raise Py.ValueError
  else if negb (AES.valid_key_length (length key)) then Py.Raise Py.ValueError
  else if 16 * 2 ^ 32 <? Py.len c then Py.Raise Py.OverflowError
  else
    let rks := AES.key_schedule (map Py.b2z key) in
    let h := Py.be_value (AES.cipher rks (repeat 0 16)) in
    let j := j0 h (map Py.b2z nonce) in
    let cz := map Py.b2z c in
    let plaintext := map Py.z2b (ctr rks j cz) in
    if Py.bytes_eqb (map Py.z2b (mac rks h j cz)) tag then Py.Ok plaintext
    else Py.Raise Py.ValueError.

(** The encryption that builds an envelope: ciphertext and tag *)
Definition encrypt_and_digest (key nonce p : Py.bytes) : Py.bytes * Py.bytes :=
  let rks := AES.key_schedule (map Py.b2z key) in
  let h := Py.be_value (AES.cipher rks (repeat 0 16)) in
  let j := j0 h (map Py.b2z nonce) in
  let c := ctr rks j (map Py.b2z p) in
  (map Py.z2b c, map Py.z2b (mac rks h j c)).

End GCM.

(** ** SHA-1, HMAC and PBKDF2, as [hashlib.pbkdf2_hmac('sha1', ...)]
    computes them *)

Module KDF.

Definition mask32 (x : Z) : Z := Z.land x 0xFFFFFFFF.

Definition rotl32 (x k : Z) : Z :=
  mask32 (Z.lor (Z.shiftl x k) (Z.shiftr x (32 - k))).

Definition sha1_pad (msg : list Z) : list Z :=
  let n := Z.of_nat (length msg) in
  msg ++ [0x80] ++ repeat 0 (Z.to_nat ((55 - n) mod 64)) ++ Py.be_bytes 8 (8 * n).

(** The message schedule, latest word first *)
Fixpoint schedule (n : nat) (ws : list Z) : list Z :=
  match n with
  | O => ws
  | S n' =>
    schedule n'
      (rotl32 (Z.lxor (Z.lxor (nth 2 ws 0) (nth 7 ws 0))
                      (Z.lxor (nth 13 ws 0) (nth 15 ws 0))) 1 :: ws)
  end.

Definition state := (Z * Z * Z * Z * Z)%type.

Definition round (t : nat) (s : state) (w : Z) : state :=
  let '(a, b, c, d, e) := s in
  let '(f, k) :=
    if (t <? 20)%nat then
      (Z.lor (Z.land b c) (Z.land (Z.lxor b 0xFFFFFFFF) d), 0x5A827999)
    else if (t <? 40)%nat then (Z.lxor (Z.lxor b c) d, 0x6ED9EBA1)
    else if (t <? 60)%nat then
      (Z.lor (Z.lor (Z.land b c) (Z.land b d)) (Z.land c d), 0x8F1BBCDC)
    else (Z.lxor (Z.lxor b c) d, 0xCA62C1D6) in
  (mask32 (rotl32 a 5 + f + e + k + w), a, rotl32 b 30, c, d).

Fixpoint rounds (t : nat) (s : state) (ws : list Z) : state :=
  match ws with
  | [] => s
  | w :: ws' => rounds (S t) (round t s w) ws'
  end.

Definition compress (s : state) (block : list Z) : state :=
  let ws := rev (schedule 64 (rev (map Py.be_value (AES.chunks 16 4 block)))) in
  let '(a, b, c, d, e) := s in
  let '(a', b', c', d', e') := rounds 0 s ws in
  (mask32 (a + a'), mask32 (b + b'), mask32 (c + c'), mask32 (d + d'),
   mask32 (e + e')).

Fixpoint compress_all (n : nat) (s : state) (data : list Z) : state :=
  match n with
  | O => s
  | S n' => compress_all n' (compress s (firstn 64 data)) (skipn 64 data)
  end.

Definition sha1 (msg : list Z) : list Z :=
  let data := sha1_pad msg in
  let '(a, b, c, d, e) :=
    compress_all (length data / 64)
      (0x67452301, 0xEFCDAB89, 0x98BADCFE, 0x10325476, 0xC3D2E1F0) data in
  Py.be_bytes 4 a ++ Py.be_bytes 4 b ++ Py.be_bytes 4 c ++ Py.be_bytes 4 d
    ++ Py.be_bytes 4 e.

Definition hmac_sha1 (key msg : list Z) : list Z :=
  let k := if (64 <? length key)%nat then sha1 key else key in
  let k := k ++ repeat 0 (64 - length k) in
  sha1 (map (Z.lxor 0x5c) k ++ sha1 (map (Z.lxor 0x36) k ++ msg)).

(** U_1 xor ... xor U_c, with [u] = U_i and [acc] the xor so far *)
Fixpoint pbkdf2_iter (n : nat) (password u acc : list Z) : list Z :=
  match n with
  | O => acc
  | S n' =>
    let u' := hmac_sha1 password u in
    pbkdf2_iter n' password u' (AES.xor_list acc u')
  end.

Definition pbkdf2_block (password salt : list Z) (iterations : nat) (i : Z)
  : list Z :=
  let u1 := hmac_sha1 password (salt ++ Py.be_bytes 4 i) in
  pbkdf2_iter (iterations - 1) password u1 u1.

Fixpoint pbkdf2_blocks (n : nat) (password salt : list Z) (iterations : nat)
                       (i : Z) : list Z :=
  match n with
  | O => []
  | S n' =>
    pbkdf2_block password salt iterations i
      ++ pbkdf2_blocks n' password salt iterations (i + 1)
  end.

(** [pbkdf2_hmac('sha1', password, salt, iterations, dklen=dklen)], for
    [iterations >= 1] and [dklen >= 1] *)
Definition pbkdf2_hmac_sha1 (password salt : Py.bytes) (iterations : nat)
                            (dklen : nat) : Py.bytes :=
  map Py.z2b
    (firstn dklen
       (pbkdf2_blocks ((dklen + 19) / 20) (map Py.b2z password)
                      (map Py.b2z salt) iterations 1)).

End KDF.

(** ** Floats: [struct.unpack('<d', ...)] and the conversions of a float *)

Module Float.

Definition prec : Z := 53.
Definition emax : Z := 1024.

(** The binary64 value of a 64-bit pattern *)
Definition of_bits (w : Z) : spec_float :=
  let sign := Z.testbit w 63 in
  let e := Z.land (Z.shiftr w 52) 0x7FF in
  let f := Z.land w (2 ^ 52 - 1) in
  if e =? 0 then
    match f with
    | Zpos m => S754_finite sign m (-1074)
    | _ => S754_zero sign
    end
  else if e =? 0x7FF then
    if f =? 0 then S754_infinity sign else S754_nan
  else
    match f + 2 ^ 52 with
    | Zpos m => S754_finite sign m (e - 1075)
    | _ => S754_zero sign
    end.

(** [struct.unpack('<d', b)[0]] *)
Definition unpack_le_double (b : Py.bytes) : Py.result spec_float :=
  if Py.len b =? 8 then Py.Ok (of_bits (Py.le_value (map Py.b2z b)))
  else Py.Raise Py.StructError.

(** [x > 0] *)
Definition gt0 (x : spec_float) : bool := SFltb (S754_zero false) x.

Definition signed (s : bool) (v : Z) : Z := if s then - v else v.

(** The integral part of a finite float, rounded towards zero, as C's
    [modf] gives it *)
Definition trunc (x : spec_float) : Z :=
  match x with
  | S754_finite s m e =>
    signed s (if 0 <=? e then Z.shiftl (Zpos m) e else Z.shiftr (Zpos m) (- e))
  | _ => 0
  end.

(** The fractional part of a finite float, with the sign of the float *)
Definition frac (x : spec_float) : spec_float :=
  match x with
  | S754_finite s m e =>
    if 0 <=? e then S754_zero s
    else binary_normalize prec emax (signed s (Zpos m mod 2 ^ (- e))) e s
  | _ => S754_zero false
  end.

(** A finite float rounded to the nearest integer, ties to the even one *)
Definition round_half_even (x : spec_float) : Z :=
  match x with
  | S754_finite s m e =>
    if 0 <=? e then signed s (Z.shiftl (Zpos m) e)
    else
      let q := Z.shiftr (Zpos m) (- e) in
      let r := Zpos m mod 2 ^ (- e) in
      let half := 2 ^ (- e - 1) in
      signed s (if (half <? r) || ((r =? half) && Z.odd q) then q + 1 else q)
  | _ => 0
  end.

(** The float of an integer that a float holds exactly *)
Definition of_Z (n : Z) : spec_float := binary_normalize prec emax n 0 false.

Definition mul (x y : spec_float) : spec_float := SFmul prec emax x y.

End Float.

(** ** [datetime] and [timedelta] *)

Module DT.

Definition us_per_day : Z := 86400 * 1000000.

(** A [timedelta] is its length in microseconds; its days are bounded. *)
Definition max_delta_days : Z := 999999999.

Definition check_delta (us : Z) : Py.result Z :=
  if (us / us_per_day <? - max_delta_days) || (max_delta_days <? us / us_per_day)
  then Py.Raise Py.OverflowError else Py.Ok us.

(** [timedelta(microseconds=n)] for an [int] *)
Definition timedelta_microseconds (n : Z) : Py.result Z := check_delta n.

(** [timedelta(seconds=x)] for a [float]: the whole seconds are exact, the
    fraction is scaled by the float product with [1e6] and rounded to the
    nearest microsecond, ties to even. *)
Definition timedelta_seconds (x : spec_float) : Py.result Z :=
  match x with
  | S754_nan => Py.Raise Py.ValueError
  | S754_infinity _ => Py.Raise Py.OverflowError
  | _ =>
    check_delta
      (Float.trunc x * 1000000
       + Float.round_half_even (Float.mul (Float.of_Z 1000000) (Float.frac x)))
  end.

(** *** The proleptic Gregorian calendar *)

Definition is_leap (year : Z) : bool :=
  (year mod 4 =? 0) && (negb (year mod 100 =? 0) || (year mod 400 =? 0)).

Definition days_before_year (year : Z) : Z :=
  let y := year - 1 in y * 365 + y / 4 - y / 100 + y / 400.

Definition DAYS_IN_MONTH : list Z :=
  [-1; 31; 28; 31; 30; 31; 30; 31; 31; 30; 31; 30; 31].

Definition DAYS_BEFORE_MONTH : list Z :=
  [-1; 0; 31; 59; 90; 120; 151; 181; 212; 243; 273; 304; 334].

Definition b2i (b : bool) : Z := if b then 1 else 0.

Definition days_before_month (year month : Z) : Z :=
  nth (Z.to_nat month) DAYS_BEFORE_MONTH 0 + b2i ((2 <? month) && is_leap year).

Definition ymd2ord (year month day : Z) : Z :=
  days_before_year year + days_before_month year month + day.

Definition DI400Y : Z := 146097.
Definition DI100Y : Z := 36524.
Definition DI4Y : Z := 1461.

(** The month and the day of the year's day [n], counted from 0 *)
Definition month_day (leapyear : bool) (n : Z) : Z * Z :=
  let month := Z.shiftr (n + 50) 5 in
  let preceding :=
    nth (Z.to_nat month) DAYS_BEFORE_MONTH 0 + b2i ((2 <? month) && leapyear) in
  if n <? preceding then
    let month' := month - 1 in
    let preceding' :=
      preceding - (nth (Z.to_nat month') DAYS_IN_MONTH 0
                   + b2i ((month' =? 2) && leapyear)) in
    (month', n - preceding' + 1)
  else (month, n - preceding + 1).

(** Year, month and day of the ordinal [n]; day 1 is 0001-01-01. *)
Definition ord2ymd (n : Z) : Z * Z * Z :=
  let n := n - 1 in
  let n400 := n / DI400Y in
  let n := n mod DI400Y in
  let n100 := n / DI100Y in
  let n := n mod DI100Y in
  let n4 := n / DI4Y in
  let n := n mod DI4Y in
  let n1 := n / 365 in
  let n := n mod 365 in
  let year := n400 * 400 + 1 + n100 * 100 + n4 * 4 + n1 in
  if (n1 =? 4) || (n100 =? 4) then (year - 1, 12, 31)
  else
    let leapyear := (n1 =? 3) && (negb (n4 =? 24) || (n100 =? 3)) in
    let '(month, day) := month_day leapyear n in
    (year, month, day).

Definition MAXORDINAL : Z := 3652059.

(** A [datetime] without a time zone is the number of microseconds since the
    start of ordinal 0; it denotes a date of the years 1 to 9999. *)
Definition valid (t : Z) : bool :=
  (1 <=? t / us_per_day) && (t / us_per_day <=? MAXORDINAL).

(** [datetime(year, month, day)] *)
Definition datetime (year month day : Z) : Z :=
  ymd2ord year month day * us_per_day.

(** [t + delta] *)
Definition add (t delta : Z) : Py.result Z :=
  if valid (t + delta) then Py.Ok (t + delta) else Py.Raise Py.OverflowError.

(** *** strftime *)

Definition digit (d : Z) : ascii := ascii_of_nat (48 + Z.to_nat d).

(** The decimal digits of a natural number *)
Fixpoint digits (fuel : nat) (n : Z) : string :=
  match fuel with
  | O => EmptyString
  | S fuel' =>
    if n <? 10 then String (digit n) EmptyString
    else (digits fuel' (n / 10) ++ String (digit (n mod 10)) EmptyString)%string
  end.

Definition decimal (n : Z) : string := digits (S (Z.to_nat n)) n.

Fixpoint zeros (n : nat) : string :=
  match n with
  | O => EmptyString
  | S n' => String "0"%char (zeros n')
  end.

(** [n] in decimal, filled with zeros on the left to [width] characters *)
Definition zero_padded (width : nat) (n : Z) : string :=
  let s := decimal n in
  (zeros (width - String.length s) ++ s)%string.

(** [%Y]: the C library decides whether a year below 1000 is filled to four
    digits ([pads_year]) or not (glibc). *)
Definition format_year (pads_year : bool) (year : Z) : string :=
  if pads_year then zero_padded 4 year else decimal year.

(** [t.strftime('%Y-%m-%d %H:%M:%S')] *)
Definition strftime (pads_year : bool) (t : Z) : Py.str :=
  let '(year, month, day) := ord2ymd (t / us_per_day) in
  let second := (t mod us_per_day) / 1000000 in
  (format_year pads_year year ++ "-" ++ zero_padded 2 month ++ "-"
   ++ zero_padded 2 day ++ " " ++ zero_padded 2 (second / 3600) ++ ":"
   ++ zero_padded 2 (second / 60 mod 60) ++ ":" ++ zero_padded 2 (second mod 60)
  )%string.

End DT.

(** ** The program *)

Import Py.
Open Scope string_scope.
Open Scope list_scope.
Open Scope Z_scope.

Notation "x <- c ;; k" := (bind c (fun x => k))
  (at level 61, c at next level, right associativity).

(** [platform.system()] *)
Inductive system := Darwin | Windows | Linux | OtherSystem.

Definition system_eqb (a b : system) : bool :=
  match a, b with
  | Darwin, Darwin | Windows, Windows | Linux, Linux
  | OtherSystem, OtherSystem => true
  | _, _ => false
  end.

Record browser_info := {
  browser_name : str;
  cookie_path : str;
  base_path : str
}.

(** An item of the Linux secret service: its label and its secret, each of
    which the service may fail to hand over. *)
Record secret_item := {
  get_label : result str;
  get_secret : result bytes
}.

(** A row of the [cookies] table of a Chromium store, read with
    [text_factory = bytes]; [None] is SQL NULL. *)
Record chromium_row := {
  host_key : bytes;
  row_name : bytes;
  encrypted_value : option bytes;
  row_path : bytes;
  expires_utc : option Z;
  is_secure : Z;
  is_httponly : Z;
  row_samesite : option Z
}.

(** A row of [moz_cookies] *)
Record firefox_row := {
  moz_host : str;
  moz_name : str;
  moz_value : str;
  moz_path : str;
  moz_expiry : option Z;
  moz_isSecure : Z;
  moz_isHttpOnly : Z;
  moz_sameSite : option Z
}.

(** What the program consults outside itself: the platform, the C library
    and the time zone, the secret stores, and the stores' files. *)
Record world := {
  SYSTEM : system;
  (** whether the C library's [%Y] fills a year to four digits *)
  pads_year : bool;
  (** the local time zone: seconds east of UTC at a POSIX time *)
  utcoffset : Z -> Z;
  (** [str.lower] *)
  lower : str -> str;
  (** [get_keychain_password(service, account)] *)
  get_keychain_password : str -> str -> option str;
  (** the items of the default collection of [secretstorage], when the
      service answers *)
  secret_items : result (list secret_item);
  (** [get_windows_key], which rests on DPAPI *)
  get_windows_key : browser_info -> option bytes;
  (** [win32crypt.CryptUnprotectData(blob, None, None, None, 0)[1]], a raise
      when the module is missing or the call fails *)
  CryptUnprotectData : bytes -> result bytes;
  (** [discover_chromium_browsers()] *)
  discover_chromium_browsers : list browser_info;
  (** the rows of a browser's store, when its file exists, can be copied and
      answers the query *)
  chromium_rows : browser_info -> option (list chromium_row);
  (** the bytes of [Cookies.binarycookies], when it can be copied *)
  safari_file : result bytes;
  (** per Firefox profile with a [cookies.sqlite]: its rows, when the file
      can be copied and answers the query *)
  firefox_profiles : list (option (list firefox_row))
}.

(** The canonical cookie record *)
Record cookie := {
  browser : str;
  domain : str;
  name : str;
  value : str;
  path : str;
  expires : str;
  secure : bool;
  httponly : bool;
  samesite : option Z
}.

Definition is_empty {A} (l : list A) : bool :=
  match l with [] => true | _ => false end.

(** *** Key derivation *)

Definition saltysalt : bytes := encode "saltysalt".

Definition keychain_map : list (str * (str * str)) :=
  [ ("Chrome", ("Chrome Safe Storage", "Chrome"));
    ("Chrome Beta", ("Chrome Safe Storage", "Chrome"));
    ("Chrome Canary", ("Chrome Safe Storage", "Chrome"));
    ("Brave", ("Brave Safe Storage", "Brave"));
    ("Brave Beta", ("Brave Safe Storage", "Brave"));
    ("Edge", ("Microsoft Edge Safe Storage", "Microsoft Edge"));
    ("Edge Beta", ("Microsoft Edge Safe Storage", "Microsoft Edge"));
    ("Arc", ("Arc Safe Storage", "Arc"));
    ("Opera", ("Opera Safe Storage", "Opera"));
    ("Opera GX", ("Opera Safe Storage", "Opera"));
    ("Vivaldi", ("Vivaldi Safe Storage", "Vivaldi"));
    ("Chromium", ("Chromium Safe Storage", "Chromium"));
    ("Comet", ("Comet Safe Storage", "Comet"));
    ("Sidekick", ("Sidekick Safe Storage", "Sidekick"));
    ("Yandex", ("Yandex Safe Storage", "Yandex"));
    ("Wavebox", ("Wavebox Safe Storage", "Wavebox"));
    ("Orion", ("Orion Safe Storage", "Orion")) ].

Fixpoint lookup {A} (k : str) (m : list (str * A)) : option A :=
  match m with
  | [] => None
  | (k', v) :: m' => if String.eqb k k' then Some v else lookup k m'
  end.

(** The key of a keychain password, when there is a password and it is not
    empty *)
Definition macos_derive (password : option str) : option bytes :=
  match password with
  | Some p =>
    if String.eqb p "" then None
    else Some (KDF.pbkdf2_hmac_sha1 (encode p) saltysalt 1003 16)
  | None => None
  end.

Definition get_macos_key (w : world) (b : browser_info) : option bytes :=
  let mapped :=
    match lookup (browser_name b) keychain_map with
    | Some (service, account) =>
      macos_derive (get_keychain_password w service account)
    | None => None
    end in
  match mapped with
  | Some key => Some key
  | None =>
    macos_derive
      (get_keychain_password w (browser_name b ++ " Safe Storage")%string
                             (browser_name b))
  end.

Fixpoint is_prefix (p s : string) : bool :=
  match p, s with
  | EmptyString, _ => true
  | String a p', String b s' => Ascii.eqb a b && is_prefix p' s'
  | String _ _, EmptyString => false
  end.

(** [p in s] *)
Fixpoint contains (p s : string) : bool :=
  is_prefix p s
  || match s with
     | EmptyString => false
     | String _ s' => contains p s'
     end.

(** The loop over the items of the collection: the key of the first item
    whose label holds the browser's name. *)
Fixpoint linux_items (w : world) (b : browser_info) (items : list secret_item)
  : result (option bytes) :=
  match items with
  | [] => Ok None
  | item :: rest =>
    label <- get_label item ;;
    if contains (lower w (browser_name b)) (lower w label) then
      secret <- get_secret item ;;
      password <- decode_strict secret ;;
      Ok (Some (KDF.pbkdf2_hmac_sha1 (encode password) saltysalt 1 16))
    else linux_items w b rest
  end.

Definition peanuts_key : bytes :=
  KDF.pbkdf2_hmac_sha1 (encode "peanuts") saltysalt 1 16.

Definition get_linux_key (w : world) (b : browser_info) : option bytes :=
  match (items <- secret_items w ;; linux_items w b items) with
  | Ok (Some key) => Some key
  | _ => Some peanuts_key
  end.

Definition get_encryption_key (w : world) (b : browser_info) : option bytes :=
  match SYSTEM w with
  | Darwin => get_macos_key w b
  | Windows => get_windows_key w b
  | Linux => get_linux_key w b
  | OtherSystem => None
  end.

(** *** The cipher envelope decoder *)

Definition v10 : bytes := encode "v10".
Definition v11 : bytes := encode "v11".

(** The body of the [try] of [decrypt_cookie_value] *)
Definition decrypt_body (w : world) (encrypted_value key : bytes) : result str :=
  if bytes_eqb (slice encrypted_value None (Some 3)) v10 then
    let iv := repeat x20 16 in
    decrypted <- AES.cbc_decrypt key iv (slice encrypted_value (Some 3) None) ;;
    padding_len <- index decrypted (-1) ;;
    let decrypted :=
      if b2z padding_len <? 16
      then slice decrypted None (Some (- b2z padding_len))
      else decrypted in
    let decrypted :=
      if 32 <? len decrypted then slice decrypted (Some 32) None
      else decrypted in
    Ok (decode_replace decrypted)
  else if bytes_eqb (slice encrypted_value None (Some 3)) v11 then
    let nonce := slice encrypted_value (Some 3) (Some 15) in
    let ciphertext := slice encrypted_value (Some 15) (Some (-16)) in
    let tag := slice encrypted_value (Some (-16)) None in
    plaintext <- GCM.decrypt_and_verify key nonce ciphertext tag ;;
    Ok (decode_replace plaintext)
  else
    let as_is := Ok (decode_replace encrypted_value) in
    if system_eqb (SYSTEM w) Windows then
      match (unprotected <- CryptUnprotectData w encrypted_value ;;
             decode_strict unprotected) with
      | Ok s => Ok s
      | Raise _ => as_is
      end
    else as_is.

Definition decrypt_cookie_value (w : world) (encrypted_value key : bytes)
  : result str :=
  if is_empty encrypted_value || is_empty key then Ok ""
  else try_except (decrypt_body w encrypted_value key) (Ok "").

(** *** The timestamp conversions *)

(** [chrome_timestamp_to_datetime(timestamp)]; [None] is an absent
    timestamp. *)
Definition chrome_timestamp_to_datetime (w : world) (timestamp : option Z)
  : result str :=
  if match timestamp with Some 0 => true | _ => false end then Ok "Session"
  else
    try_except
      (match timestamp with
       | None => Raise TypeError
       | Some t =>
         delta <- DT.timedelta_microseconds t ;;
         dt <- DT.add (DT.datetime 1601 1 1) delta ;;
         Ok (DT.strftime (pads_year w) dt)
       end)
      (Ok "Unknown").

(** The expiry of a record of the paged container, line 374 *)
Definition safari_exp_str (w : world) (exp : spec_float) : result str :=
  if Float.gt0 exp then
    delta <- DT.timedelta_seconds exp ;;
    dt <- DT.add (DT.datetime 2001 1 1) delta ;;
    Ok (DT.strftime (pads_year w) dt)
  else Ok "Session".

(** [datetime.fromtimestamp(t)], in local time *)
Definition fromtimestamp (w : world) (t : Z) : result Z :=
  let local := DT.datetime 1970 1 1 + (t + utcoffset w t) * 1000000 in
  if DT.valid local then Ok local else Raise ValueError.

(** The expiry of a row of [moz_cookies], line 421 *)
Definition firefox_exp_str (w : world) (expiry : option Z) : result str :=
  match expiry with
  | None | Some 0 => Ok "Session"
  | Some t => dt <- fromtimestamp w t ;; Ok (DT.strftime (pads_year w) dt)
  end.

(** *** The stores of the Chromium family *)

Definition chromium_cookie (w : world) (b : browser_info) (key : bytes)
                           (row : chromium_row) : result cookie :=
  decrypted <-
    decrypt_cookie_value w
      (match encrypted_value row with Some e => e | None => [] end) key ;;
  expires <- chrome_timestamp_to_datetime w (expires_utc row) ;;
  Ok {| browser := browser_name b;
        domain := decode_replace (host_key row);
        name := decode_replace (row_name row);
        value := decrypted;
        path := decode_replace (row_path row);
        expires := expires;
        secure := negb (is_secure row =? 0);
        httponly := negb (is_httponly row =? 0);
        samesite := match row_samesite row with
                    | Some s => Some s
                    | None => Some 0
                    end |}.

(** The loop over the rows: a raise ends it, the records appended so far
    stay. *)
Fixpoint collect_until_raise {A B} (f : A -> result B) (l : list A) : list B :=
  match l with
  | [] => []
  | a :: l' =>
    match f a with
    | Ok b => b :: collect_until_raise f l'
    | Raise _ => []
    end
  end.

Definition export_chromium_cookies (w : world) (b : browser_info) : list cookie :=
  match get_encryption_key w b with
  | None => []
  | Some key =>
    if is_empty key then []
    else
      match chromium_rows w b with
      | None => []
      | Some rows => collect_until_raise (chromium_cookie w b key) rows
      end
  end.

(** *** The paged binary container *)

Definition page_magic : bytes := [x00; x00; x01; x00].

(** [read_str(o)] over the record's view [d] *)
Definition read_str (d : bytes) (o : Z) : str :=
  let end_ := find d x00 o in
  decode_replace (slice d (Some o) (Some end_)).

(** The body of the [try] of the loop of [parse_safari_page], for the
    record at [off] *)
Definition safari_record (w : world) (data : bytes) (off : Z) : result cookie :=
  let d := slice data (Some off) None in
  flags <- unpack_le_u32 (slice d (Some 8) (Some 12)) ;;
  url_off <- unpack_le_u32 (slice d (Some 16) (Some 20)) ;;
  name_off <- unpack_le_u32 (slice d (Some 20) (Some 24)) ;;
  path_off <- unpack_le_u32 (slice d (Some 24) (Some 28)) ;;
  val_off <- unpack_le_u32 (slice d (Some 28) (Some 32)) ;;
  exp <- Float.unpack_le_double (slice d (Some 40) (Some 48)) ;;
  exp_str <- safari_exp_str w exp ;;
  Ok {| browser := "Safari";
        domain := read_str d url_off;
        name := read_str d name_off;
        value := read_str d val_off;
        path := read_str d path_off;
        expires := exp_str;
        secure := negb (Z.land flags 1 =? 0);
        httponly := negb (Z.land flags 4 =? 0);
        samesite := Some 0 |}.

(** The offset table: [n] offsets from the one of index [i] *)
Fixpoint read_offsets (data : bytes) (n : nat) (i : Z) : result (list Z) :=
  match n with
  | O => Ok []
  | S n' =>
    off <- unpack_le_u32 (slice data (Some (8 + i * 4)) (Some (12 + i * 4))) ;;
    rest <- read_offsets data n' (i + 1) ;;
    Ok (off :: rest)
  end.

(** The loop over the offsets: a record that raises is skipped. *)
Fixpoint safari_records (w : world) (data : bytes) (offsets : list Z)
  : list cookie :=
  match offsets with
  | [] => []
  | off :: rest =>
    match safari_record w data off with
    | Ok c => c :: safari_records w data rest
    | Raise _ => safari_records w data rest
    end
  end.

Definition parse_safari_page (w : world) (data : bytes) : result (list cookie) :=
  if negb (bytes_eqb (slice data None (Some 4)) page_magic) then Ok []
  else
    num <- unpack_le_u32 (slice data (Some 4) (Some 8)) ;;
    offsets <- read_offsets data (Z.to_nat num) 0 ;;
    Ok (safari_records w data offsets).

(** [f.read(n)] on the rest of the file: the bytes read and the rest *)
Definition file_read (rest : bytes) (n : Z) : bytes * bytes :=
  (firstn (Z.to_nat n) rest, skipn (Z.to_nat n) rest).

Fixpoint read_page_sizes (rest : bytes) (n : nat) : result (list Z * bytes) :=
  match n with
  | O => Ok ([], rest)
  | S n' =>
    let '(b, rest') := file_read rest 4 in
    size <- unpack_be_u32 b ;;
    r <- read_page_sizes rest' n' ;;
    Ok (size :: fst r, snd r)
  end.

(** The loop over the pages; a raise ends it, the records of the pages
    before stay. *)
Fixpoint safari_pages (w : world) (rest : bytes) (sizes : list Z) : list cookie :=
  match sizes with
  | [] => []
  | size :: sizes' =>
    let '(page, rest') := file_read rest size in
    match parse_safari_page w page with
    | Ok cookies => cookies ++ safari_pages w rest' sizes'
    | Raise _ => []
    end
  end.

Definition safari_file_cookies (w : world) (content : bytes) : list cookie :=
  let '(magic, rest) := file_read content 4 in
  if negb (bytes_eqb magic (encode "cook")) then []
  else
    let '(b, rest) := file_read rest 4 in
    match (num_pages <- unpack_be_u32 b ;;
           read_page_sizes rest (Z.to_nat num_pages)) with
    | Ok (sizes, rest) => safari_pages w rest sizes
    | Raise _ => []
    end.

Definition export_safari_cookies (w : world) : list cookie :=
  if negb (system_eqb (SYSTEM w) Darwin) then []
  else
    match safari_file w with
    | Raise _ => []
    | Ok content => safari_file_cookies w content
    end.

(** *** The other relational store *)

Definition firefox_cookie (w : world) (row : firefox_row) : result cookie :=
  exp_str <- firefox_exp_str w (moz_expiry row) ;;
  Ok {| browser := "Firefox";
        domain := moz_host row;
        name := moz_name row;
        value := moz_value row;
        path := moz_path row;
        expires := exp_str;
        secure := negb (moz_isSecure row =? 0);
        httponly := negb (moz_isHttpOnly row =? 0);
        samesite := moz_sameSite row |}.

Definition export_firefox_cookies (w : world) : list cookie :=
  concat
    (map (fun profile =>
            match profile with
            | None => []
            | Some rows => collect_until_raise (firefox_cookie w) rows
            end)
         (firefox_profiles w)).

(** *** The record aggregator of [main] *)

(** [if cookies: all_cookies.extend(cookies)] *)
Definition extend_if_any (all_cookies cookies : list cookie) : list cookie :=
  if is_empty cookies then all_cookies else all_cookies ++ cookies.

Definition all_cookies (w : world) : list cookie :=
  let all_cookies :=
    fold_left
      (fun all_cookies b => extend_if_any all_cookies (export_chromium_cookies w b))
      (discover_chromium_browsers w) [] in
  let all_cookies :=
    if system_eqb (SYSTEM w) Darwin
    then extend_if_any all_cookies (export_safari_cookies w)
    else all_cookies in
  extend_if_any all_cookies (export_firefox_cookies w).

(** ** The specification's words, for comparison with the program *)

(** "strip PKCS-style padding using the last byte as length only if that
    length is below the block size" *)
Definition strip_padding (p : bytes) : bytes :=
  match last_opt p with
  | Some b =>
    if b2z b <? 16 then firstn (length p - Z.to_nat (b2z b)) p else p
  | None => p
  end.

(** "if the remaining plaintext exceeds 32 bytes, drop the leading 32
    bytes" *)
Definition drop_prefix (p : bytes) : bytes :=
  if (32 <? length p)%nat then skipn 32 p else p.

(** The text of a [v10] plaintext *)
Definition v10_text (p : bytes) : str :=
  decode_replace (drop_prefix (strip_padding p)).

(** "fixed all-space 16-byte initialization vector" *)
Definition spaces_iv : bytes := repeat x20 16.

(** "nonce = bytes[3:15]; ciphertext = bytes[15:-16]; tag = last 16
    bytes" *)
Definition v11_nonce (blob : bytes) : bytes := firstn 12 (skipn 3 blob).

Definition v11_ciphertext (blob : bytes) : bytes :=
  skipn 15 (firstn (length blob - 16) blob).

Definition v11_tag (blob : bytes) : bytes := skipn (length blob - 16) blob.

(** A last byte that is no PKCS#7 padding length for blocks of 16 bytes *)
Definition bad_padding (p : bytes) : bool :=
  match last_opt p with
  | Some b => (b2z b =? 0) || (16 <? b2z b)
  | None => true
  end.

(** The record layout of the paged container, in the specification's
    words: a field at a fixed byte position of the record, and a string
    that runs from its offset to the next NUL byte. *)
Definition u32_at (d : bytes) (pos : nat) : Z :=
  le_value (map b2z (firstn 4 (skipn pos d))).

Definition f64_at (d : bytes) (pos : nat) : spec_float :=
  Float.of_bits (le_value (map b2z (firstn 8 (skipn pos d)))).

Fixpoint until (b : byte) (l : bytes) : bytes :=
  match l with
  | [] => []
  | c :: t => if Byte.eqb c b then [] else c :: until b t
  end.

Definition string_at (d : bytes) (o : Z) : str :=
  decode_replace (until x00 (skipn (Z.to_nat o) d)).

Definition terminated_at (d : bytes) (o : Z) : Prop :=
  In x00 (skipn (Z.to_nat o) d).

(** A record all of whose fixed fields and strings can be read *)
Definition well_formed_record (d : bytes) : Prop :=
  (48 <= length d)%nat
  /\ terminated_at d (u32_at d 16) /\ terminated_at d (u32_at d 20)
  /\ terminated_at d (u32_at d 24) /\ terminated_at d (u32_at d 28).

(** "formatted as YYYY-MM-DD HH:MM:SS" *)
Definition is_digit (a : ascii) : bool :=
  let n := nat_of_ascii a in ((48 <=? n) && (n <=? 57))%nat.

Definition is_timestamp (s : string) : bool :=
  match list_ascii_of_string s with
  | [y1; y2; y3; y4; d1; m1; m2; d2; a1; a2; sp; h1; h2; c1; i1; i2; c2; s1; s2] =>
    forallb is_digit [y1; y2; y3; y4; m1; m2; a1; a2; h1; h2; i1; i2; s1; s2]
    && forallb (Ascii.eqb "-") [d1; d2]
    && Ascii.eqb sp " " && forallb (Ascii.eqb ":") [c1; c2]
  | _ => false
  end.

(** One of the three results of the timestamp normalizer *)
Definition normalized (s : str) : Prop :=
  s = "Session" \/ s = "Unknown" \/ is_timestamp s = true.

(** A float that is greater than zero: a positive number or infinity *)
Definition greater_than_zero (x : spec_float) : bool :=
  match x with
  | S754_finite false _ _ | S754_infinity false => true
  | _ => false
  end.

Definition is_zero (x : spec_float) : bool :=
  match x with
  | S754_zero _ => true
  | _ => false
  end.

(** The POSIX time of a Chrome timestamp, in whole seconds *)
Definition chrome_posix (t : Z) : Z :=
  (DT.datetime 1601 1 1 + t - DT.datetime 1970 1 1) / 1000000.

(** ** Inputs of the examples *)

Definition ascii_lower (a : ascii) : ascii :=
  let n := nat_of_ascii a in
  if ((65 <=? n) && (n <=? 90))%nat then ascii_of_nat (n + 32) else a.

Fixpoint string_map (f : ascii -> ascii) (s : string) : string :=
  match s with
  | EmptyString => EmptyString
  | String a s' => String (f a) (string_map f s')
  end.

(** A Linux machine with glibc, in UTC, whose secret service does not
    answer and that holds no store *)
Definition linux_world : world :=
  {| SYSTEM := Linux;
     pads_year := false;
     utcoffset := fun _ => 0;
     lower := string_map ascii_lower;
     get_keychain_password := fun _ _ => None;
     secret_items := Raise OSError;
     get_windows_key := fun _ => None;
     CryptUnprotectData := fun _ => Raise OSError;
     discover_chromium_browsers := [];
     chromium_rows := fun _ => None;
     safari_file := Raise OSError;
     firefox_profiles := [] |}.

(** A Linux machine with glibc, one hour east of UTC *)
Definition berlin_world : world :=
  {| SYSTEM := Linux;
     pads_year := false;
     utcoffset := fun _ => 3600;
     lower := string_map ascii_lower;
     get_keychain_password := fun _ _ => None;
     secret_items := Raise OSError;
     get_windows_key := fun _ => None;
     CryptUnprotectData := fun _ => Raise OSError;
     discover_chromium_browsers := [];
     chromium_rows := fun _ => None;
     safari_file := Raise OSError;
     firefox_profiles := [] |}.

(** [v10] envelopes under [peanuts_key]: the plaintext of [blob_zero] is
    [token=abc123456] and a byte 0; of [blob_space], [hello world] and five
    spaces; of [blob_full], [sixteen byte msg] and a block of sixteen bytes
    16; of [blob_prefixed], 32 bytes 0, [sessionid=42] and four bytes 4. *)
Definition blob_zero : bytes :=
  fromhex "763130c047dc414a42b4d40198f05a88c90e34".

Definition blob_space : bytes :=
  fromhex "763130c74f2bd6ae0b4802c73314125b650846".

Definition blob_full : bytes :=
  fromhex
    "76313022c4a56506208c4a5c6961a49db71d937826a9b21473112596c5932388cf452b".

Definition blob_prefixed : bytes :=
  fromhex
    ("7631304d4114329f1e692e807b8b044d67460f5e14d92ffb48b9f83be318ebd0d84c72"
     ++ "73fa5ff487fce422b60d14241e333064").

(** The plaintexts of the [v10] examples *)
Definition plain_zero : bytes := encode "token=abc123456" ++ [x00].

Definition plain_space : bytes := encode "hello world     ".

Definition plain_full : bytes := encode "sixteen byte msg" ++ repeat x10 16.

Definition plain_prefixed : bytes :=
  repeat x00 32 ++ encode "sessionid=42" ++ repeat x04 4.

(** A [v11] envelope of [sessionid=42] under [gcm_key], and the same with
    the lowest bit of its tag flipped *)
Definition gcm_key : bytes := fromhex "000102030405060708090a0b0c0d0e0f".

Definition blob_v11 : bytes :=
  fromhex
    ("763131101112131415161718191a1bb74b70dc6620d88673e069c7"
     ++ "62eac23764fa4ed4c8fb98339db90f82").

Definition blob_v11_flipped : bytes :=
  fromhex
    ("763131101112131415161718191a1bb74b70dc6620d88673e069c7"
     ++ "62eac23764fa4ed4c8fb98339db90f83").

(** Pages of the paged container. A record holds its size, an unused word,
    its flags, an unused word, the offsets of its four strings, eight unused
    bytes, its expiry and its creation time, then the strings. *)
Definition u32le (v : Z) : bytes := map z2b (rev (be_bytes 4 v)).

Definition cstr (s : string) : bytes := encode s ++ [x00].

Definition make_record (flags : Z) (url name_ path_ value_ : bytes)
                       (expiry : string) : bytes :=
  let url_off := 56 in
  let name_off := url_off + len url in
  let path_off := name_off + len name_ in
  let val_off := path_off + len path_ in
  u32le (val_off + len value_) ++ u32le 0 ++ u32le flags ++ u32le 0
    ++ u32le url_off ++ u32le name_off ++ u32le path_off ++ u32le val_off
    ++ repeat x00 8 ++ fromhex expiry ++ repeat x00 8
    ++ url ++ name_ ++ path_ ++ value_.

Definition make_page (offsets : list Z) (records : bytes) : bytes :=
  page_magic ++ u32le (len offsets) ++ concat (map u32le offsets) ++ records.

(** A secure, http-only cookie that expires one day after the Mac epoch *)
Definition record_sid : bytes :=
  make_record 5 (cstr ".example.com") (cstr "sid") (cstr "/") (cstr "abc")
              "000000000018f540".

(** A session cookie with no flag set *)
Definition record_theme : bytes :=
  make_record 0 (cstr "example.org") (cstr "theme") (cstr "/app") (cstr "dark")
              "0000000000000000".

(** The same as [record_sid], its value without its NUL byte *)
Definition record_unterminated : bytes :=
  make_record 5 (cstr ".example.com") (cstr "sid") (cstr "/") (encode "abc")
              "000000000018f540".

Definition cookie_sid : cookie :=
  {| browser := "Safari"; domain := ".example.com"; name := "sid";
     value := "abc"; path := "/"; expires := "2001-01-02 00:00:00";
     secure := true; httponly := true; samesite := Some 0 |}.

Definition cookie_theme : cookie :=
  {| browser := "Safari"; domain := "example.org"; name := "theme";
     value := "dark"; path := "/app"; expires := "Session";
     secure := false; httponly := false; samesite := Some 0 |}.

(** Two records *)
Definition page_two : bytes :=
  make_page [16; 16 + len record_sid] (record_sid ++ record_theme).

(** The same page, with a third offset between the two that points past
    the end of the page *)
Definition page_corrupt_offset : bytes :=
  make_page [20; 9999; 20 + len record_sid] (record_sid ++ record_theme).

(** A page whose only record has a value with no NUL byte after it *)
Definition page_unterminated : bytes :=
  make_page [12] record_unterminated.

(** The floats -1.0, 86400.0 and 1e300 *)
Definition float_minus_one : spec_float := Float.of_bits 0xBFF0000000000000.
Definition float_one_day : spec_float := Float.of_bits 0x40F5180000000000.
Definition float_huge : spec_float := Float.of_bits 0x7E37E43C8800759C.

(** A Linux machine whose Chrome store and whose Firefox profile each hold
    a cookie of the same domain, name and path; the secret service does not
    answer, so Chrome's value is encrypted under [peanuts_key]. *)
Definition chrome_info : browser_info :=
  {| browser_name := "Chrome";
     cookie_path := "/home/u/.config/google-chrome/Default/Cookies";
     base_path := "/home/u/.config/google-chrome" |}.

Definition chrome_row : chromium_row :=
  {| host_key := encode ".example.com";
     row_name := encode "sid";
     encrypted_value := Some blob_prefixed;
     row_path := encode "/";
     expires_utc := Some 13397871380000000;
     is_secure := 1;
     is_httponly := 0;
     row_samesite := Some 1 |}.

Definition mozilla_row : firefox_row :=
  {| moz_host := ".example.com";
     moz_name := "sid";
     moz_value := "sessionid=42";
     moz_path := "/";
     moz_expiry := Some 0;
     moz_isSecure := 1;
     moz_isHttpOnly := 0;
     moz_sameSite := Some 1 |}.

Definition two_store_world : world :=
  {| SYSTEM := Linux;
     pads_year := false;
     utcoffset := fun _ => 0;
     lower := string_map ascii_lower;
     get_keychain_password := fun _ _ => None;
     secret_items := Raise OSError;
     get_windows_key := fun _ => None;
     CryptUnprotectData := fun _ => Raise OSError;
     discover_chromium_browsers := [chrome_info];
     chromium_rows := fun _ => Some [chrome_row];
     safari_file := Raise OSError;
     firefox_profiles := [Some [mozilla_row]] |}.

(** A Mac whose keychain holds the password [hunter2] for Chrome *)
Definition mac_world : world :=
  {| SYSTEM := Darwin;
     pads_year := true;
     utcoffset := fun _ => 0;
     lower := string_map ascii_lower;
     get_keychain_password :=
       fun service account =>
         if String.eqb service "Chrome Safe Storage"
            && String.eqb account "Chrome"
         then Some "hunter2" else None;
     secret_items := Raise OSError;
     get_windows_key := fun _ => None;
     CryptUnprotectData := fun _ => Raise OSError;
     discover_chromium_browsers := [chrome_info];
     chromium_rows := fun _ => None;
     safari_file := Raise OSError;
     firefox_profiles := [] |}.

(** ** The claims that fail, as the specification states them *)

(** The [v10] row of the decoder's table, for one envelope and key: the
    decryption of bytes[3:], stripped of its padding when the last byte is
    below 16, without its first 32 bytes when more than 32 remain, decoded. *)
Definition v10_claim (w : world) (blob key : bytes) : Prop :=
  firstn 3 blob = v10 -> length key = 16%nat ->
  forall p, AES.cbc_decrypt key spaces_iv (skipn 3 blob) = Ok p ->
  decrypt_cookie_value w blob key = Ok (v10_text p).

(** The decoder's failure policy, for one envelope and key: no exception
    escapes, and a bad padding length, a tag mismatch and any raise of the
    decoding all give the empty string. *)
Definition failure_policy_claim (w : world) (blob key : bytes) : Prop :=
  (exists s, decrypt_cookie_value w blob key = Ok s)
  /\ (forall p, firstn 3 blob = v10 ->
        AES.cbc_decrypt key spaces_iv (skipn 3 blob) = Ok p ->
        bad_padding p = true ->
        decrypt_cookie_value w blob key = Ok "")
  /\ (forall e, firstn 3 blob = v11 ->
        GCM.decrypt_and_verify key (v11_nonce blob) (v11_ciphertext blob)
                               (v11_tag blob) = Raise e ->
        decrypt_cookie_value w blob key = Ok "")
  /\ (forall e, decrypt_body w blob key = Raise e ->
        decrypt_cookie_value w blob key = Ok "").

(** The expiry of the paged container as the specification states it:
    "Session" exactly for a stored zero. *)
Definition session_claim (w : world) (exp : spec_float) : Prop :=
  safari_exp_str w exp = Ok "Session" <-> is_zero exp = true.

(** The timestamp normalizer as the specification states it, under the
    three conventions: zero or absent gives "Session"; every input gives
    "Session", "Unknown" or a string of the fixed format; and a converted
    time is the local one. *)
Definition normalizer_claim (w : world) : Prop :=
  (forall ts, ts = None \/ ts = Some 0 ->
     chrome_timestamp_to_datetime w ts = Ok "Session")
  /\ (forall x, is_zero x = true -> safari_exp_str w x = Ok "Session")
  /\ (forall e, e = None \/ e = Some 0 -> firefox_exp_str w e = Ok "Session")
  /\ (forall ts, exists s,
        chrome_timestamp_to_datetime w ts = Ok s /\ normalized s)
  /\ (forall x, exists s, safari_exp_str w x = Ok s /\ normalized s)
  /\ (forall e, exists s, firefox_exp_str w e = Ok s /\ normalized s)
  /\ (forall t, t <> 0 -> DT.valid (DT.datetime 1601 1 1 + t) = true ->
        chrome_timestamp_to_datetime w (Some t)
        = Ok (DT.strftime (pads_year w)
                (DT.datetime 1601 1 1 + t
                 + utcoffset w (chrome_posix t) * 1000000))).

(** ** Auxiliary predicates of the proofs *)

Definition month_day_ok (leap : bool) (k : nat) : bool :=
  let '(m, d) := DT.month_day leap (Z.of_nat k) in
  (1 <=? m) && (m <=? 12) && (1 <=? d) && (d <=? 31).

Definition two_digits (s : string) : bool :=
  match s with
  | String a (String b EmptyString) => is_digit a && is_digit b
  | _ => false
  end.

Definition four_digits (s : string) : bool :=
  match s with
  | String a (String b (String c (String d EmptyString))) =>
    is_digit a && is_digit b && is_digit c && is_digit d
  | _ => false
  end.

(** A float that is not negative: its sign bit is clear, or it is no
    number. *)
Definition not_negative (x : spec_float) : Prop :=
  match x with
  | S754_finite true _ _ => False
  | _ => True
  end.

(** ** Further parts of the program *)

(** *** The discovery of the stores of the Chromium family *)

Module Discovery.

(** What the discovery consults: the expansions of the environment and the
    file system. *)
Record filesystem := {
  (** [os.path.expanduser] *)
  expanduser : str -> str;
  (** [os.path.expandvars] *)
  expandvars : str -> str;
  (** [os.path.join(path, *paths)] *)
  path_join : str -> list str -> str;
  (** [os.path.exists] *)
  path_exists : str -> bool
}.

Definition get_browser_base_paths (sys : system) (fs : filesystem) : list str :=
  match sys with
  | Darwin => [expanduser fs "~/Library/Application Support"]
  | Windows => [expandvars fs "%LOCALAPPDATA%"; expandvars fs "%APPDATA%"]
  | Linux =>
    [expanduser fs "~/.config"; expanduser fs "~/.var/app";
     expanduser fs "~/snap"]
  | OtherSystem => []
  end.

(** The table of the known browsers, in the order of the dictionary: the
    directory of a browser under a base path, and its name *)
Definition KNOWN_CHROMIUM_BROWSERS : list (str * str) :=
  [ ("Google/Chrome", "Chrome"); ("Google/Chrome Beta", "Chrome Beta");
    ("Google/Chrome Canary", "Chrome Canary");
    ("BraveSoftware/Brave-Browser", "Brave");
    ("BraveSoftware/Brave-Browser-Beta", "Brave Beta");
    ("Microsoft Edge", "Edge"); ("Microsoft Edge Beta", "Edge Beta");
    ("Arc/User Data", "Arc"); ("com.operasoftware.Opera", "Opera");
    ("Opera Software/Opera Stable", "Opera");
    ("Opera Software/Opera GX Stable", "Opera GX"); ("Vivaldi", "Vivaldi");
    ("Chromium", "Chromium"); ("Coccoc/Browser", "Coccoc");
    ("Yandex/YandexBrowser", "Yandex"); ("Sidekick", "Sidekick");
    ("Comet", "Comet"); ("Orion", "Orion"); ("Wavebox", "Wavebox");
    ("Google\Chrome", "Chrome"); ("BraveSoftware\Brave-Browser", "Brave");
    ("Microsoft\Edge", "Edge");
    ("google-chrome", "Chrome"); ("brave-browser", "Brave");
    ("microsoft-edge", "Edge"); ("chromium", "Chromium") ].

Definition cookie_subpaths : list str :=
  ["Default/Cookies"; "Default/Network/Cookies"; "Cookies"].

(** The loop over the cookie subpaths, which the first file that exists
    ends *)
Fixpoint first_cookie_path (fs : filesystem) (base_path browser_subpath : str)
                           (subpaths : list str) : option str :=
  match subpaths with
  | [] => None
  | cookie_subpath :: rest =>
    let cookie_path := path_join fs base_path [browser_subpath; cookie_subpath] in
    if path_exists fs cookie_path then Some cookie_path
    else first_cookie_path fs base_path browser_subpath rest
  end.

(** The loop over the known browsers, under one base path *)
Definition discover_under (fs : filesystem) (base_path : str)
  : list browser_info :=
  flat_map
    (fun '(browser_subpath, browser_name) =>
       match first_cookie_path fs base_path browser_subpath cookie_subpaths with
       | Some cookie_path =>
         [ {| browser_name := browser_name;
              cookie_path := cookie_path;
              base_path := path_join fs base_path [browser_subpath] |} ]
       | None => []
       end)
    KNOWN_CHROMIUM_BROWSERS.

Definition discover_chromium_browsers (sys : system) (fs : filesystem)
  : list browser_info :=
  flat_map
    (fun base_path =>
       if path_exists fs base_path then discover_under fs base_path else [])
    (get_browser_base_paths sys fs).

End Discovery.

(** *** The body of the loop over the profiles of [export_firefox_cookies] *)

Definition firefox_profile_cookies (w : world)
                                   (profile : option (list firefox_row))
  : list cookie :=
  match profile with
  | None => []
  | Some rows => collect_until_raise (firefox_cookie w) rows
  end.

(** *** The file that [main] writes

    [csv.writer] with the dialect [excel]: fields joined by commas, a field
    that holds a comma, a quote, a carriage return or a line feed put
    between quotes with its quotes doubled, rows ended by a carriage return
    and a line feed. *)

Module Csv.

Definition quotechar : ascii := "034"%char.
Definition CR : ascii := "013"%char.
Definition LF : ascii := "010"%char.

Definition special (c : ascii) : bool :=
  Ascii.eqb c "," || Ascii.eqb c quotechar || Ascii.eqb c CR || Ascii.eqb c LF.

Fixpoint needs_quotes (s : string) : bool :=
  match s with
  | EmptyString => false
  | String c t => special c || needs_quotes t
  end.

Fixpoint double_quotes (s : string) : string :=
  match s with
  | EmptyString => EmptyString
  | String c t =>
    if Ascii.eqb c quotechar
    then String quotechar (String quotechar (double_quotes t))
    else String c (double_quotes t)
  end.

Definition field (s : str) : str :=
  if needs_quotes s
  then String quotechar (double_quotes s ++ String quotechar EmptyString)
  else s.

Fixpoint join (fields : list str) : str :=
  match fields with
  | [] => EmptyString
  | [f] => f
  | f :: rest => (f ++ "," ++ join rest)%string
  end.

Definition lineterminator : str := String CR (String LF EmptyString).

(** [writer.writerow(fields)], the fields already strings: a row of one
    empty field is written as two quotes. *)
Definition writerow (fields : list str) : str :=
  let line := join (map field fields) in
  ((if (length fields =? 1)%nat && String.eqb line ""
    then String quotechar (String quotechar EmptyString)
    else line) ++ lineterminator)%string.

End Csv.

(** [str(b)] and [str(n)] *)
Definition str_of_bool (b : bool) : str := if b then "True" else "False".

Definition str_of_int (n : Z) : str :=
  if n <? 0 then ("-" ++ DT.decimal (- n))%string else DT.decimal n.

Definition fieldnames : list str :=
  [ "browser"; "domain"; "name"; "value"; "path"; "expires"; "secure";
    "httponly"; "samesite" ].

(** The values of a record in the order of [fieldnames], as the writer
    turns them into strings: [None] is the empty string. *)
Definition cookie_values (c : cookie) : list str :=
  [ browser c; domain c; name c; value c; path c; expires c;
    str_of_bool (secure c); str_of_bool (httponly c);
    match samesite c with Some n => str_of_int n | None => "" end ].

(** [writer.writeheader()] and [writer.writerows(all_cookies)] *)
Definition csv_file (cookies : list cookie) : str :=
  (Csv.writerow fieldnames
   ++ String.concat "" (map (fun c => Csv.writerow (cookie_values c)) cookies)
  )%string.

(** [main]: the text of the output file, when it is written *)
Definition main (w : world) : option str :=
  let all_cookies := all_cookies w in
  if is_empty all_cookies then None else Some (csv_file all_cookies).

(** ** Further words for the statements *)

(** The big-endian word at a byte position of the container's header *)
Definition u32be_at (d : bytes) (pos : nat) : Z :=
  le_value (rev (map b2z (firstn 4 (skipn pos d)))).

(** A reader of comma-separated values after RFC 4180: a field starts
    unquoted or, with a quote, quoted; in a quoted field two quotes are one
    quote and one quote ends the field; a comma ends a field, and a carriage
    return and a line feed end a row. *)
Inductive reader_state := AtStart | InField | InQuotes | AfterQuote | AfterCR.

Record reader := {
  state : reader_state;
  pending : string;
  row : list string;
  rows : list (list string)
}.

Definition push (s : string) (c : ascii) : string :=
  (s ++ String c EmptyString)%string.

Definition end_field (r : reader) (c : ascii) : reader :=
  {| state := if Ascii.eqb c "," then AtStart else AfterCR;
     pending := "";
     row := row r ++ [pending r];
     rows := rows r |}.

Definition read_char (r : reader) (c : ascii) : reader :=
  let more st :=
    {| state := st; pending := push (pending r) c; row := row r;
       rows := rows r |} in
  let separator := Ascii.eqb c "," || Ascii.eqb c Csv.CR in
  match state r with
  | AtStart =>
    if Ascii.eqb c Csv.quotechar
    then {| state := InQuotes; pending := ""; row := row r; rows := rows r |}
    else if separator then end_field r c else more InField
  | InField => if separator then end_field r c else more InField
  | InQuotes =>
    if Ascii.eqb c Csv.quotechar
    then {| state := AfterQuote; pending := pending r; row := row r;
            rows := rows r |}
    else more InQuotes
  | AfterQuote =>
    if Ascii.eqb c Csv.quotechar then more InQuotes
    else if separator then end_field r c else more InField
  | AfterCR =>
    if Ascii.eqb c Csv.LF
    then {| state := AtStart; pending := ""; row := [];
            rows := rows r ++ [row r] |}
    else more InField
  end.

Fixpoint read_from (r : reader) (s : string) : reader :=
  match s with
  | EmptyString => r
  | String c t => read_from (read_char r c) t
  end.

(** The rows of a text *)
Definition read_csv (s : string) : list (list string) :=
  rows (read_from {| state := AtStart; pending := ""; row := []; rows := [] |} s).

(** After a written field the reader holds the field, in a state that a
    comma or a carriage return ends in the same way. *)
Definition holds (r : reader) (f : string) (rw : list string)
                 (rws : list (list string)) : Prop :=
  pending r = f /\ row r = rw /\ rows r = rws
  /\ (state r = InField \/ state r = AfterQuote
      \/ (state r = AtStart /\ f = "")).

(** The whole number that a float holds, when it holds one *)
Definition whole_number (x : spec_float) : option Z :=
  match x with
  | S754_zero _ => Some 0
  | S754_finite s m e =>
    if 0 <=? e then Some (Float.signed s (Zpos m * 2 ^ e))
    else if Zpos m mod 2 ^ (- e) =? 0
         then Some (Float.signed s (Zpos m / 2 ^ (- e)))
         else None
  | _ => None
  end.

(** An item of the secret service whose label can be read and does not hold
    the browser's name *)
Definition other_label (w : world) (b : browser_info) (item : secret_item)
  : Prop :=
  exists label,
    get_label item = Ok label
    /\ contains (lower w (browser_name b)) (lower w label) = false.

(** A blob that carries neither marker *)
Definition unmarked (blob : bytes) : Prop :=
  firstn 3 blob <> v10 /\ firstn 3 blob <> v11.

(** ** Further inputs of the examples *)

Definition u32be (v : Z) : bytes := map z2b (be_bytes 4 v).

(** A page that announces three records and ends after the count *)
Definition page_truncated : bytes := page_magic ++ u32le 3.

(** A page with another magic *)
Definition page_other_magic : bytes := fromhex "000002000000000100000010".

(** A file of the paged container: its magic, the number of its pages,
    their sizes, the pages, and what follows them *)
Definition make_file (pages : list bytes) (tail : bytes) : bytes :=
  encode "cook" ++ u32be (len pages) ++ concat (map (fun p => u32be (len p)) pages)
    ++ concat pages ++ tail.

(** [page_two], a page with another magic, a truncated page, and [page_two]
    again *)
Definition file_four_pages : bytes :=
  make_file [page_two; page_other_magic; page_truncated; page_two]
            (fromhex "0000000000000000").

(** Rows of [moz_cookies]: one that expires on 2026-01-01, one whose expiry
    is that time in milliseconds, one of a session *)
Definition mozilla_row_dated : firefox_row :=
  {| moz_host := ".example.com";
     moz_name := "theme";
     moz_value := "dark";
     moz_path := "/";
     moz_expiry := Some 1767225600;
     moz_isSecure := 0;
     moz_isHttpOnly := 0;
     moz_sameSite := Some 0 |}.

Definition mozilla_row_milliseconds : firefox_row :=
  {| moz_host := ".example.com";
     moz_name := "lang";
     moz_value := "en";
     moz_path := "/";
     moz_expiry := Some 1767225600000;
     moz_isSecure := 0;
     moz_isHttpOnly := 0;
     moz_sameSite := Some 0 |}.

(** A Linux machine with two Firefox profiles: the second row of the first
    profile has its expiry in milliseconds. *)
Definition two_profile_world : world :=
  {| SYSTEM := Linux;
     pads_year := false;
     utcoffset := fun _ => 0;
     lower := string_map ascii_lower;
     get_keychain_password := fun _ _ => None;
     secret_items := Raise OSError;
     get_windows_key := fun _ => None;
     CryptUnprotectData := fun _ => Raise OSError;
     discover_chromium_browsers := [];
     chromium_rows := fun _ => None;
     safari_file := Raise OSError;
     firefox_profiles :=
       [ Some [mozilla_row_dated; mozilla_row_milliseconds; mozilla_row];
         Some [mozilla_row] ] |}.

(** A row of a Chromium store whose value is a [v10] envelope of one byte,
    which cannot be decrypted, and whose expiry is absent *)
Definition chrome_row_corrupt : chromium_row :=
  {| host_key := encode ".example.com";
     row_name := encode "broken";
     encrypted_value := Some (fromhex "76313000");
     row_path := encode "/";
     expires_utc := None;
     is_secure := 0;
     is_httponly := 1;
     row_samesite := None |}.

(** A Linux machine whose Chrome store holds that row and then
    [chrome_row] *)
Definition corrupt_row_world : world :=
  {| SYSTEM := Linux;
     pads_year := false;
     utcoffset := fun _ => 0;
     lower := string_map ascii_lower;
     get_keychain_password := fun _ _ => None;
     secret_items := Raise OSError;
     get_windows_key := fun _ => None;
     CryptUnprotectData := fun _ => Raise OSError;
     discover_chromium_browsers := [chrome_info];
     chromium_rows := fun _ => Some [chrome_row_corrupt; chrome_row];
     safari_file := Raise OSError;
     firefox_profiles := [] |}.

(** A Linux machine whose secret service holds an item of another
    application, then Chrome's, then a second item that names Chrome *)
Definition keyring_world : world :=
  {| SYSTEM := Linux;
     pads_year := false;
     utcoffset := fun _ => 0;
     lower := string_map ascii_lower;
     get_keychain_password := fun _ _ => None;
     secret_items :=
       Ok [ {| get_label := Ok "Mail account";
               get_secret := Ok (encode "hunter2") |};
            {| get_label := Ok "Chrome Safe Storage";
               get_secret := Ok (encode "s3cret") |};
            {| get_label := Ok "Google Chrome backup";
               get_secret := Ok (encode "other") |} ];
     get_windows_key := fun _ => None;
     CryptUnprotectData := fun _ => Raise OSError;
     discover_chromium_browsers := [chrome_info];
     chromium_rows := fun _ => None;
     safari_file := Raise OSError;
     firefox_profiles := [] |}.

(** A file system for the discovery: the home directory is [/home/u],
    paths are joined with a slash, and there are the configuration
    directory, the store of Chrome at both of its places, and the store
    of Chromium at the third place. *)
Definition expand_home (p : str) : str :=
  match p with
  | String "~" rest => ("/home/u" ++ rest)%string
  | _ => p
  end.

Fixpoint join_slash (path : str) (paths : list str) : str :=
  match paths with
  | [] => path
  | p :: rest => join_slash (path ++ "/" ++ p)%string rest
  end.

Definition linux_fs : Discovery.filesystem :=
  {| Discovery.expanduser := expand_home;
     Discovery.expandvars := fun p => p;
     Discovery.path_join := join_slash;
     Discovery.path_exists :=
       fun p =>
         existsb (String.eqb p)
           [ "/home/u/.config";
             "/home/u/.config/google-chrome/Default/Cookies";
             "/home/u/.config/google-chrome/Default/Network/Cookies";
             "/home/u/.config/chromium/Cookies" ] |}.

Definition chromium_info : browser_info :=
  {| browser_name := "Chromium";
     cookie_path := "/home/u/.config/chromium/Cookies";
     base_path := "/home/u/.config/chromium" |}.

(** ** The calendar, for the statements on converted times *)

(** The number of days of a month *)
Definition days_in_month (year month : Z) : Z :=
  nth (Z.to_nat month) DT.DAYS_IN_MONTH 0
  + DT.b2i ((month =? 2) && DT.is_leap year).

(** A date of the proleptic Gregorian calendar, of the years 1 to 9999 *)
Definition valid_date (year month day : Z) : Prop :=
  1 <= year <= 9999 /\ 1 <= month <= 12
  /\ 1 <= day <= days_in_month year month.

(** A time of the day, and the seconds since midnight *)
Definition valid_time (hour minute second : Z) : Prop :=
  0 <= hour < 24 /\ 0 <= minute < 60 /\ 0 <= second < 60.

Definition seconds_of_day (hour minute second : Z) : Z :=
  (hour * 60 + minute) * 60 + second.

(** A date and a time as [%Y-%m-%d %H:%M:%S] shows them *)
Definition show_time (pads : bool) (year month day hour minute second : Z)
  : str :=
  (DT.format_year pads year ++ "-" ++ DT.zero_padded 2 month ++ "-"
   ++ DT.zero_padded 2 day ++ " " ++ DT.zero_padded 2 hour ++ ":"
   ++ DT.zero_padded 2 minute ++ ":" ++ DT.zero_padded 2 second)%string.

(** Whether [month_day] finds the month and the day of a day of the year *)
Definition month_day_inverse_ok (leap : bool) (md : nat) : bool :=
  let m := Z.of_nat (md / 31 + 1) in
  let d := Z.of_nat (md mod 31 + 1) in
  let in_month :=
    d <=? nth (Z.to_nat m) DT.DAYS_IN_MONTH 0 + DT.b2i ((m =? 2) && leap) in
  let n :=
    nth (Z.to_nat m) DT.DAYS_BEFORE_MONTH 0 + DT.b2i ((2 <? m) && leap)
    + d - 1 in
  negb in_month
  || (let '(m', d') := DT.month_day leap n in (m' =? m) && (d' =? d))
     && (n <=? 364 + DT.b2i leap).

(** ** Predicates on the states of the cipher, for the proofs *)

(** The value of a byte *)
Definition byte_ok (z : Z) : Prop := 0 <= z < 256.

(** A list of [n] values of bytes: a word of the key schedule for [n = 4],
    a state or a round key for [n = 16] *)
Definition block_ok (n : nat) (l : list Z) : Prop :=
  length l = n /\ Forall byte_ok l.

Definition byte_okb (z : Z) : bool := (0 <=? z) && (z <? 256).

(** Whether the products of the rows of the inverse matrix of the columns
    with the columns of the matrix, at the byte [a], are those of the
    identity *)
Definition mix_coefficients_ok (a : Z) : bool :=
  (Z.lxor (Z.lxor (AES.gmul 14 (AES.gmul 2 a)) (AES.gmul 11 a)) (Z.lxor (AES.gmul 13 a) (AES.gmul 9 (AES.gmul 3 a))) =? a)
  && (Z.lxor (Z.lxor (AES.gmul 14 (AES.gmul 3 a)) (AES.gmul 11 (AES.gmul 2 a))) (Z.lxor (AES.gmul 13 a) (AES.gmul 9 a)) =? 0)
  && (Z.lxor (Z.lxor (AES.gmul 14 a) (AES.gmul 11 (AES.gmul 3 a))) (Z.lxor (AES.gmul 13 (AES.gmul 2 a)) (AES.gmul 9 a)) =? 0)
  && (Z.lxor (Z.lxor (AES.gmul 14 a) (AES.gmul 11 a)) (Z.lxor (AES.gmul 13 (AES.gmul 3 a)) (AES.gmul 9 (AES.gmul 2 a))) =? 0)
  && (Z.lxor (Z.lxor (AES.gmul 9 (AES.gmul 2 a)) (AES.gmul 14 a)) (Z.lxor (AES.gmul 11 a) (AES.gmul 13 (AES.gmul 3 a))) =? 0)
  && (Z.lxor (Z.lxor (AES.gmul 9 (AES.gmul 3 a)) (AES.gmul 14 (AES.gmul 2 a))) (Z.lxor (AES.gmul 11 a) (AES.gmul 13 a)) =? a)
  && (Z.lxor (Z.lxor (AES.gmul 9 a) (AES.gmul 14 (AES.gmul 3 a))) (Z.lxor (AES.gmul 11 (AES.gmul 2 a)) (AES.gmul 13 a)) =? 0)
  && (Z.lxor (Z.lxor (AES.gmul 9 a) (AES.gmul 14 a)) (Z.lxor (AES.gmul 11 (AES.gmul 3 a)) (AES.gmul 13 (AES.gmul 2 a))) =? 0)
  && (Z.lxor (Z.lxor (AES.gmul 13 (AES.gmul 2 a)) (AES.gmul 9 a)) (Z.lxor (AES.gmul 14 a) (AES.gmul 11 (AES.gmul 3 a))) =? 0)
  && (Z.lxor (Z.lxor (AES.gmul 13 (AES.gmul 3 a)) (AES.gmul 9 (AES.gmul 2 a))) (Z.lxor (AES.gmul 14 a) (AES.gmul 11 a)) =? 0)
  && (Z.lxor (Z.lxor (AES.gmul 13 a) (AES.gmul 9 (AES.gmul 3 a))) (Z.lxor (AES.gmul 14 (AES.gmul 2 a)) (AES.gmul 11 a)) =? a)
  && (Z.lxor (Z.lxor (AES.gmul 13 a) (AES.gmul 9 a)) (Z.lxor (AES.gmul 14 (AES.gmul 3 a)) (AES.gmul 11 (AES.gmul 2 a))) =? 0)
  && (Z.lxor (Z.lxor (AES.gmul 11 (AES.gmul 2 a)) (AES.gmul 13 a)) (Z.lxor (AES.gmul 9 a) (AES.gmul 14 (AES.gmul 3 a))) =? 0)
  && (Z.lxor (Z.lxor (AES.gmul 11 (AES.gmul 3 a)) (AES.gmul 13 (AES.gmul 2 a))) (Z.lxor (AES.gmul 9 a) (AES.gmul 14 a)) =? 0)
  && (Z.lxor (Z.lxor (AES.gmul 11 a) (AES.gmul 13 (AES.gmul 3 a))) (Z.lxor (AES.gmul 9 (AES.gmul 2 a)) (AES.gmul 14 a)) =? 0)
  && (Z.lxor (Z.lxor (AES.gmul 11 a) (AES.gmul 13 a)) (Z.lxor (AES.gmul 9 (AES.gmul 3 a)) (AES.gmul 14 (AES.gmul 2 a))) =? a).

(** ** The envelopes as the browsers build them

    The program only opens envelopes. For the statements that a value put
    into an envelope comes out of the decoder, the building of the
    envelopes is written here after the formats: for [v10], AES-CBC under
    the initialization vector of 16 spaces of a prefix of 32 bytes and the
    value, padded after PKCS#7; for [v11], AES-GCM of the value, the nonce
    before the ciphertext and the tag after it. *)

Module Envelope.

(** CBC encryption of [n] whole blocks *)
Fixpoint cbc_blocks (n : nat) (rks : list (list Z)) (prev p : list Z)
  : list Z :=
  match n with
  | O => []
  | S n' =>
    let block := AES.cipher rks (AES.xor_list (firstn 16 p) prev) in
    block ++ cbc_blocks n' rks block (skipn 16 p)
  end.

(** [AES.new(key, AES.MODE_CBC, iv).encrypt(data)], for data that is a
    whole number of blocks *)
Definition cbc_encrypt (key iv data : bytes) : bytes :=
  map z2b (cbc_blocks (length data / 16) (AES.key_schedule (map b2z key))
                      (map b2z iv) (map b2z data)).

(** The padding of PKCS#7 for blocks of 16 bytes: between 1 and 16 bytes,
    each of them the number of bytes added *)
Definition pad_length (data : bytes) : nat := (16 - length data mod 16)%nat.

Definition pkcs7 (data : bytes) : bytes :=
  data ++ repeat (z2b (Z.of_nat (pad_length data))) (pad_length data).

Definition v10_envelope (key prefix text : bytes) : bytes :=
  v10 ++ cbc_encrypt key spaces_iv (pkcs7 (prefix ++ text)).

Definition v11_envelope (key nonce text : bytes) : bytes :=
  let '(c, tag) := GCM.encrypt_and_digest key nonce text in
  v11 ++ nonce ++ c ++ tag.

End Envelope.

(** * Properties *)

Unset Implicit Arguments.

(** ** Slices, indices and searches *)

Section Slices.

Context {A : Type}.
Implicit Types l : list A.

Lemma slice_from l (n : nat) : slice l (Some (Z.of_nat n)) None = skipn n l.
Proof.
  unfold slice, slice_bound, len.
  destruct (Z.ltb_spec (Z.of_nat n) 0) as [H | _]; [lia |].
  destruct (Nat.le_gt_cases n (length l)) as [Hle | Hgt].
  - rewrite Z.min_l by lia. rewrite Nat2Z.id.
    apply firstn_all2. rewrite length_skipn. lia.
  - rewrite Z.min_r by lia. rewrite Nat2Z.id, skipn_all.
    rewrite (skipn_all2 l) by lia. apply firstn_nil.
Qed.

Lemma slice_to l (n : nat) : slice l None (Some (Z.of_nat n)) = firstn n l.
Proof.
  unfold slice, slice_bound, len.
  destruct (Z.ltb_spec (Z.of_nat n) 0) as [H | _]; [lia |].
  rewrite Z.sub_0_r. cbn [Z.to_nat skipn].
  destruct (Nat.le_gt_cases n (length l)) as [Hle | Hgt].
  - rewrite Z.min_l by lia. now rewrite Nat2Z.id.
  - rewrite Z.min_r by lia. rewrite Nat2Z.id.
    rewrite firstn_all. symmetry. apply firstn_all2. lia.
Qed.

Lemma slice_range l (a b : nat) :
  (a <= b)%nat ->
  slice l (Some (Z.of_nat a)) (Some (Z.of_nat b)) = firstn (b - a) (skipn a l).
Proof.
  intros Hab. unfold slice, slice_bound, len.
  destruct (Z.ltb_spec (Z.of_nat a) 0) as [H | _]; [lia |].
  destruct (Z.ltb_spec (Z.of_nat b) 0) as [H | _]; [lia |].
  destruct (Nat.le_gt_cases a (length l)) as [Ha | Ha].
  - rewrite (Z.min_l (Z.of_nat a)) by lia. rewrite Nat2Z.id.
    destruct (Nat.le_gt_cases b (length l)) as [Hb | Hb].
    + rewrite Z.min_l by lia. f_equal. lia.
    + rewrite Z.min_r by lia.
      rewrite !firstn_all2; trivial; rewrite length_skipn; lia.
  - rewrite (Z.min_r (Z.of_nat a)) by lia. rewrite Nat2Z.id, skipn_all.
    rewrite (skipn_all2 l) by lia. now rewrite !firstn_nil.
Qed.

(** [l[:-n]] for [n > 0] drops the last [n] elements. *)
Lemma slice_drop_last l (n : nat) :
  (0 < n)%nat ->
  slice l None (Some (- Z.of_nat n)) = firstn (length l - n) l.
Proof.
  intros Hn. unfold slice, slice_bound, len.
  destruct (Z.ltb_spec (- Z.of_nat n) 0) as [_ | H]; [| lia].
  rewrite Z.sub_0_r. cbn [Z.to_nat skipn]. f_equal. lia.
Qed.

(** [l[:-0]] is [l[:0]]: empty. *)
Lemma slice_minus_zero l : slice l None (Some (- 0)) = [].
Proof. change (- 0) with (Z.of_nat 0). now rewrite slice_to. Qed.

(** [l[-n:]] for [n > 0] is the last [n] elements. *)
Lemma slice_last l (n : nat) :
  (0 < n)%nat ->
  slice l (Some (- Z.of_nat n)) None = skipn (length l - n) l.
Proof.
  intros Hn. unfold slice, slice_bound, len.
  destruct (Z.ltb_spec (- Z.of_nat n) 0) as [_ | H]; [| lia].
  replace (Z.to_nat (Z.max 0 (- Z.of_nat n + Z.of_nat (length l))))
    with (length l - n)%nat by lia.
  apply firstn_all2. rewrite length_skipn. lia.
Qed.

Lemma skipn_firstn_sub l (a m : nat) :
  skipn a (firstn m l) = firstn (m - a) (skipn a l).
Proof.
  revert a m. induction l as [| x l IH]; intros a m.
  - now rewrite firstn_nil, !skipn_nil, firstn_nil.
  - destruct a as [| a], m as [| m]; cbn; trivial.
Qed.

(** [l[a:-n]] for [n > 0] *)
Lemma slice_between l (a n : nat) :
  (0 < n)%nat ->
  slice l (Some (Z.of_nat a)) (Some (- Z.of_nat n))
  = skipn a (firstn (length l - n) l).
Proof.
  intros Hn. rewrite skipn_firstn_sub.
  unfold slice, slice_bound, len.
  destruct (Z.ltb_spec (- Z.of_nat n) 0) as [_ | H]; [| lia].
  destruct (Z.ltb_spec (Z.of_nat a) 0) as [H | _]; [lia |].
  destruct (Nat.le_gt_cases a (length l)) as [Ha | Ha].
  - rewrite Z.min_l by lia. rewrite Nat2Z.id. f_equal. lia.
  - rewrite Z.min_r by lia. rewrite Nat2Z.id, skipn_all.
    rewrite (skipn_all2 l) by lia. now rewrite !firstn_nil.
Qed.

Lemma last_opt_app l x : last_opt (l ++ [x]) = Some x.
Proof. unfold last_opt. now rewrite rev_app_distr. Qed.

Lemma last_opt_cases l :
  (l = [] /\ last_opt l = None)
  \/ exists l' x, l = l' ++ [x] /\ last_opt l = Some x.
Proof.
  destruct l as [| y l] using rev_ind; [now left | right].
  exists l, y. split; trivial. apply last_opt_app.
Qed.

(** [l[-1]] is the last element; an empty [l] has none. *)
Lemma index_minus_one l :
  index l (-1) = match last_opt l with
                 | Some x => Ok x
                 | None => Raise IndexError
                 end.
Proof.
  destruct (last_opt_cases l) as [[-> ->] | (l' & x & -> & ->)]; trivial.
  unfold index, len. rewrite length_app. cbn [length].
  destruct (Z.ltb_spec (-1) 0) as [_ | H]; [| lia].
  destruct (Z.ltb_spec (-1 + Z.of_nat (length l' + 1)) 0) as [H | _]; [lia |].
  destruct (Z.leb_spec (Z.of_nat (length l' + 1))
                       (-1 + Z.of_nat (length l' + 1))) as [H | _]; [lia |].
  cbn [orb].
  replace (Z.to_nat (-1 + Z.of_nat (length l' + 1))) with (length l') by lia.
  rewrite nth_error_app2 by lia. now rewrite Nat.sub_diag.
Qed.

End Slices.

Lemma Ok_inj {A} (a b : A) : Ok a = Ok b -> a = b.
Proof. now intros [=]. Qed.

Lemma Some_inj {A} (a b : A) : Some a = Some b -> a = b.
Proof. now intros [=]. Qed.

Lemma bytes_eqb_eq (a b : bytes) : bytes_eqb a b = true <-> a = b.
Proof.
  unfold bytes_eqb. destruct (list_eq_dec Byte.byte_eq_dec a b);
    intuition congruence.
Qed.

Lemma bytes_eqb_neq (a b : bytes) : bytes_eqb a b = false <-> a <> b.
Proof.
  unfold bytes_eqb. destruct (list_eq_dec Byte.byte_eq_dec a b);
    intuition congruence.
Qed.

Lemma b2z_range (b : byte) : 0 <= b2z b < 256.
Proof.
  unfold b2z. pose proof (Byte.to_N_bounded b) as H.
  split; [apply N2Z.is_nonneg | lia].
Qed.

Lemma b2z_zero (b : byte) : b2z b = 0 -> b = x00.
Proof.
  unfold b2z. intros H. pose proof (Byte.of_to_N b) as E.
  replace (Byte.to_N b) with 0%N in E by lia. cbn in E. congruence.
Qed.

(** ** The cipher envelope decoder *)

Lemma v10_is_not_v11 : bytes_eqb v11 v10 = false.
Proof. reflexivity. Qed.

Lemma prefix_not_empty (blob marker : bytes) :
  firstn 3 blob = marker -> marker <> [] -> is_empty blob = false.
Proof. destruct blob; cbn; congruence. Qed.

(** The [v10] branch, once the ciphertext has been decrypted to [p] *)
Lemma decrypt_body_v10 w blob key p :
  firstn 3 blob = v10 ->
  AES.cbc_decrypt key spaces_iv (skipn 3 blob) = Ok p ->
  decrypt_body w blob key
  = (padding_len <- index p (-1) ;;
     let p' := if b2z padding_len <? 16
               then slice p None (Some (- b2z padding_len)) else p in
     Ok (decode_replace
           (if 32 <? len p' then slice p' (Some 32) None else p'))).
Proof.
  intros Hv Hp. unfold decrypt_body.
  change (Some 3) with (Some (Z.of_nat 3)). rewrite slice_to, slice_from, Hv.
  change (bytes_eqb v10 v10) with true. cbv iota.
  fold spaces_iv. now rewrite Hp.
Qed.

Lemma cbc_decrypt_key_not_empty key iv data p :
  AES.cbc_decrypt key iv data = Ok p -> is_empty key = false.
Proof. destruct key; [discriminate | reflexivity]. Qed.

(** What the program's padding step does for a last byte that is not 0 *)
Lemma strip_padding_slice (p : bytes) (b : byte) :
  last_opt p = Some b -> b <> x00 ->
  (if b2z b <? 16 then slice p None (Some (- b2z b)) else p) = strip_padding p.
Proof.
  intros Hl Hb. unfold strip_padding. rewrite Hl.
  destruct (b2z b <? 16); trivial.
  pose proof (b2z_range b) as Hr.
  assert (b2z b <> 0) by (intros E; now apply Hb, b2z_zero).
  replace (b2z b) with (Z.of_nat (Z.to_nat (b2z b))) at 1 by lia.
  apply slice_drop_last. lia.
Qed.

Lemma drop_prefix_slice (p : bytes) :
  (if 32 <? len p then slice p (Some 32) None else p) = drop_prefix p.
Proof.
  unfold drop_prefix, len.
  destruct (Z.ltb_spec 32 (Z.of_nat (length p))) as [H | H];
    destruct (Nat.ltb_spec 32 (length p)) as [H' | H']; try lia; trivial.
  change 32 with (Z.of_nat 32). apply slice_from.
Qed.

Lemma cbc_decrypt_aligned key iv data :
  length key = 16%nat -> length iv = 16%nat ->
  (length data mod 16 = 0)%nat ->
  exists p, AES.cbc_decrypt key iv data = Ok p.
Proof.
  intros Hk Hi Hd. unfold AES.cbc_decrypt. rewrite Hk, Hi, Hd. cbn.
  eexists. reflexivity.
Qed.

Lemma cbc_decrypt_misaligned key iv data :
  (length data mod 16 <> 0)%nat -> AES.cbc_decrypt key iv data = Raise ValueError.
Proof.
  intros Hd. unfold AES.cbc_decrypt.
  destruct (negb (AES.valid_key_length (length key))); trivial.
  destruct (negb (length iv =? 16)%nat); trivial.
  apply Nat.eqb_neq in Hd. now rewrite Hd.
Qed.

Lemma decrypt_body_v10_raise w blob key e :
  firstn 3 blob = v10 ->
  AES.cbc_decrypt key spaces_iv (skipn 3 blob) = Raise e ->
  decrypt_body w blob key = Raise e.
Proof.
  intros Hv He. unfold decrypt_body.
  change (Some 3) with (Some (Z.of_nat 3)). rewrite slice_to, slice_from, Hv.
  change (bytes_eqb v10 v10) with true. cbv iota.
  fold spaces_iv. now rewrite He.
Qed.

(** C1, amended. For every blob that starts with [v10] and every key of 16
    bytes: bytes[3:] is decrypted with AES-CBC under the initialization
    vector of 16 spaces whenever it is a whole number of blocks, and the
    decoder returns the empty string when it is not; when the last decrypted
    byte is not 0, the decoder returns the plaintext stripped of as many
    trailing bytes as its last byte says if and only if that byte is below
    16, without its first 32 bytes if and only if more than 32 remain,
    decoded as UTF-8 with replacement. *)
Theorem v10_decoding (w : world) (blob key : bytes) :
  firstn 3 blob = v10 -> length key = 16%nat ->
  ((length (skipn 3 blob) mod 16 = 0)%nat ->
     exists p, AES.cbc_decrypt key spaces_iv (skipn 3 blob) = Ok p)
  /\ ((length (skipn 3 blob) mod 16 <> 0)%nat ->
        decrypt_cookie_value w blob key = Ok "")
  /\ (forall p, AES.cbc_decrypt key spaces_iv (skipn 3 blob) = Ok p ->
        last_opt p <> Some x00 ->
        decrypt_cookie_value w blob key = Ok (v10_text p)).
Proof.
  intros Hv Hk.
  assert (Hb : is_empty blob = false)
    by (apply (prefix_not_empty blob v10 Hv); discriminate).
  assert (Hke : is_empty key = false) by (destruct key; [discriminate | trivial]).
  split; [| split].
  - intros Ha. now apply cbc_decrypt_aligned.
  - intros Ha. unfold decrypt_cookie_value. rewrite Hb, Hke. cbn [orb].
    rewrite (decrypt_body_v10_raise w blob key _ Hv
               (cbc_decrypt_misaligned key spaces_iv (skipn 3 blob) Ha)).
    reflexivity.
  - intros p Hp Hl. unfold decrypt_cookie_value. rewrite Hb, Hke. cbn [orb].
    rewrite (decrypt_body_v10 w blob key p Hv Hp), index_minus_one.
    destruct (last_opt_cases p) as [[-> E] | (p' & b & -> & E)]; rewrite E.
    + reflexivity.
    + cbn [bind try_except].
      rewrite strip_padding_slice; trivial.
      * now rewrite drop_prefix_slice.
      * intros ->. now apply Hl.
Qed.

(** The blob [blob_prefixed] decodes to [sessionid=42]: its padding of four
    bytes and its prefix of 32 bytes are removed. *)
Lemma v10_decoding_witness :
  firstn 3 blob_prefixed = v10 /\ length peanuts_key = 16%nat
  /\ AES.cbc_decrypt peanuts_key spaces_iv (skipn 3 blob_prefixed)
     = Ok plain_prefixed
  /\ last_opt plain_prefixed <> Some x00
  /\ decrypt_cookie_value linux_world blob_prefixed peanuts_key
     = Ok "sessionid=42".
Proof.
  assert (Hv : firstn 3 blob_prefixed = v10) by reflexivity.
  assert (Hk : length peanuts_key = 16%nat) by (vm_compute; reflexivity).
  assert (Hp : AES.cbc_decrypt peanuts_key spaces_iv (skipn 3 blob_prefixed)
               = Ok plain_prefixed) by (vm_compute; reflexivity).
  assert (Hl : last_opt plain_prefixed <> Some x00) by discriminate.
  split; [exact Hv |]. split; [exact Hk |]. split; [exact Hp |].
  split; [exact Hl |].
  destruct (v10_decoding linux_world blob_prefixed peanuts_key Hv Hk)
    as (_ & _ & H).
  rewrite (H plain_prefixed Hp Hl). vm_compute. reflexivity.
Defined.

(** C1 fails as stated: the plaintext of [blob_zero] ends in a byte 0, so
    the stated steps strip nothing and give [token=abc123456] and the byte 0,
    while the decoder returns the empty string. *)
Lemma v10_claim_counterexample :
  ~ v10_claim linux_world blob_zero peanuts_key.
Proof.
  intros H.
  specialize (H ltac:(reflexivity) ltac:(vm_compute; reflexivity) plain_zero
                ltac:(vm_compute; reflexivity)).
  vm_compute in H. discriminate H.
Qed.

(** C10. For every [v10] envelope whose decryption ends in the byte 0, the
    padding step's slice [decrypted[:-0]] is empty, the decoding raises
    nothing, and the decoder returns the empty string. *)
Theorem v10_zero_padding_gives_empty (w : world) (blob key p : bytes) :
  firstn 3 blob = v10 ->
  AES.cbc_decrypt key spaces_iv (skipn 3 blob) = Ok p ->
  last_opt p = Some x00 ->
  slice p None (Some (- b2z x00)) = []
  /\ decrypt_body w blob key = Ok ""
  /\ decrypt_cookie_value w blob key = Ok "".
Proof.
  intros Hv Hp Hl.
  assert (Hbody : decrypt_body w blob key = Ok "").
  { rewrite (decrypt_body_v10 w blob key p Hv Hp), index_minus_one, Hl.
    cbn [bind]. change (b2z x00) with 0. cbv iota.
    change (0 <? 16) with true. cbv iota. now rewrite slice_minus_zero. }
  split; [apply slice_minus_zero | split; trivial].
  unfold decrypt_cookie_value.
  rewrite (prefix_not_empty blob v10 Hv) by discriminate.
  rewrite (cbc_decrypt_key_not_empty _ _ _ _ Hp). cbn [orb].
  now rewrite Hbody.
Qed.

(** The plaintext of [blob_zero] ends in the byte 0, and the decoder
    returns the empty string. *)
Lemma v10_zero_padding_gives_empty_witness :
  firstn 3 blob_zero = v10
  /\ AES.cbc_decrypt peanuts_key spaces_iv (skipn 3 blob_zero) = Ok plain_zero
  /\ last_opt plain_zero = Some x00
  /\ decrypt_body linux_world blob_zero peanuts_key = Ok ""
  /\ decrypt_cookie_value linux_world blob_zero peanuts_key = Ok "".
Proof.
  assert (Hv : firstn 3 blob_zero = v10) by reflexivity.
  assert (Hp : AES.cbc_decrypt peanuts_key spaces_iv (skipn 3 blob_zero)
               = Ok plain_zero) by (vm_compute; reflexivity).
  assert (Hl : last_opt plain_zero = Some x00) by reflexivity.
  split; [exact Hv |]. split; [exact Hp |]. split; [exact Hl |].
  exact (proj2 (v10_zero_padding_gives_empty linux_world blob_zero peanuts_key
                  plain_zero Hv Hp Hl)).
Defined.

(** The [v11] branch in the specification's fields *)
Lemma decrypt_body_v11 w blob key :
  firstn 3 blob = v11 ->
  decrypt_body w blob key
  = (plaintext <- GCM.decrypt_and_verify key (v11_nonce blob)
                    (v11_ciphertext blob) (v11_tag blob) ;;
     Ok (decode_replace plaintext)).
Proof.
  intros Hv. unfold decrypt_body, v11_nonce, v11_ciphertext, v11_tag.
  change (Some 3) with (Some (Z.of_nat 3)).
  change (Some 15) with (Some (Z.of_nat 15)).
  change (Some (-16)) with (Some (- Z.of_nat 16)).
  rewrite slice_to, Hv, v10_is_not_v11.
  change (bytes_eqb v11 v11) with true. cbv iota.
  rewrite slice_range, slice_between, slice_last by lia.
  reflexivity.
Qed.

(** C2. For every blob that starts with [v11] and every key, the decoder
    runs the authenticated AES-GCM decryption with bytes[3:15] as the nonce,
    bytes[15:-16] as the ciphertext and the last 16 bytes as the tag, and
    returns the plaintext, no byte of it removed, decoded as UTF-8 with
    replacement; when that decryption raises, it returns the empty
    string. *)
Theorem v11_decoding (w : world) (blob key : bytes) :
  firstn 3 blob = v11 -> key <> [] ->
  decrypt_cookie_value w blob key
  = match GCM.decrypt_and_verify key (v11_nonce blob) (v11_ciphertext blob)
                                 (v11_tag blob) with
    | Ok plaintext => Ok (decode_replace plaintext)
    | Raise _ => Ok ""
    end.
Proof.
  intros Hv Hk. unfold decrypt_cookie_value.
  rewrite (prefix_not_empty blob v11 Hv) by discriminate.
  destruct key as [| k key]; [now destruct Hk |]. cbn [is_empty orb].
  rewrite (decrypt_body_v11 w blob (k :: key) Hv).
  now destruct (GCM.decrypt_and_verify _ _ _ _).
Qed.

(** The envelope [blob_v11] verifies under [gcm_key] and decodes to
    [sessionid=42]. *)
Lemma v11_decoding_witness :
  firstn 3 blob_v11 = v11 /\ gcm_key <> []
  /\ decrypt_cookie_value linux_world blob_v11 gcm_key = Ok "sessionid=42".
Proof.
  assert (Hv : firstn 3 blob_v11 = v11) by reflexivity.
  assert (Hk : gcm_key <> []) by discriminate.
  split; [exact Hv |]. split; [exact Hk |].
  rewrite (v11_decoding linux_world blob_v11 gcm_key Hv Hk).
  vm_compute. reflexivity.
Defined.

(** The fields of a well-formed [v11] envelope *)
Lemma v11_fields (nonce c tag : bytes) :
  length nonce = 12%nat -> length tag = 16%nat ->
  let blob := v11 ++ nonce ++ c ++ tag in
  firstn 3 blob = v11 /\ v11_nonce blob = nonce
  /\ v11_ciphertext blob = c /\ v11_tag blob = tag.
Proof.
  intros Hn Ht blob. unfold v11_nonce, v11_ciphertext, v11_tag.
  assert (Hlen : length blob = (15 + length c + 16)%nat).
  { unfold blob. rewrite !length_app, Hn, Ht. cbn. lia. }
  assert (H3 : skipn 3 blob = nonce ++ c ++ tag) by reflexivity.
  assert (H15 : skipn 15 blob = c ++ tag).
  { replace 15%nat with (12 + 3)%nat by reflexivity.
    rewrite <- skipn_skipn, H3, <- Hn. now rewrite skipn_app, skipn_all,
      Nat.sub_diag. }
  repeat split.
  - rewrite H3, <- Hn. now rewrite firstn_app, firstn_all, Nat.sub_diag,
      app_nil_r.
  - rewrite skipn_firstn_sub, H15, Hlen.
    replace (15 + length c + 16 - 16 - 15)%nat with (length c) by lia.
    now rewrite firstn_app, firstn_all, Nat.sub_diag, app_nil_r.
  - rewrite Hlen.
    replace (15 + length c + 16 - 16)%nat with (length c + 15)%nat by lia.
    rewrite <- skipn_skipn, H15.
    now rewrite skipn_app, skipn_all, Nat.sub_diag.
Qed.

(** A tag that verifies is the one computed, so no other tag verifies. *)
Lemma gcm_other_tag key nonce c tag tag' p :
  GCM.decrypt_and_verify key nonce c tag = Ok p -> tag' <> tag ->
  GCM.decrypt_and_verify key nonce c tag' = Raise ValueError.
Proof.
  unfold GCM.decrypt_and_verify. intros H Hne.
  destruct (length nonce =? 0)%nat; [discriminate |].
  destruct (negb (AES.valid_key_length (length key))); [discriminate |].
  destruct (16 * 2 ^ 32 <? len c); [discriminate |].
  destruct (bytes_eqb _ tag) eqn:E; [| discriminate].
  apply bytes_eqb_eq in E. rewrite E.
  assert (E' : bytes_eqb tag tag' = false) by (apply bytes_eqb_neq; congruence).
  now rewrite E'.
Qed.

Lemma decrypt_cookie_value_total w blob key :
  exists s, decrypt_cookie_value w blob key = Ok s.
Proof.
  unfold decrypt_cookie_value.
  destruct (is_empty blob || is_empty key); [now exists "" |].
  destruct (decrypt_body w blob key); cbn; eauto.
Qed.

Lemma decrypt_cookie_value_raise w blob key e :
  decrypt_body w blob key = Raise e -> decrypt_cookie_value w blob key = Ok "".
Proof.
  intros H. unfold decrypt_cookie_value. rewrite H.
  now destruct (is_empty blob || is_empty key).
Qed.

(** C3, amended. For every blob and key the decoder returns a string and
    never raises: every exception of the decoding gives the empty string, so
    a [v10] ciphertext that is empty or not a whole number of blocks, a
    [v11] envelope whose authenticated decryption fails, and a well-formed
    [v11] envelope whose tag differs from the valid one, by one bit or more,
    all give the empty string. A padding length of 16 or more is no such
    failure: nothing is raised, and the plaintext is returned with its
    padding in place. *)
Theorem decrypt_cookie_value_failures (w : world) (blob key : bytes) :
  (exists s, decrypt_cookie_value w blob key = Ok s)
  /\ (forall e, decrypt_body w blob key = Raise e ->
        decrypt_cookie_value w blob key = Ok "")
  /\ (firstn 3 blob = v10 ->
        (skipn 3 blob = [] \/ (length (skipn 3 blob) mod 16 <> 0)%nat) ->
        decrypt_cookie_value w blob key = Ok "")
  /\ (forall e, firstn 3 blob = v11 ->
        GCM.decrypt_and_verify key (v11_nonce blob) (v11_ciphertext blob)
                               (v11_tag blob) = Raise e ->
        decrypt_cookie_value w blob key = Ok "")
  /\ (forall nonce c tag tag' p,
        length nonce = 12%nat -> length tag = 16%nat -> length tag' = 16%nat ->
        GCM.decrypt_and_verify key nonce c tag = Ok p -> tag' <> tag ->
        decrypt_cookie_value w (v11 ++ nonce ++ c ++ tag') key = Ok "")
  /\ (forall p b, firstn 3 blob = v10 ->
        AES.cbc_decrypt key spaces_iv (skipn 3 blob) = Ok p ->
        last_opt p = Some b -> 16 <= b2z b ->
        decrypt_cookie_value w blob key = Ok (decode_replace (drop_prefix p))).
Proof.
  split; [apply decrypt_cookie_value_total |].
  split; [apply decrypt_cookie_value_raise |].
  split; [| split; [| split]].
  - intros Hv [He | Hm].
    + destruct (AES.cbc_decrypt key spaces_iv (skipn 3 blob)) as [p | e] eqn:E.
      * assert (p = []) as ->.
        { revert E. rewrite He. unfold AES.cbc_decrypt.
          destruct (negb _); [discriminate |].
          destruct (negb _); [discriminate |]. cbn. congruence. }
        apply (decrypt_cookie_value_raise w blob key IndexError).
        now rewrite (decrypt_body_v10 w blob key [] Hv E).
      * apply (decrypt_cookie_value_raise w blob key e).
        now apply decrypt_body_v10_raise.
    + apply (decrypt_cookie_value_raise w blob key ValueError).
      apply decrypt_body_v10_raise; trivial.
      now apply cbc_decrypt_misaligned.
  - intros e Hv He. apply (decrypt_cookie_value_raise w blob key e).
    now rewrite decrypt_body_v11, He.
  - intros nonce c tag tag' p Hn Ht Ht' Hp Hne.
    destruct (v11_fields nonce c tag' Hn Ht') as (Hv & En & Ec & Et).
    apply (decrypt_cookie_value_raise w _ key ValueError).
    rewrite decrypt_body_v11, En, Ec, Et by exact Hv.
    now rewrite (gcm_other_tag key nonce c tag tag' p Hp Hne).
  - intros p b Hv Hp Hl Hb. unfold decrypt_cookie_value.
    rewrite (prefix_not_empty blob v10 Hv) by discriminate.
    rewrite (cbc_decrypt_key_not_empty _ _ _ _ Hp). cbn [orb].
    rewrite (decrypt_body_v10 w blob key p Hv Hp), index_minus_one, Hl.
    cbn [bind try_except].
    destruct (Z.ltb_spec (b2z b) 16) as [H | _]; [lia |].
    now rewrite drop_prefix_slice.
Qed.

(** The envelope [blob_v11] verifies; with the lowest bit of its tag flipped
    it gives the empty string. *)
Lemma decrypt_cookie_value_failures_witness :
  decrypt_cookie_value linux_world blob_v11_flipped gcm_key = Ok "".
Proof.
  destruct (decrypt_cookie_value_failures linux_world blob_v11 gcm_key)
    as (_ & _ & _ & _ & H & _).
  exact (H (fromhex "101112131415161718191a1b")
           (fromhex "b74b70dc6620d88673e069c7")
           (fromhex "62eac23764fa4ed4c8fb98339db90f82")
           (fromhex "62eac23764fa4ed4c8fb98339db90f83")
           (encode "sessionid=42")
           eq_refl eq_refl eq_refl
           ltac:(vm_compute; reflexivity) ltac:(discriminate)).
Defined.

(** C3 fails as stated: the plaintext of [blob_space] ends in a space, the
    byte 32, which is no padding length, yet the decoder returns the
    plaintext and not the empty string. *)
Lemma failure_policy_claim_counterexample :
  ~ failure_policy_claim linux_world blob_space peanuts_key.
Proof.
  intros (_ & H & _).
  specialize (H plain_space ltac:(reflexivity) ltac:(vm_compute; reflexivity)
                ltac:(reflexivity)).
  vm_compute in H. discriminate H.
Qed.

(** ** The paged binary container *)

Lemma le_value_nonneg (l : list Z) :
  Forall (fun b => 0 <= b) l -> 0 <= le_value l.
Proof. induction 1; cbn [le_value]; lia. Qed.

Lemma u32_at_nonneg (d : bytes) (pos : nat) : 0 <= u32_at d pos.
Proof.
  apply le_value_nonneg, Forall_forall. intros z Hz.
  apply in_map_iff in Hz as (b & <- & _). apply b2z_range.
Qed.

(** Reading a field of [n] bytes at [pos] out of at least [pos + n] bytes *)
Lemma slice_field (d : bytes) (pos n : nat) :
  (pos + n <= length d)%nat ->
  slice d (Some (Z.of_nat pos)) (Some (Z.of_nat (pos + n)))
  = firstn n (skipn pos d)
  /\ len (firstn n (skipn pos d)) = Z.of_nat n.
Proof.
  intros H. rewrite slice_range by lia. split.
  - f_equal. lia.
  - unfold len. rewrite length_firstn, length_skipn. lia.
Qed.

Lemma unpack_le_u32_at (d : bytes) (pos : nat) :
  (pos + 4 <= length d)%nat ->
  unpack_le_u32 (slice d (Some (Z.of_nat pos)) (Some (Z.of_nat (pos + 4))))
  = Ok (u32_at d pos).
Proof.
  intros H. destruct (slice_field d pos 4 H) as [-> E].
  unfold unpack_le_u32. now rewrite E.
Qed.

Lemma unpack_le_double_at (d : bytes) (pos : nat) :
  (pos + 8 <= length d)%nat ->
  Float.unpack_le_double
    (slice d (Some (Z.of_nat pos)) (Some (Z.of_nat (pos + 8))))
  = Ok (f64_at d pos).
Proof.
  intros H. destruct (slice_field d pos 8 H) as [-> E].
  unfold Float.unpack_le_double. now rewrite E.
Qed.

(** The search of a byte that occurs *)
Lemma find_from_until (b : byte) (l : bytes) (i : Z) :
  In b l ->
  find_from b l i = i + len (until b l)
  /\ firstn (length (until b l)) l = until b l.
Proof.
  unfold len. revert i. induction l as [| c l IH]; intros i Hin; [easy |].
  cbn [find_from until]. destruct (Byte.eqb c b) eqn:E.
  - cbn. split; [lia | reflexivity].
  - destruct Hin as [-> | Hin]; [now rewrite Byte.byte_dec_lb in E |].
    destruct (IH (i + 1) Hin) as [E1 E2]. cbn [length firstn].
    rewrite E1, E2. split; [lia | reflexivity].
Qed.

(** [read_str] on a string that is terminated: the bytes up to the NUL *)
Lemma read_str_terminated (d : bytes) (o : Z) :
  0 <= o -> terminated_at d o -> read_str d o = string_at d o.
Proof.
  intros Ho Ht. unfold read_str, string_at, find. unfold terminated_at in Ht.
  assert (Hlt : (Z.to_nat o < length d)%nat).
  { destruct (Nat.lt_ge_cases (Z.to_nat o) (length d)) as [H | H]; trivial.
    rewrite skipn_all2 in Ht by lia. destruct Ht. }
  unfold len at 1.
  destruct (Z.ltb_spec (Z.of_nat (length d)) o) as [H | _]; [lia |].
  destruct (find_from_until x00 (skipn (Z.to_nat o) d) o Ht) as [-> E].
  f_equal. unfold len.
  replace o with (Z.of_nat (Z.to_nat o)) at 1 2 by lia.
  rewrite <- Nat2Z.inj_add, slice_range by lia.
  now replace (Z.to_nat o + length (until x00 (skipn (Z.to_nat o) d))
               - Z.to_nat o)%nat
    with (length (until x00 (skipn (Z.to_nat o) d))) by lia.
Qed.

(** The mask with one bit tests that bit. *)
Lemma land_pow2_testbit (a n : Z) :
  0 <= n -> negb (Z.land a (2 ^ n) =? 0) = Z.testbit a n.
Proof.
  intros Hn. destruct (Z.testbit a n) eqn:E.
  - destruct (Z.eqb_spec (Z.land a (2 ^ n)) 0) as [H | _]; trivial.
    assert (F : Z.testbit (Z.land a (2 ^ n)) n = true)
      by (now rewrite Z.land_spec, E, Z.pow2_bits_true).
    now rewrite H, Z.bits_0 in F.
  - replace (Z.land a (2 ^ n)) with 0; trivial.
    symmetry. apply Z.bits_inj'. intros k Hk.
    rewrite Z.bits_0, Z.land_spec, Z.pow2_bits_eqb by trivial.
    destruct (Z.eqb_spec n k) as [<- | _]; [now rewrite E |].
    apply andb_false_r.
Qed.

(** C4. For every record all of whose fields can be read, the parser takes
    the flags from the little-endian word at byte 8 of the record, the
    offsets of the domain, the name, the path and the value from the
    little-endian words at bytes 16, 20, 24 and 28, and the expiry from the
    little-endian double at byte 40; secure is bit 0 of the flags and
    http-only is bit 2; each string runs from its offset to the next NUL
    byte and is decoded as UTF-8 with replacement. *)
Theorem safari_record_layout (w : world) (data : bytes) (off : Z) :
  0 <= off ->
  let d := skipn (Z.to_nat off) data in
  well_formed_record d ->
  safari_record w data off
  = (exp_str <- safari_exp_str w (f64_at d 40) ;;
     Ok {| browser := "Safari";
           domain := string_at d (u32_at d 16);
           name := string_at d (u32_at d 20);
           value := string_at d (u32_at d 28);
           path := string_at d (u32_at d 24);
           expires := exp_str;
           secure := Z.testbit (u32_at d 8) 0;
           httponly := Z.testbit (u32_at d 8) 2;
           samesite := Some 0 |}).
Proof.
  intros Hoff d (Hlen & Hurl & Hname & Hpath & Hval). unfold safari_record.
  replace (slice data (Some off) None) with d
    by (unfold d; rewrite <- slice_from; f_equal; f_equal; lia).
  pose proof (unpack_le_u32_at d 8) as E8.
  pose proof (unpack_le_u32_at d 16) as E16.
  pose proof (unpack_le_u32_at d 20) as E20.
  pose proof (unpack_le_u32_at d 24) as E24.
  pose proof (unpack_le_u32_at d 28) as E28.
  pose proof (unpack_le_double_at d 40) as E40.
  cbn [Nat.add Z.of_nat Pos.of_succ_nat Pos.succ] in E8, E16, E20, E24, E28, E40.
  rewrite E8, E16, E20, E24, E28, E40 by lia.
  cbn [bind].
  rewrite !read_str_terminated by (trivial; apply u32_at_nonneg).
  change 1 with (2 ^ 0). change 4 with (2 ^ 2).
  now rewrite !land_pow2_testbit by lia.
Qed.

(** The first record of [page_two], at offset 16 *)
Lemma safari_record_layout_witness :
  0 <= 16 /\ well_formed_record (skipn (Z.to_nat 16) page_two)
  /\ safari_record linux_world page_two 16 = Ok cookie_sid.
Proof.
  assert (H0 : 0 <= 16) by lia.
  assert (Hw : well_formed_record (skipn (Z.to_nat 16) page_two))
    by (repeat split; vm_compute; [lia | tauto ..]).
  split; [exact H0 |]. split; [exact Hw |].
  rewrite (safari_record_layout linux_world page_two 16 H0 Hw).
  vm_compute. reflexivity.
Defined.

Lemma safari_records_app w data l1 l2 :
  safari_records w data (l1 ++ l2)
  = safari_records w data l1 ++ safari_records w data l2.
Proof.
  induction l1 as [| off l1 IH]; cbn; trivial.
  destruct (safari_record w data off); cbn; now rewrite IH.
Qed.

(** A record whose reading raises is skipped, and the records of the other
    offsets of the table are produced as if its offset were not there. *)
Theorem safari_records_skip (w : world) (data : bytes) (l1 l2 : list Z)
                            (off : Z) (e : exn) :
  safari_record w data off = Raise e ->
  safari_records w data (l1 ++ off :: l2) = safari_records w data (l1 ++ l2).
Proof.
  intros H. rewrite !safari_records_app. cbn [safari_records]. now rewrite H.
Qed.

(** A record offset at or past the end of the page raises: no flags word
    can be read there. *)
Theorem safari_record_past_end (w : world) (data : bytes) (off : Z) :
  len data <= off -> safari_record w data off = Raise StructError.
Proof.
  intros H. unfold safari_record, len in *.
  replace (slice data (Some off) None) with (@nil byte); [reflexivity |].
  replace off with (Z.of_nat (Z.to_nat off)) by lia.
  rewrite slice_from, skipn_all2; trivial. lia.
Qed.

(** The page [page_corrupt_offset], whose second offset points past its
    end, yields the two records of its other offsets. *)
Lemma safari_records_skip_witness :
  safari_record linux_world page_corrupt_offset 9999 = Raise StructError
  /\ parse_safari_page linux_world page_corrupt_offset
     = Ok [cookie_sid; cookie_theme].
Proof.
  assert (Hr : safari_record linux_world page_corrupt_offset 9999
               = Raise StructError) by (vm_compute; reflexivity).
  split; [exact Hr |].
  assert (E : parse_safari_page linux_world page_corrupt_offset
              = Ok (safari_records linux_world page_corrupt_offset
                      ([20] ++ 9999 :: [20 + len record_sid])))
    by (vm_compute; reflexivity).
  rewrite E.
  rewrite (safari_records_skip linux_world page_corrupt_offset [20]
             [20 + len record_sid] 9999 StructError Hr).
  vm_compute. reflexivity.
Defined.

(** The offset 9999 is past the end of [page_corrupt_offset]. *)
Lemma safari_record_past_end_witness :
  len page_corrupt_offset <= 9999
  /\ safari_record linux_world page_corrupt_offset 9999 = Raise StructError.
Proof.
  assert (H : len page_corrupt_offset <= 9999)
    by (vm_compute; discriminate).
  split; [exact H |].
  exact (safari_record_past_end linux_world page_corrupt_offset 9999 H).
Defined.

(** The offset table of a page that holds it whole *)
Lemma read_offsets_table (data : bytes) (n i : nat) :
  (8 + 4 * (i + n) <= length data)%nat ->
  read_offsets data n (Z.of_nat i)
  = Ok (map (fun k => u32_at data (8 + 4 * k)) (seq i n)).
Proof.
  revert i. induction n as [| n IH]; intros i H; [reflexivity |].
  cbn [read_offsets seq map].
  replace (8 + Z.of_nat i * 4) with (Z.of_nat (8 + 4 * i)) by lia.
  replace (12 + Z.of_nat i * 4) with (Z.of_nat (8 + 4 * i + 4)) by lia.
  rewrite unpack_le_u32_at by lia. cbn [bind].
  replace (Z.of_nat i + 1) with (Z.of_nat (S i)) by lia.
  rewrite IH by lia. reflexivity.
Qed.

(** A page that starts with the page magic and holds its offset table
    whole yields the records of the offsets of its table, in the order of
    the table, those that raise left out. *)
Theorem parse_safari_page_table (w : world) (data : bytes) :
  firstn 4 data = page_magic ->
  (8 + 4 * Z.to_nat (u32_at data 4) <= length data)%nat ->
  parse_safari_page w data
  = Ok (safari_records w data
          (map (fun k => u32_at data (8 + 4 * k))
               (seq 0 (Z.to_nat (u32_at data 4))))).
Proof.
  intros Hm Hlen. unfold parse_safari_page.
  change (Some 4) with (Some (Z.of_nat 4)) at 1. rewrite slice_to, Hm.
  change (negb (bytes_eqb page_magic page_magic)) with false. cbv iota.
  pose proof (unpack_le_u32_at data 4 ltac:(lia)) as E.
  cbn [Nat.add Z.of_nat Pos.of_succ_nat Pos.succ] in E. rewrite E.
  cbn [bind].
  change 0 with (Z.of_nat 0) at 1.
  rewrite read_offsets_table by (cbn [Nat.add]; lia).
  reflexivity.
Qed.

(** The page [page_two] yields its two records. *)
Lemma parse_safari_page_table_witness :
  firstn 4 page_two = page_magic
  /\ (8 + 4 * Z.to_nat (u32_at page_two 4) <= length page_two)%nat
  /\ parse_safari_page linux_world page_two = Ok [cookie_sid; cookie_theme].
Proof.
  assert (Hm : firstn 4 page_two = page_magic) by reflexivity.
  assert (Hl : (8 + 4 * Z.to_nat (u32_at page_two 4) <= length page_two)%nat)
    by (vm_compute; repeat constructor).
  split; [exact Hm |]. split; [exact Hl |].
  rewrite (parse_safari_page_table linux_world page_two Hm Hl).
  vm_compute. reflexivity.
Defined.

(** C5, at a failing input. The only record of [page_unterminated] has a
    value with no NUL byte after it; the search answers -1, the slice
    [d[o:-1]] drops the last byte of the page, and the record is produced
    with the value [ab] instead of being skipped. *)
Theorem parse_safari_page_unterminated_string :
  parse_safari_page linux_world page_unterminated
  = Ok [ {| browser := "Safari"; domain := ".example.com"; name := "sid";
            value := "ab"; path := "/"; expires := "2001-01-02 00:00:00";
            secure := true; httponly := true; samesite := Some 0 |} ].
Proof. vm_compute. reflexivity. Qed.

(** ** The calendar and the format of a time *)

Lemma month_day_bounds (leap : bool) (n : Z) :
  0 <= n <= 364 ->
  let '(m, d) := DT.month_day leap n in 1 <= m <= 12 /\ 1 <= d <= 31.
Proof.
  intros Hn.
  assert (H : forallb (month_day_ok leap) (seq 0 365) = true)
    by (destruct leap; vm_compute; reflexivity).
  rewrite forallb_forall in H. specialize (H (Z.to_nat n)).
  unfold month_day_ok in H. rewrite Z2Nat.id in H by lia.
  destruct (DT.month_day leap n) as [m d].
  assert (Hin : In (Z.to_nat n) (seq 0 365)) by (apply in_seq; lia).
  apply H in Hin. lia.
Qed.

(** The date of an ordinal of the years 1 to 9999; from 1000-01-01 on, the
    year has four digits. *)
Lemma ord2ymd_bounds (n : Z) :
  1 <= n <= DT.MAXORDINAL ->
  let '(y, m, d) := DT.ord2ymd n in
  1 <= y <= 9999 /\ 1 <= m <= 12 /\ 1 <= d <= 31 /\ (364878 <= n -> 1000 <= y).
Proof.
  unfold DT.MAXORDINAL, DT.ord2ymd, DT.DI400Y, DT.DI100Y, DT.DI4Y. intros Hn.
  set (n400 := (n - 1) / 146097). set (r1 := (n - 1) mod 146097).
  set (n100 := r1 / 36524). set (r2 := r1 mod 36524).
  set (n4 := r2 / 1461). set (r3 := r2 mod 1461).
  set (n1 := r3 / 365). set (r4 := r3 mod 365).
  assert (H1 : n - 1 = 146097 * n400 + r1 /\ 0 <= r1 < 146097)
    by (unfold n400, r1; split; [apply Z.div_mod | apply Z.mod_pos_bound]; lia).
  assert (H2 : r1 = 36524 * n100 + r2 /\ 0 <= r2 < 36524)
    by (unfold n100, r2; split; [apply Z.div_mod | apply Z.mod_pos_bound]; lia).
  assert (H3 : r2 = 1461 * n4 + r3 /\ 0 <= r3 < 1461)
    by (unfold n4, r3; split; [apply Z.div_mod | apply Z.mod_pos_bound]; lia).
  assert (H4 : r3 = 365 * n1 + r4 /\ 0 <= r4 < 365)
    by (unfold n1, r4; split; [apply Z.div_mod | apply Z.mod_pos_bound]; lia).
  clearbody n400 r1 n100 r2 n4 r3 n1 r4.
  destruct ((n1 =? 4) || (n100 =? 4)) eqn:E.
  - apply orb_true_iff in E. rewrite !Z.eqb_eq in E. lia.
  - apply orb_false_iff in E. rewrite !Z.eqb_neq in E.
    pose proof (month_day_bounds
                  ((n1 =? 3) && (negb (n4 =? 24) || (n100 =? 3))) r4
                  ltac:(lia)) as Hmd.
    destruct (DT.month_day _ r4) as [m d]. lia.
Qed.

Lemma is_digit_digit (k : Z) : 0 <= k < 10 -> is_digit (DT.digit k) = true.
Proof.
  intros H.
  assert (E : k = 0 \/ k = 1 \/ k = 2 \/ k = 3 \/ k = 4 \/ k = 5 \/ k = 6
              \/ k = 7 \/ k = 8 \/ k = 9) by lia.
  repeat destruct E as [-> | E]; try subst k; reflexivity.
Qed.

Lemma digits_below_ten (fuel : nat) (n : Z) :
  n < 10 -> DT.digits (S fuel) n = String (DT.digit n) EmptyString.
Proof.
  intros H. cbn [DT.digits].
  destruct (Z.ltb_spec n 10); [reflexivity | lia].
Qed.

Lemma digits_from_ten (fuel : nat) (n : Z) :
  10 <= n ->
  DT.digits (S fuel) n
  = (DT.digits fuel (n / 10) ++ String (DT.digit (n mod 10)) EmptyString)%string.
Proof.
  intros H. cbn [DT.digits].
  destruct (Z.ltb_spec n 10); [lia | reflexivity].
Qed.

(** The decimal digits of a number below 10000 *)
Lemma decimal_digits (n : Z) :
  0 <= n < 10000 ->
  DT.decimal n
  = if n <? 10 then String (DT.digit n) ""
    else if n <? 100 then
      String (DT.digit (n / 10)) (String (DT.digit (n mod 10)) "")
    else if n <? 1000 then
      String (DT.digit (n / 10 / 10))
        (String (DT.digit (n / 10 mod 10)) (String (DT.digit (n mod 10)) ""))
    else
      String (DT.digit (n / 10 / 10 / 10))
        (String (DT.digit (n / 10 / 10 mod 10))
           (String (DT.digit (n / 10 mod 10)) (String (DT.digit (n mod 10)) ""))).
Proof.
  intros Hn. unfold DT.decimal.
  destruct (Z.ltb_spec n 10) as [H1 | H1]; [now apply digits_below_ten |].
  assert (D1 : n / 10 < 1000) by (apply Z.div_lt_upper_bound; lia).
  assert (D1' : n < 100 -> n / 10 < 10)
    by (intros; apply Z.div_lt_upper_bound; lia).
  assert (D1'' : 100 <= n -> 10 <= n / 10)
    by (intros; apply Z.div_le_lower_bound; lia).
  assert (D2 : n < 1000 -> n / 10 / 10 < 10)
    by (intros; apply Z.div_lt_upper_bound; [| apply Z.div_lt_upper_bound]; lia).
  assert (D2' : 1000 <= n -> 10 <= n / 10 / 10)
    by (intros; apply Z.div_le_lower_bound; [| apply Z.div_le_lower_bound]; lia).
  assert (D3 : n / 10 / 10 / 10 < 10)
    by (repeat (apply Z.div_lt_upper_bound; [lia |]); lia).
  destruct (Z.to_nat n) as [| [| [| fuel]]] eqn:Ef; try lia.
  rewrite digits_from_ten by lia.
  destruct (Z.ltb_spec n 100) as [H2 | H2];
    [now rewrite digits_below_ten by auto |].
  rewrite digits_from_ten by auto.
  destruct (Z.ltb_spec n 1000) as [H3 | H3];
    [now rewrite digits_below_ten by auto |].
  rewrite digits_from_ten by auto.
  now rewrite digits_below_ten by auto.
Qed.

Ltac digit_bounds :=
  repeat match goal with
         | |- context [is_digit (DT.digit ?k)] =>
           rewrite (is_digit_digit k)
             by (split;
                 [ repeat apply Z.div_pos; try apply Z.mod_pos_bound; lia
                 | first [ apply Z.mod_pos_bound; lia
                         | repeat (apply Z.div_lt_upper_bound; [lia |]); lia ] ])
         end.

Lemma zero_padded_two_digits (n : Z) :
  0 <= n < 100 -> two_digits (DT.zero_padded 2 n) = true.
Proof.
  intros Hn. unfold DT.zero_padded. rewrite decimal_digits by lia.
  destruct (Z.ltb_spec n 10); [| destruct (Z.ltb_spec n 100); [| lia]];
    cbn -[is_digit DT.digit Z.div Z.modulo]; digit_bounds; reflexivity.
Qed.

Lemma format_year_four_digits (pads : bool) (y : Z) :
  1 <= y <= 9999 -> pads = true \/ 1000 <= y ->
  four_digits (DT.format_year pads y) = true.
Proof.
  intros Hy Hp. unfold DT.format_year, DT.zero_padded.
  rewrite decimal_digits by lia.
  destruct (Z.ltb_spec y 10); [| destruct (Z.ltb_spec y 100);
    [| destruct (Z.ltb_spec y 1000)]];
    (destruct pads; [| try (exfalso; lia)]);
    cbn -[is_digit DT.digit Z.div Z.modulo]; digit_bounds; reflexivity.
Qed.

(** Every time of the years 1 to 9999 is printed as YYYY-MM-DD HH:MM:SS,
    provided its year has four digits or the C library fills it. *)
Lemma strftime_is_timestamp (pads : bool) (t : Z) :
  DT.valid t = true -> pads = true \/ DT.datetime 1000 1 1 <= t ->
  is_timestamp (DT.strftime pads t) = true.
Proof.
  unfold DT.valid, DT.strftime. intros Hv Hp.
  apply andb_true_iff in Hv as [Hlo Hhi]. apply Z.leb_le in Hlo, Hhi.
  assert (Hu : DT.us_per_day = 86400000000) by reflexivity.
  pose proof (ord2ymd_bounds (t / DT.us_per_day) (conj Hlo Hhi)) as Hb.
  destruct (DT.ord2ymd (t / DT.us_per_day)) as [[y m] d].
  destruct Hb as (Hy & Hm & Hd & Hy').
  assert (Hyear : pads = true \/ 1000 <= y).
  { destruct Hp as [Hp | Hp]; [now left | right]. apply Hy'.
    change (DT.datetime 1000 1 1) with (364878 * DT.us_per_day) in Hp.
    apply Z.div_le_lower_bound; lia. }
  set (second := t mod DT.us_per_day / 1000000).
  assert (Hs : 0 <= second < 86400).
  { unfold second. rewrite Hu.
    pose proof (Z.mod_pos_bound t 86400000000 ltac:(lia)).
    split; [apply Z.div_pos; lia | apply Z.div_lt_upper_bound; lia]. }
  pose proof (format_year_four_digits pads y Hy Hyear) as Fy.
  pose proof (zero_padded_two_digits m ltac:(lia)) as Fm.
  pose proof (zero_padded_two_digits d ltac:(lia)) as Fd.
  assert (Hh : 0 <= second / 3600 < 100)
    by (split; [apply Z.div_pos; lia | apply Z.div_lt_upper_bound; lia]).
  assert (Hi : 0 <= second / 60 mod 60 < 100)
    by (pose proof (Z.mod_pos_bound (second / 60) 60 ltac:(lia)); lia).
  assert (Hsec : 0 <= second mod 60 < 100)
    by (pose proof (Z.mod_pos_bound second 60 ltac:(lia)); lia).
  pose proof (zero_padded_two_digits _ Hh) as Fh.
  pose proof (zero_padded_two_digits _ Hi) as Fi.
  pose proof (zero_padded_two_digits _ Hsec) as Fs.
  destruct (DT.format_year pads y) as [| y1 [| y2 [| y3 [| y4 [| ? ?]]]]];
    try discriminate Fy.
  destruct (DT.zero_padded 2 m) as [| m1 [| m2 [| ? ?]]]; try discriminate Fm.
  destruct (DT.zero_padded 2 d) as [| d1 [| d2 [| ? ?]]]; try discriminate Fd.
  destruct (DT.zero_padded 2 (second / 3600)) as [| h1 [| h2 [| ? ?]]];
    try discriminate Fh.
  destruct (DT.zero_padded 2 (second / 60 mod 60)) as [| i1 [| i2 [| ? ?]]];
    try discriminate Fi.
  destruct (DT.zero_padded 2 (second mod 60)) as [| s1 [| s2 [| ? ?]]];
    try discriminate Fs.
  cbn -[is_digit] in Fy, Fm, Fd, Fh, Fi, Fs |- *.
  repeat match goal with
         | H : _ && _ = true |- _ => apply andb_true_iff in H as [? ?]
         end.
  repeat match goal with
         | H : is_digit _ = true |- _ => rewrite H; clear H
         end.
  reflexivity.
Qed.

(** ** Floats and lengths of time *)

Lemma gt0_positive (x : spec_float) : Float.gt0 x = greater_than_zero x.
Proof. destruct x as [s | s | | s m e]; try destruct s; reflexivity. Qed.

Lemma binary_round_aux_not_negative (m e : Z) (l : location) :
  not_negative (binary_round_aux Float.prec Float.emax false m e l).
Proof.
  unfold binary_round_aux.
  destruct (shr_fexp _ _ m e l) as [mrs' e'].
  destruct (shr_fexp _ _ _ e' loc_Exact) as [mrs'' e''].
  destruct (shr_m mrs''); try exact I.
  destruct (_ <=? _); exact I.
Qed.

Lemma frac_not_negative (m : positive) (e : Z) :
  not_negative (Float.frac (S754_finite false m e)).
Proof.
  unfold Float.frac. destruct (Z.leb_spec 0 e) as [He | He]; cbn; trivial.
  pose proof (Z.mod_pos_bound (Zpos m) (2 ^ (- e))) as H.
  destruct (Zpos m mod 2 ^ (- e)) as [| r | r] eqn:E; cbn; trivial.
  - unfold binary_round. destruct (shl_align _ _ _) as [mz ez].
    apply binary_round_aux_not_negative.
  - assert (0 < 2 ^ (- e)) by (apply Z.pow_pos_nonneg; lia). lia.
Qed.

Lemma mul_not_negative (x y : spec_float) :
  greater_than_zero x = true -> not_negative y -> not_negative (Float.mul x y).
Proof.
  unfold Float.mul.
  destruct x as [sx | sx | | sx mx ex], y as [sy | sy | | sy my ey];
    try destruct sx; try destruct sy; cbn; trivial; try discriminate;
    try contradiction.
  intros _ _. apply binary_round_aux_not_negative.
Qed.

Lemma round_half_even_nonneg (x : spec_float) :
  not_negative x -> 0 <= Float.round_half_even x.
Proof.
  destruct x as [s | s | | s m e]; cbn; try lia.
  destruct s; [contradiction | intros _]. cbn.
  destruct (0 <=? e).
  - apply Z.shiftl_nonneg. lia.
  - assert (0 <= Z.shiftr (Zpos m) (- e)) by (apply Z.shiftr_nonneg; lia).
    destruct (_ || _); lia.
Qed.

Lemma trunc_nonneg (m : positive) (e : Z) :
  0 <= Float.trunc (S754_finite false m e).
Proof.
  cbn. destruct (0 <=? e);
    [apply Z.shiftl_nonneg | apply Z.shiftr_nonneg]; lia.
Qed.

Lemma check_delta_ok (us delta : Z) :
  DT.check_delta us = Ok delta ->
  delta = us /\ - DT.max_delta_days <= us / DT.us_per_day <= DT.max_delta_days.
Proof.
  unfold DT.check_delta.
  destruct (Z.ltb_spec (us / DT.us_per_day) (- DT.max_delta_days));
    destruct (Z.ltb_spec DT.max_delta_days (us / DT.us_per_day));
    cbn [orb]; intros E; try discriminate E.
  injection E as <-. lia.
Qed.

(** The length of a positive number of seconds is not negative. *)
Lemma timedelta_seconds_nonneg (x : spec_float) (delta : Z) :
  greater_than_zero x = true -> DT.timedelta_seconds x = Ok delta -> 0 <= delta.
Proof.
  destruct x as [s | s | | s m e]; cbn [greater_than_zero];
    try (intros H; discriminate H).
  - destruct s; intros H H'; [discriminate H | discriminate H'].
  - destruct s; [intros H; discriminate H | intros _].
    unfold DT.timedelta_seconds. intros H.
    apply check_delta_ok in H as [-> _].
    pose proof (trunc_nonneg m e).
    pose proof (round_half_even_nonneg
                  (Float.mul (Float.of_Z 1000000)
                             (Float.frac (S754_finite false m e)))
                  (mul_not_negative (Float.of_Z 1000000) _ eq_refl
                                    (frac_not_negative m e))).
    lia.
Qed.

(** ** The timestamp conversions *)

(** The conversion of a positive expiry of the paged container, when it
    succeeds: the time of the Mac epoch plus the length of the expiry, with
    no time zone, in the fixed format. *)
Lemma safari_exp_str_positive (w : world) (exp : spec_float) (s : str) :
  greater_than_zero exp = true -> safari_exp_str w exp = Ok s ->
  exists delta,
    DT.timedelta_seconds exp = Ok delta /\ 0 <= delta
    /\ DT.valid (DT.datetime 2001 1 1 + delta) = true
    /\ s = DT.strftime (pads_year w) (DT.datetime 2001 1 1 + delta)
    /\ is_timestamp s = true.
Proof.
  intros Hp. unfold safari_exp_str. rewrite gt0_positive, Hp.
  destruct (DT.timedelta_seconds exp) as [delta | e] eqn:Ed; [| discriminate].
  cbn [bind]. unfold DT.add.
  destruct (DT.valid (DT.datetime 2001 1 1 + delta)) eqn:Ev; [| discriminate].
  cbn [bind]. intros E. apply Ok_inj in E. subst s. exists delta.
  pose proof (timedelta_seconds_nonneg exp delta Hp Ed) as Hd.
  repeat split; trivial.
  apply strftime_is_timestamp; trivial. right.
  change (DT.datetime 1000 1 1) with 31525459200000000.
  change (DT.datetime 2001 1 1) with 63113990400000000. lia.
Qed.

(** C6, amended. The expiry of a record maps to "Session" exactly when the
    stored value is not greater than zero: a zero of either sign, a negative
    number or infinity, or no number. Every value greater than zero is
    converted with the Mac epoch: when the conversion succeeds, the result
    is the time 2001-01-01 00:00:00 plus that many seconds, with no time
    zone, as YYYY-MM-DD HH:MM:SS, and never "Session". *)
Theorem safari_expiry_session (w : world) (exp : spec_float) :
  (safari_exp_str w exp = Ok "Session" <-> greater_than_zero exp = false)
  /\ (forall s, greater_than_zero exp = true -> safari_exp_str w exp = Ok s ->
        exists delta,
          DT.timedelta_seconds exp = Ok delta
          /\ s = DT.strftime (pads_year w) (DT.datetime 2001 1 1 + delta)
          /\ is_timestamp s = true)
  /\ DT.strftime (pads_year w) (DT.datetime 2001 1 1) = "2001-01-01 00:00:00".
Proof.
  split; [| split].
  - split.
    + intros H. destruct (greater_than_zero exp) eqn:Hp; trivial.
      destruct (safari_exp_str_positive w exp "Session" Hp H)
        as (_ & _ & _ & _ & _ & F).
      discriminate F.
    + intros Hp. unfold safari_exp_str. now rewrite gt0_positive, Hp.
  - intros s Hp H.
    destruct (safari_exp_str_positive w exp s Hp H)
      as (delta & Hd & _ & _ & Hs & Ht).
    exists delta. repeat split; assumption.
  - destruct (pads_year w); vm_compute; reflexivity.
Qed.

(** An expiry of one day is greater than zero and gives the second day of
    2001. *)
Lemma safari_expiry_session_witness :
  greater_than_zero float_one_day = true
  /\ safari_exp_str linux_world float_one_day = Ok "2001-01-02 00:00:00"
  /\ exists delta,
       DT.timedelta_seconds float_one_day = Ok delta
       /\ "2001-01-02 00:00:00"
          = DT.strftime (pads_year linux_world) (DT.datetime 2001 1 1 + delta)
       /\ is_timestamp "2001-01-02 00:00:00" = true.
Proof.
  assert (Hp : greater_than_zero float_one_day = true) by reflexivity.
  assert (Hs : safari_exp_str linux_world float_one_day
               = Ok "2001-01-02 00:00:00") by (vm_compute; reflexivity).
  split; [exact Hp |]. split; [exact Hs |].
  destruct (safari_expiry_session linux_world float_one_day) as (_ & H & _).
  exact (H "2001-01-02 00:00:00" Hp Hs).
Defined.

(** C6 fails as stated: the expiry -1.0 is not zero, yet it maps to
    "Session" and is not converted. *)
Lemma session_claim_counterexample :
  ~ session_claim linux_world float_minus_one.
Proof.
  intros [H _]. specialize (H ltac:(vm_compute; reflexivity)).
  discriminate H.
Qed.

Lemma check_delta_raise (us : Z) (e : exn) :
  DT.check_delta us = Raise e ->
  us / DT.us_per_day < - DT.max_delta_days
  \/ DT.max_delta_days < us / DT.us_per_day.
Proof.
  unfold DT.check_delta.
  destruct (Z.ltb_spec (us / DT.us_per_day) (- DT.max_delta_days));
    destruct (Z.ltb_spec DT.max_delta_days (us / DT.us_per_day));
    cbn [orb]; intros E; try discriminate E; lia.
Qed.

(** The days of a time counted from an epoch *)
Lemma epoch_days (days t : Z) :
  (days * DT.us_per_day + t) / DT.us_per_day = days + t / DT.us_per_day.
Proof. apply Z.div_add_l. discriminate. Qed.

(** A Chrome timestamp other than 0: the time 1601-01-01 plus that many
    microseconds when it is of the years 1 to 9999, "Unknown" when not *)
Lemma chrome_conversion (w : world) (t : Z) :
  t <> 0 ->
  chrome_timestamp_to_datetime w (Some t)
  = Ok (if DT.valid (DT.datetime 1601 1 1 + t)
        then DT.strftime (pads_year w) (DT.datetime 1601 1 1 + t)
        else "Unknown").
Proof.
  intros Ht. unfold chrome_timestamp_to_datetime.
  replace (match t with 0 => true | _ => false end) with false
    by (destruct t; congruence).
  unfold DT.timedelta_microseconds.
  destruct (DT.check_delta t) as [delta | e] eqn:E.
  - apply check_delta_ok in E as [-> _]. cbn [bind]. unfold DT.add.
    now destruct (DT.valid (DT.datetime 1601 1 1 + t)).
  - apply check_delta_raise in E. cbn [bind try_except].
    replace (DT.valid (DT.datetime 1601 1 1 + t)) with false; trivial.
    symmetry. unfold DT.valid.
    change (DT.datetime 1601 1 1) with (584389 * DT.us_per_day).
    rewrite epoch_days.
    unfold DT.max_delta_days, DT.MAXORDINAL in *.
    destruct (Z.leb_spec 1 (584389 + t / DT.us_per_day));
      destruct (Z.leb_spec (584389 + t / DT.us_per_day) 3652059);
      trivial; lia.
Qed.

(** C7, amended. Under the Chrome convention the input 0 yields "Session"
    and every failure of the conversion, an absent timestamp included,
    yields "Unknown": a timestamp other than 0 yields the time 1601-01-01
    plus that many microseconds, with no time zone, when that time is of the
    years 1 to 9999, and "Unknown" when it is not. Under the Firefox
    convention zero and absent yield "Session", and a converted expiry is
    the local time of that many seconds after 1970-01-01. Under the Safari
    convention every expiry that is not greater than zero yields "Session",
    and a converted expiry is the time 2001-01-01 plus that many seconds,
    with no time zone. Every converted time is formatted as YYYY-MM-DD
    HH:MM:SS when its year is 1000 or later or the C library fills the year
    to four digits. *)
Theorem timestamp_normalizer (w : world) :
  chrome_timestamp_to_datetime w (Some 0) = Ok "Session"
  /\ chrome_timestamp_to_datetime w None = Ok "Unknown"
  /\ (forall t, t <> 0 ->
        chrome_timestamp_to_datetime w (Some t)
        = Ok (if DT.valid (DT.datetime 1601 1 1 + t)
              then DT.strftime (pads_year w) (DT.datetime 1601 1 1 + t)
              else "Unknown"))
  /\ firefox_exp_str w None = Ok "Session"
  /\ firefox_exp_str w (Some 0) = Ok "Session"
  /\ (forall t s, t <> 0 -> firefox_exp_str w (Some t) = Ok s ->
        s = DT.strftime (pads_year w)
              (DT.datetime 1970 1 1 + (t + utcoffset w t) * 1000000)
        /\ DT.valid (DT.datetime 1970 1 1 + (t + utcoffset w t) * 1000000)
           = true)
  /\ (forall x, greater_than_zero x = false -> safari_exp_str w x = Ok "Session")
  /\ (forall x s, greater_than_zero x = true -> safari_exp_str w x = Ok s ->
        exists delta,
          DT.timedelta_seconds x = Ok delta
          /\ s = DT.strftime (pads_year w) (DT.datetime 2001 1 1 + delta)
          /\ is_timestamp s = true)
  /\ (forall t, DT.valid t = true ->
        pads_year w = true \/ DT.datetime 1000 1 1 <= t ->
        is_timestamp (DT.strftime (pads_year w) t) = true).
Proof.
  repeat match goal with |- _ /\ _ => split end; try reflexivity.
  - apply chrome_conversion.
  - intros t s Ht. unfold firefox_exp_str, fromtimestamp.
    replace (match t with 0 => Ok "Session" | _ => _ end)
      with (dt <- (if DT.valid (DT.datetime 1970 1 1
                                + (t + utcoffset w t) * 1000000)
                   then Ok (DT.datetime 1970 1 1
                            + (t + utcoffset w t) * 1000000)
                   else Raise ValueError) ;;
            Ok (DT.strftime (pads_year w) dt))
      by (destruct t; congruence).
    destruct (DT.valid _); [| discriminate]. cbn [bind].
    intros E. apply Ok_inj in E. now split.
  - intros x Hx. unfold safari_exp_str. now rewrite gt0_positive, Hx.
  - intros x s Hx H.
    destruct (safari_exp_str_positive w x s Hx H)
      as (delta & Hd & _ & _ & Hs & Ht).
    exists delta. repeat split; assumption.
  - intros t. apply strftime_is_timestamp.
Qed.

(** The Chrome timestamp of the specification's example, in the stated
    format *)
Lemma timestamp_normalizer_witness :
  chrome_timestamp_to_datetime linux_world (Some 13397871380000000)
  = Ok "2025-07-24 22:56:20"
  /\ is_timestamp "2025-07-24 22:56:20" = true.
Proof.
  destruct (timestamp_normalizer linux_world)
    as (_ & _ & H & _ & _ & _ & _ & _ & F).
  split.
  - rewrite H by discriminate. vm_compute. reflexivity.
  - apply (F (DT.datetime 1601 1 1 + 13397871380000000));
      [vm_compute; reflexivity | right; vm_compute; discriminate].
Defined.

(** C7 fails as stated, on a machine with glibc one hour east of UTC: an
    absent Chrome timestamp yields "Unknown" and not "Session"; an expiry
    of the paged container and one of the other store that cannot be
    converted raise and yield no "Unknown"; the first day of year 1 is
    printed with a year of one digit; and one second after the Chrome epoch
    is printed as such, not as the local time an hour later. *)
Lemma normalizer_claim_counterexample :
  ~ normalizer_claim berlin_world
  /\ chrome_timestamp_to_datetime berlin_world None = Ok "Unknown"
  /\ safari_exp_str berlin_world float_huge = Raise OverflowError
  /\ firefox_exp_str berlin_world (Some (10 ^ 18)) = Raise ValueError
  /\ chrome_timestamp_to_datetime berlin_world (Some (-50491123200000000))
     = Ok "1-01-01 00:00:00"
  /\ chrome_timestamp_to_datetime berlin_world (Some 1000000)
     = Ok "1601-01-01 00:00:01".
Proof.
  split.
  - intros (H & _). specialize (H None (or_introl eq_refl)). discriminate H.
  - repeat split; vm_compute; reflexivity.
Qed.

(** ** The record aggregator *)

Lemma extend_if_any_app (all cookies : list cookie) :
  extend_if_any all cookies = all ++ cookies.
Proof.
  unfold extend_if_any. destruct cookies; cbn [is_empty]; trivial.
  now rewrite app_nil_r.
Qed.

Lemma fold_extend (f : browser_info -> list cookie) (l : list browser_info)
                  (init : list cookie) :
  fold_left (fun all b => extend_if_any all (f b)) l init
  = init ++ concat (map f l).
Proof.
  revert init. induction l as [| b l IH]; intros init; cbn.
  - now rewrite app_nil_r.
  - now rewrite IH, extend_if_any_app, app_assoc.
Qed.

Lemma concat_map_length {A B} (f : A -> list B) (l : list A) :
  length (concat (map f l)) = list_sum (map (fun a => length (f a)) l).
Proof.
  induction l as [| a l IH]; [reflexivity |].
  cbn [map concat]. rewrite length_app, IH. reflexivity.
Qed.

Lemma collect_until_raise_Forall {A B} (f : A -> result B) (P : B -> Prop)
                                 (l : list A) :
  (forall a b, f a = Ok b -> P b) -> Forall P (collect_until_raise f l).
Proof.
  intros H. induction l as [| a l IH]; cbn; [constructor |].
  destruct (f a) as [b | e] eqn:E; constructor; eauto.
Qed.

Lemma chromium_cookie_browser w b key row c :
  chromium_cookie w b key row = Ok c -> browser c = browser_name b.
Proof.
  unfold chromium_cookie.
  destruct (decrypt_cookie_value w _ key); [| discriminate].
  destruct (chrome_timestamp_to_datetime w _); [| discriminate].
  cbn [bind]. intros E. apply Ok_inj in E. now subst c.
Qed.

Lemma export_chromium_cookies_browser w b :
  Forall (fun c => browser c = browser_name b) (export_chromium_cookies w b).
Proof.
  unfold export_chromium_cookies.
  destruct (get_encryption_key w b) as [key |]; [| constructor].
  destruct (is_empty key); [constructor |].
  destruct (chromium_rows w b) as [rows |]; [| constructor].
  apply collect_until_raise_Forall. intros row c.
  apply chromium_cookie_browser.
Qed.

Lemma safari_record_browser w data off c :
  safari_record w data off = Ok c -> browser c = "Safari".
Proof.
  unfold safari_record.
  repeat match goal with
         | |- (_ <- ?r ;; _) = _ -> _ => destruct r; [| discriminate]; cbn [bind]
         end.
  intros E. apply Ok_inj in E. now subst c.
Qed.

Lemma safari_records_browser w data offsets :
  Forall (fun c => browser c = "Safari") (safari_records w data offsets).
Proof.
  induction offsets as [| off l IH]; cbn; [constructor |].
  destruct (safari_record w data off) as [c | e] eqn:E; trivial.
  constructor; trivial. now apply safari_record_browser in E.
Qed.

Lemma parse_safari_page_browser w data cookies :
  parse_safari_page w data = Ok cookies ->
  Forall (fun c => browser c = "Safari") cookies.
Proof.
  unfold parse_safari_page.
  destruct (negb _); [intros E; apply Ok_inj in E; subst; constructor |].
  destruct (unpack_le_u32 _) as [num |]; [| discriminate]. cbn [bind].
  destruct (read_offsets data _ 0) as [offsets |]; [| discriminate].
  cbn [bind]. intros E. apply Ok_inj in E. subst.
  apply safari_records_browser.
Qed.

Lemma safari_pages_browser w rest sizes :
  Forall (fun c => browser c = "Safari") (safari_pages w rest sizes).
Proof.
  revert rest. induction sizes as [| size l IH]; intros rest; cbn;
    [constructor |].
  destruct (parse_safari_page w _) as [cookies |] eqn:E; [| constructor].
  apply Forall_app. split; [now apply parse_safari_page_browser in E | apply IH].
Qed.

Lemma export_safari_cookies_browser w :
  Forall (fun c => browser c = "Safari") (export_safari_cookies w).
Proof.
  unfold export_safari_cookies, safari_file_cookies.
  destruct (negb _); [constructor |].
  destruct (safari_file w) as [content |]; [| constructor].
  destruct (file_read content 4) as [magic rest].
  destruct (negb _); [constructor |].
  destruct (file_read rest 4) as [b rest'].
  destruct (_ <- _ ;; _) as [[sizes rest''] |]; [| constructor].
  apply safari_pages_browser.
Qed.

Lemma export_safari_cookies_elsewhere w :
  system_eqb (SYSTEM w) Darwin = false -> export_safari_cookies w = [].
Proof. intros H. unfold export_safari_cookies. now rewrite H. Qed.

Lemma export_firefox_cookies_browser w :
  Forall (fun c => browser c = "Firefox") (export_firefox_cookies w).
Proof.
  unfold export_firefox_cookies.
  induction (firefox_profiles w) as [| profile l IH]; cbn; [constructor |].
  apply Forall_app. split; trivial.
  destruct profile as [rows |]; [| constructor].
  apply collect_until_raise_Forall. intros row c. unfold firefox_cookie.
  destruct (firefox_exp_str w _); [| discriminate]. cbn [bind].
  intros E. apply Ok_inj in E. now subst c.
Qed.

(** C8. The aggregated sequence is the concatenation of the records of the
    Chromium-family stores, browser by browser in the order of discovery,
    then those of the paged container, then those of the other relational
    store. Every record keeps the tag of its source, and none is dropped:
    the length of the sequence is the sum of the lengths of its sources, so
    records that agree on domain, name and path all appear. *)
Theorem all_cookies_concatenation (w : world) :
  all_cookies w
  = concat (map (export_chromium_cookies w) (discover_chromium_browsers w))
      ++ export_safari_cookies w ++ export_firefox_cookies w
  /\ Forall (fun b => Forall (fun c => browser c = browser_name b)
                             (export_chromium_cookies w b))
            (discover_chromium_browsers w)
  /\ Forall (fun c => browser c = "Safari") (export_safari_cookies w)
  /\ Forall (fun c => browser c = "Firefox") (export_firefox_cookies w)
  /\ length (all_cookies w)
     = (list_sum (map (fun b => length (export_chromium_cookies w b))
                      (discover_chromium_browsers w))
        + length (export_safari_cookies w)
        + length (export_firefox_cookies w))%nat.
Proof.
  assert (E : all_cookies w
              = concat (map (export_chromium_cookies w)
                            (discover_chromium_browsers w))
                  ++ export_safari_cookies w ++ export_firefox_cookies w).
  { unfold all_cookies. rewrite fold_extend, !extend_if_any_app. cbn [app].
    destruct (system_eqb (SYSTEM w) Darwin) eqn:Hs.
    - now rewrite app_assoc.
    - now rewrite (export_safari_cookies_elsewhere w Hs). }
  split; [exact E |]. split; [| split; [| split]].
  - apply Forall_forall. intros b _. apply export_chromium_cookies_browser.
  - apply export_safari_cookies_browser.
  - apply export_firefox_cookies_browser.
  - rewrite E, !length_app, concat_map_length. lia.
Qed.

(** Chrome's and Firefox's records of the same domain, name and path both
    appear, Chrome's first, each under its own tag. *)
Lemma all_cookies_concatenation_witness :
  all_cookies two_store_world
  = [ {| browser := "Chrome"; domain := ".example.com"; name := "sid";
         value := "sessionid=42"; path := "/";
         expires := "2025-07-24 22:56:20"; secure := true; httponly := false;
         samesite := Some 1 |};
      {| browser := "Firefox"; domain := ".example.com"; name := "sid";
         value := "sessionid=42"; path := "/"; expires := "Session";
         secure := true; httponly := false; samesite := Some 1 |} ].
Proof.
  rewrite (proj1 (all_cookies_concatenation two_store_world)).
  vm_compute. reflexivity.
Defined.

(** ** Key derivation *)

Lemma be_bytes_length (n : nat) (v : Z) : length (be_bytes n v) = n.
Proof. unfold be_bytes. now rewrite length_map, length_seq. Qed.

Lemma sha1_length (msg : list Z) : length (KDF.sha1 msg) = 20%nat.
Proof.
  unfold KDF.sha1.
  destruct (KDF.compress_all _ _ _) as [[[[a b] c] d] e].
  now rewrite !length_app, !be_bytes_length.
Qed.

Lemma hmac_sha1_length (key msg : list Z) :
  length (KDF.hmac_sha1 key msg) = 20%nat.
Proof. apply sha1_length. Qed.

Lemma xor_list_length (a b : list Z) :
  length (AES.xor_list a b) = Nat.min (length a) (length b).
Proof.
  revert b. induction a as [| x a IH]; intros [| y b]; cbn; trivial.
  now rewrite IH.
Qed.

Lemma pbkdf2_iter_length (n : nat) (password u acc : list Z) :
  length acc = 20%nat -> length (KDF.pbkdf2_iter n password u acc) = 20%nat.
Proof.
  revert u acc. induction n as [| n IH]; intros u acc H; cbn; trivial.
  apply IH. now rewrite xor_list_length, H, hmac_sha1_length.
Qed.

Lemma pbkdf2_blocks_length (n : nat) (password salt : list Z)
                           (iterations : nat) (i : Z) :
  length (KDF.pbkdf2_blocks n password salt iterations i) = (20 * n)%nat.
Proof.
  revert i. induction n as [| n IH]; intros i; cbn [KDF.pbkdf2_blocks];
    [reflexivity |].
  rewrite length_app, IH. unfold KDF.pbkdf2_block.
  rewrite pbkdf2_iter_length by apply hmac_sha1_length. lia.
Qed.

(** The derived key has the length asked for. *)
Lemma pbkdf2_hmac_sha1_length (password salt : bytes) (iterations dklen : nat) :
  length (KDF.pbkdf2_hmac_sha1 password salt iterations dklen) = dklen.
Proof.
  unfold KDF.pbkdf2_hmac_sha1.
  rewrite length_map, length_firstn, pbkdf2_blocks_length.
  pose proof (Nat.div_mod_eq (dklen + 19) 20).
  pose proof (Nat.mod_upper_bound (dklen + 19) 20). lia.
Qed.

Lemma macos_derive_length (password : option str) (key : bytes) :
  macos_derive password = Some key -> length key = 16%nat.
Proof.
  unfold macos_derive. destruct password as [p |]; [| discriminate].
  destruct (String.eqb p ""); [discriminate |].
  intros E. apply Some_inj in E. subst key. apply pbkdf2_hmac_sha1_length.
Qed.

Lemma get_macos_key_length (w : world) (b : browser_info) (key : bytes) :
  get_macos_key w b = Some key -> length key = 16%nat.
Proof.
  unfold get_macos_key.
  destruct (lookup (browser_name b) keychain_map) as [[service account] |].
  - destruct (macos_derive (get_keychain_password w service account)) eqn:E.
    + intros E'. apply Some_inj in E'. subst key.
      now apply macos_derive_length in E.
    + apply macos_derive_length.
  - apply macos_derive_length.
Qed.

Lemma linux_items_length (w : world) (b : browser_info)
                         (items : list secret_item) (key : bytes) :
  linux_items w b items = Ok (Some key) -> length key = 16%nat.
Proof.
  induction items as [| item items IH]; cbn [linux_items]; [discriminate |].
  destruct (get_label item) as [label |]; [| discriminate]. cbn [bind].
  destruct (contains _ _); trivial.
  destruct (get_secret item) as [secret |]; [| discriminate]. cbn [bind].
  destruct (decode_strict secret) as [password |]; [| discriminate].
  cbn [bind]. intros E. apply Ok_inj in E. injection E as <-.
  apply pbkdf2_hmac_sha1_length.
Qed.

Lemma get_linux_key_length (w : world) (b : browser_info) (key : bytes) :
  get_linux_key w b = Some key -> length key = 16%nat.
Proof.
  unfold get_linux_key.
  destruct (items <- secret_items w ;; linux_items w b items)
    as [[k |] | e] eqn:E; intros E'; apply Some_inj in E'; subst key;
    try apply pbkdf2_hmac_sha1_length.
  destruct (secret_items w) as [items |]; [| discriminate].
  now apply linux_items_length in E.
Qed.

Lemma linux_items_ext (w1 w2 : world) (b : browser_info)
                      (items : list secret_item) :
  (forall s, lower w1 s = lower w2 s) ->
  linux_items w1 b items = linux_items w2 b items.
Proof.
  intros Hl. induction items as [| item items IH]; cbn [linux_items]; trivial.
  destruct (get_label item) as [label |]; trivial. cbn [bind].
  now rewrite !Hl, IH.
Qed.

(** C9. The derived key has the output length asked for, 16 bytes in the
    program, for every secret, salt and iteration count; equal secrets,
    salts, iteration counts and output lengths give equal keys; every key
    the program derives on macOS or Linux is of 16 bytes; and two runs that
    are handed the same secrets derive the same key. *)
Theorem key_derivation_deterministic :
  (forall password salt iterations dklen,
     length (KDF.pbkdf2_hmac_sha1 password salt iterations dklen) = dklen)
  /\ (forall password salt iterations,
        length (KDF.pbkdf2_hmac_sha1 password salt iterations 16) = 16%nat)
  /\ (forall p1 s1 i1 n1 p2 s2 i2 n2,
        p1 = p2 -> s1 = s2 -> i1 = i2 -> n1 = n2 ->
        KDF.pbkdf2_hmac_sha1 p1 s1 i1 n1 = KDF.pbkdf2_hmac_sha1 p2 s2 i2 n2)
  /\ (forall w b key, get_macos_key w b = Some key -> length key = 16%nat)
  /\ (forall w b key, get_linux_key w b = Some key -> length key = 16%nat)
  /\ (forall w1 w2 b,
        (forall service account,
           get_keychain_password w1 service account
           = get_keychain_password w2 service account) ->
        get_macos_key w1 b = get_macos_key w2 b)
  /\ (forall w1 w2 b,
        secret_items w1 = secret_items w2 ->
        (forall s, lower w1 s = lower w2 s) ->
        get_linux_key w1 b = get_linux_key w2 b).
Proof.
  repeat match goal with |- _ /\ _ => split end.
  - apply pbkdf2_hmac_sha1_length.
  - intros. apply pbkdf2_hmac_sha1_length.
  - intros. now subst.
  - apply get_macos_key_length.
  - apply get_linux_key_length.
  - intros w1 w2 b H. unfold get_macos_key. rewrite H.
    destruct (lookup _ _) as [[service account] |]; trivial. now rewrite H.
  - intros w1 w2 b Hs Hl. unfold get_linux_key. rewrite Hs.
    destruct (secret_items w2) as [items |]; trivial. cbn [bind].
    now rewrite (linux_items_ext w1 w2 b items Hl).
Qed.

(** The key of a Linux machine whose secret service does not answer is the
    16 bytes derived from [peanuts], in every run; a Mac that is handed the
    password [hunter2] derives a key of 16 bytes from it. *)
Lemma key_derivation_deterministic_witness :
  get_linux_key linux_world chrome_info
  = Some (fromhex "fd621fe5a2b402539dfa147ca9272778")
  /\ length (fromhex "fd621fe5a2b402539dfa147ca9272778") = 16%nat
  /\ get_linux_key berlin_world chrome_info
     = get_linux_key linux_world chrome_info
  /\ get_macos_key mac_world chrome_info
     = Some (KDF.pbkdf2_hmac_sha1 (encode "hunter2") saltysalt 1003 16)
  /\ length (KDF.pbkdf2_hmac_sha1 (encode "hunter2") saltysalt 1003 16)
     = 16%nat.
Proof.
  destruct key_derivation_deterministic
    as (_ & _ & _ & Hmac & Hlen & _ & Hrun).
  assert (E : get_linux_key linux_world chrome_info
              = Some (fromhex "fd621fe5a2b402539dfa147ca9272778"))
    by (vm_compute; reflexivity).
  assert (E' : get_macos_key mac_world chrome_info
               = Some (KDF.pbkdf2_hmac_sha1 (encode "hunter2") saltysalt
                                            1003 16))
    by (cbv -[KDF.pbkdf2_hmac_sha1 encode saltysalt]; reflexivity).
  split; [exact E |].
  split; [exact (Hlen linux_world chrome_info _ E) |].
  split; [apply Hrun; reflexivity |].
  split; [exact E' | exact (Hmac mac_world chrome_info _ E')].
Defined.

(** ** Known answers of the runtime and of the cryptographic library *)

(** FIPS 197, appendix C: the example vectors of AES-128, AES-192 and
    AES-256, in both directions *)
Example aes_fips197_vectors :
  let plain := map b2z (fromhex "00112233445566778899aabbccddeeff") in
  let k128 := map b2z (fromhex "000102030405060708090a0b0c0d0e0f") in
  let k192 :=
    map b2z (fromhex "000102030405060708090a0b0c0d0e0f1011121314151617") in
  let k256 :=
    map b2z (fromhex ("000102030405060708090a0b0c0d0e0f"
                      ++ "101112131415161718191a1b1c1d1e1f")) in
  let c128 := map b2z (fromhex "69c4e0d86a7b0430d8cdb78070b4c55a") in
  let c192 := map b2z (fromhex "dda97ca4864cdfe06eaf70a0ec0d7191") in
  let c256 := map b2z (fromhex "8ea2b7ca516745bfeafc49904b496089") in
  AES.cipher (AES.key_schedule k128) plain = c128
  /\ AES.cipher (AES.key_schedule k192) plain = c192
  /\ AES.cipher (AES.key_schedule k256) plain = c256
  /\ AES.inv_cipher (AES.key_schedule k128) c128 = plain
  /\ AES.inv_cipher (AES.key_schedule k192) c192 = plain
  /\ AES.inv_cipher (AES.key_schedule k256) c256 = plain.
Proof. vm_compute. repeat split. Qed.

(** The test cases 1 to 3 of the GCM specification *)
Example gcm_test_cases :
  let zero16 := repeat x00 16 in
  let zero12 := repeat x00 12 in
  GCM.encrypt_and_digest zero16 zero12 []
  = ([], fromhex "58e2fccefa7e3061367f1d57a4e7455a")
  /\ GCM.encrypt_and_digest zero16 zero12 zero16
     = (fromhex "0388dace60b6a392f328c2b971b2fe78",
        fromhex "ab6e47d42cec13bdf53a67b21257bddf")
  /\ GCM.encrypt_and_digest
       (fromhex "feffe9928665731c6d6a8f9467308308")
       (fromhex "cafebabefacedbaddecaf888")
       (fromhex ("d9313225f88406e5a55909c5aff5269a86a7a9531534f7da2e4c303d8a318a72"
                 ++ "1c3c0c95956809532fcf0e2449a6b525b16aedf5aa0de657ba637b391aafd255"))
     = (fromhex ("42831ec2217774244b7221b784d0d49ce3aa212f2c02a4e035c17e2329aca12e"
                 ++ "21d514b25466931c7d8f6a5aac84aa051ba30b396a0aac973d58e091473f5985"),
        fromhex "4d5c2af327cd64a62cf35abd2ba6fab4")
  /\ GCM.decrypt_and_verify zero16 zero12
       (fromhex "0388dace60b6a392f328c2b971b2fe78")
       (fromhex "ab6e47d42cec13bdf53a67b21257bddf")
     = Ok zero16.
Proof. vm_compute. repeat split. Qed.

(** SHA-1 of [abc] and of the empty message, and the key that 'peanuts'
    and 'saltysalt' give in one iteration *)
Example kdf_known_answers :
  map z2b (KDF.sha1 (map b2z (encode "abc")))
  = fromhex "a9993e364706816aba3e25717850c26c9cd0d89d"
  /\ map z2b (KDF.sha1 [])
     = fromhex "da39a3ee5e6b4b0d3255bfef95601890afd80709"
  /\ peanuts_key = fromhex "fd621fe5a2b402539dfa147ca9272778".
Proof. vm_compute. repeat split. Qed.

(** The plaintexts of the [v10] examples, and what the decoder makes of a
    full block of padding: the sixteen bytes 16 stay. *)
Example v10_examples :
  AES.cbc_decrypt peanuts_key spaces_iv (skipn 3 blob_zero) = Ok plain_zero
  /\ AES.cbc_decrypt peanuts_key spaces_iv (skipn 3 blob_space) = Ok plain_space
  /\ AES.cbc_decrypt peanuts_key spaces_iv (skipn 3 blob_full) = Ok plain_full
  /\ AES.cbc_decrypt peanuts_key spaces_iv (skipn 3 blob_prefixed)
     = Ok plain_prefixed
  /\ decrypt_cookie_value linux_world blob_full peanuts_key
     = Ok (string_of_list_byte plain_full)
  /\ decrypt_cookie_value linux_world blob_space peanuts_key
     = Ok "hello world     ".
Proof. vm_compute. repeat split. Qed.

(** Decoding with replacement: a lone continuation byte, a truncated
    sequence and an overlong form each give U+FFFD; well-formed text is
    kept. *)
Example decode_replace_examples :
  decode_replace [] = ""
  /\ decode_replace (encode "plain") = "plain"
  /\ decode_replace (fromhex "61c3a9e282ac") = string_of_list_byte
                                                 (fromhex "61c3a9e282ac")
  /\ decode_replace (fromhex "80") = string_of_list_byte replacement
  /\ decode_replace (fromhex "e282") = string_of_list_byte replacement
  /\ decode_replace (fromhex "c0af")
     = string_of_list_byte (replacement ++ replacement)
  /\ decode_strict (fromhex "e282") = Raise UnicodeDecodeError.
Proof. vm_compute. repeat split. Qed.

(** Lengths of time and their rounding to microseconds, ties to even *)
Example timedelta_examples :
  DT.timedelta_seconds (Float.of_bits 0x3FE0000000000000) = Ok 500000
  /\ DT.timedelta_seconds (Float.of_bits 0x3EC4F8B588E368F1) = Ok 2
  /\ DT.timedelta_seconds (Float.of_bits 0x3EA0C6F7A0B5ED8D) = Ok 0
  /\ DT.timedelta_seconds (Float.of_bits 0x41CDCD65000FCD6C)
     = Ok 1000000000123456
  /\ DT.timedelta_seconds (Float.of_bits 0x7FF0000000000000)
     = Raise OverflowError
  /\ DT.timedelta_seconds (Float.of_bits 0x7FF8000000000000)
     = Raise ValueError
  /\ DT.timedelta_microseconds (86400000000 * 1000000000)
     = Raise OverflowError.
Proof. vm_compute. repeat split. Qed.

(** Times of the three conventions *)
Example timestamp_examples :
  chrome_timestamp_to_datetime linux_world (Some 1)
  = Ok "1601-01-01 00:00:00"
  /\ chrome_timestamp_to_datetime linux_world (Some (-1))
     = Ok "1600-12-31 23:59:59"
  /\ chrome_timestamp_to_datetime linux_world (Some 265000000000000000)
     = Ok "9998-07-08 15:06:40"
  /\ chrome_timestamp_to_datetime linux_world (Some (10 ^ 30)) = Ok "Unknown"
  /\ chrome_timestamp_to_datetime linux_world (Some (-50491123200000001))
     = Ok "Unknown"
  /\ safari_exp_str linux_world (Float.of_bits 0x41C4DC93800FCD6F)
     = Ok "2023-03-08 20:26:40"
  /\ firefox_exp_str linux_world (Some 1700000000) = Ok "2023-11-14 22:13:20"
  /\ firefox_exp_str berlin_world (Some 1700000000)
     = Ok "2023-11-14 23:13:20".
Proof. vm_compute. repeat split. Qed.

(** * Further properties *)

(** ** Strings and records of the paged container *)

Lemma slice_length {A} (l : list A) (a b : nat) :
  length (slice l (Some (Z.of_nat a)) (Some (Z.of_nat b)))
  = (Nat.min b (length l) - Nat.min a (length l))%nat.
Proof.
  unfold slice, slice_bound, len.
  destruct (Z.ltb_spec (Z.of_nat a) 0) as [H | _]; [lia |].
  destruct (Z.ltb_spec (Z.of_nat b) 0) as [H | _]; [lia |].
  rewrite length_firstn, length_skipn. lia.
Qed.

Lemma find_from_absent (b : byte) (l : bytes) (i : Z) :
  ~ In b l -> find_from b l i = -1.
Proof.
  revert i. induction l as [| c l IH]; intros i H; [reflexivity |].
  cbn [find_from]. destruct (Byte.eqb c b) eqn:E.
  - apply Byte.byte_dec_bl in E. destruct H. now left.
  - apply IH. intros Hin. apply H. now right.
Qed.

(** [d[o:-1]] *)
Lemma slice_to_last {A} (d : list A) (o : Z) :
  0 <= o ->
  slice d (Some o) (Some (-1)) = removelast (skipn (Z.to_nat o) d).
Proof.
  intros Ho. unfold slice, slice_bound, len.
  destruct (Z.ltb_spec o 0) as [H | _]; [lia |].
  change (-1 <? 0) with true. cbv iota.
  destruct (Nat.lt_ge_cases (Z.to_nat o) (length d)) as [H | H].
  - rewrite removelast_firstn_len, length_skipn.
    replace (Z.to_nat (Z.min o (Z.of_nat (length d)))) with (Z.to_nat o) by lia.
    f_equal. lia.
  - rewrite (skipn_all2 d) by lia.
    rewrite skipn_all2 by lia. now rewrite firstn_nil.
Qed.

(** A string that no NUL byte ends is not refused: the search answers -1,
    and the string is the bytes from its offset to the last byte but one of
    the record's view, so it loses its last byte; an offset at or past the
    end gives the empty string. *)
Theorem read_str_unterminated (d : bytes) (o : Z) :
  0 <= o -> ~ terminated_at d o ->
  read_str d o = decode_replace (removelast (skipn (Z.to_nat o) d))
  /\ (len d <= o -> read_str d o = "").
Proof.
  intros Ho Ht. unfold terminated_at in Ht.
  assert (E : read_str d o
              = decode_replace (removelast (skipn (Z.to_nat o) d))).
  { unfold read_str, find.
    rewrite (find_from_absent x00 _ o Ht).
    destruct (len d <? o); now rewrite slice_to_last. }
  split; [exact E |].
  intros Hlen. rewrite E. unfold len in Hlen.
  rewrite skipn_all2 by lia. reflexivity.
Qed.

(** The value of the only record of [page_unterminated] starts at byte 75
    of the record and no NUL byte follows it: it is read as [ab]. *)
Lemma read_str_unterminated_witness :
  0 <= 75 /\ ~ terminated_at record_unterminated 75
  /\ read_str record_unterminated 75 = "ab".
Proof.
  assert (H0 : 0 <= 75) by lia.
  assert (Ht : ~ terminated_at record_unterminated 75).
  { vm_compute. intros [H | [H | [H | []]]]; discriminate H. }
  split; [exact H0 |]. split; [exact Ht |].
  rewrite (proj1 (read_str_unterminated record_unterminated 75 H0 Ht)).
  vm_compute. reflexivity.
Defined.

Lemma unpack_le_u32_cases (b : bytes) :
  unpack_le_u32 b = Ok (le_value (map b2z b))
  \/ unpack_le_u32 b = Raise StructError.
Proof. unfold unpack_le_u32. destruct (len b =? 4); auto. Qed.

Lemma unpack_le_u32_short (d : bytes) (pos : nat) :
  (length d < pos + 4)%nat ->
  unpack_le_u32 (slice d (Some (Z.of_nat pos)) (Some (Z.of_nat (pos + 4))))
  = Raise StructError.
Proof.
  intros H. unfold unpack_le_u32, len. rewrite slice_length.
  destruct (Z.eqb_spec (Z.of_nat (Nat.min (pos + 4) (length d)
                                  - Nat.min pos (length d))) 4) as [E | _];
    [lia | reflexivity].
Qed.

Lemma unpack_le_double_short (d : bytes) (pos : nat) :
  (length d < pos + 8)%nat ->
  Float.unpack_le_double
    (slice d (Some (Z.of_nat pos)) (Some (Z.of_nat (pos + 8))))
  = Raise StructError.
Proof.
  intros H. unfold Float.unpack_le_double, len. rewrite slice_length.
  destruct (Z.eqb_spec (Z.of_nat (Nat.min (pos + 8) (length d)
                                  - Nat.min pos (length d))) 8) as [E | _];
    [lia | reflexivity].
Qed.

(** The record at an offset, when at least 48 bytes follow the offset *)
Lemma safari_record_whole (w : world) (data : bytes) (off : Z) :
  let d := slice data (Some off) None in
  (48 <= length d)%nat ->
  safari_record w data off
  = (exp_str <- safari_exp_str w (f64_at d 40) ;;
     Ok {| browser := "Safari";
           domain := read_str d (u32_at d 16);
           name := read_str d (u32_at d 20);
           value := read_str d (u32_at d 28);
           path := read_str d (u32_at d 24);
           expires := exp_str;
           secure := negb (Z.land (u32_at d 8) 1 =? 0);
           httponly := negb (Z.land (u32_at d 8) 4 =? 0);
           samesite := Some 0 |}).
Proof.
  intros d Hlen. unfold safari_record. fold d.
  pose proof (unpack_le_u32_at d 8) as E8.
  pose proof (unpack_le_u32_at d 16) as E16.
  pose proof (unpack_le_u32_at d 20) as E20.
  pose proof (unpack_le_u32_at d 24) as E24.
  pose proof (unpack_le_u32_at d 28) as E28.
  pose proof (unpack_le_double_at d 40) as E40.
  cbn [Nat.add Z.of_nat Pos.of_succ_nat Pos.succ] in E8, E16, E20, E24, E28, E40.
  rewrite E8, E16, E20, E24, E28, E40 by lia.
  reflexivity.
Qed.

Lemma safari_record_short (w : world) (data : bytes) (off : Z) :
  (length (slice data (Some off) None) < 48)%nat ->
  safari_record w data off = Raise StructError.
Proof.
  intros Hlen. unfold safari_record.
  set (d := slice data (Some off) None) in *.
  pose proof (unpack_le_double_short d 40) as E40.
  cbn [Nat.add Z.of_nat Pos.of_succ_nat Pos.succ] in E40.
  rewrite E40 by lia.
  destruct (unpack_le_u32_cases (slice d (Some 8) (Some 12))) as [-> | ->];
    [| reflexivity].
  destruct (unpack_le_u32_cases (slice d (Some 16) (Some 20))) as [-> | ->];
    [| reflexivity].
  destruct (unpack_le_u32_cases (slice d (Some 20) (Some 24))) as [-> | ->];
    [| reflexivity].
  destruct (unpack_le_u32_cases (slice d (Some 24) (Some 28))) as [-> | ->];
    [| reflexivity].
  destruct (unpack_le_u32_cases (slice d (Some 28) (Some 32))) as [-> | ->];
    reflexivity.
Qed.

(** A record is produced exactly when at least 48 bytes follow its offset
    and its expiry can be converted; its strings are never a reason to skip
    it. With fewer than 48 bytes the reading raises [struct.error]. *)
Theorem safari_record_produced (w : world) (data : bytes) (off : Z) :
  let d := slice data (Some off) None in
  ((exists c, safari_record w data off = Ok c)
   <-> (48 <= length d)%nat
       /\ exists s, safari_exp_str w (f64_at d 40) = Ok s)
  /\ ((length d < 48)%nat -> safari_record w data off = Raise StructError).
Proof.
  intros d. split; [| apply safari_record_short].
  split.
  - intros [c Hc].
    destruct (Nat.lt_ge_cases (length d) 48) as [H | H].
    + rewrite (safari_record_short w data off H) in Hc. discriminate Hc.
    + split; [exact H |].
      rewrite (safari_record_whole w data off H) in Hc. fold d in Hc.
      destruct (safari_exp_str w (f64_at d 40)) as [s | e];
        [now exists s | discriminate Hc].
  - intros (H & s & Hs).
    rewrite (safari_record_whole w data off H). fold d. rewrite Hs.
    eexists. reflexivity.
Qed.

(** ** Pages of the paged container *)

(** An offset table that the page does not hold whole *)
Lemma read_offsets_short (data : bytes) (n i : nat) :
  (0 < n)%nat -> (length data < 8 + 4 * (i + n))%nat ->
  read_offsets data n (Z.of_nat i) = Raise StructError.
Proof.
  revert i. induction n as [| n IH]; intros i Hn H; [lia |].
  cbn [read_offsets].
  replace (8 + Z.of_nat i * 4) with (Z.of_nat (8 + 4 * i)) by lia.
  replace (12 + Z.of_nat i * 4) with (Z.of_nat (8 + 4 * i + 4)) by lia.
  destruct (Nat.lt_ge_cases (length data) (8 + 4 * i + 4)) as [Hs | Hs].
  - now rewrite unpack_le_u32_short.
  - rewrite unpack_le_u32_at by lia. cbn [bind].
    replace (Z.of_nat i + 1) with (Z.of_nat (S i)) by lia.
    rewrite IH by lia. reflexivity.
Qed.

Lemma parse_safari_page_magic (w : world) (data : bytes) :
  firstn 4 data = page_magic ->
  parse_safari_page w data
  = (num <- unpack_le_u32 (slice data (Some 4) (Some 8)) ;;
     offsets <- read_offsets data (Z.to_nat num) 0 ;;
     Ok (safari_records w data offsets)).
Proof.
  intros Hm. unfold parse_safari_page.
  change (Some 4) with (Some (Z.of_nat 4)) at 1. rewrite slice_to, Hm.
  reflexivity.
Qed.

(** The parsing of a page raises exactly when the page starts with the page
    magic and does not hold its record count and its offset table whole; the
    exception is [struct.error]. A page with another magic gives no record
    and no exception. *)
Theorem parse_safari_page_raises (w : world) (data : bytes) :
  (forall e,
     parse_safari_page w data = Raise e
     <-> e = StructError /\ firstn 4 data = page_magic
         /\ (length data < 8 + 4 * Z.to_nat (u32_at data 4))%nat)
  /\ (firstn 4 data <> page_magic -> parse_safari_page w data = Ok []).
Proof.
  assert (Hother : firstn 4 data <> page_magic -> parse_safari_page w data = Ok []).
  { intros Hm. unfold parse_safari_page.
    change (Some 4) with (Some (Z.of_nat 4)) at 1. rewrite slice_to.
    apply bytes_eqb_neq in Hm. now rewrite Hm. }
  assert (Hshort : firstn 4 data = page_magic ->
                   (length data < 8 + 4 * Z.to_nat (u32_at data 4))%nat ->
                   parse_safari_page w data = Raise StructError).
  { intros Hm Hlen. rewrite (parse_safari_page_magic w data Hm).
    destruct (Nat.lt_ge_cases (length data) 8) as [H8 | H8].
    - pose proof (unpack_le_u32_short data 4) as E.
      cbn [Nat.add Z.of_nat Pos.of_succ_nat Pos.succ] in E.
      now rewrite E by lia.
    - pose proof (unpack_le_u32_at data 4) as E.
      cbn [Nat.add Z.of_nat Pos.of_succ_nat Pos.succ] in E.
      rewrite E by lia. cbn [bind].
      change 0 with (Z.of_nat 0) at 1.
      rewrite read_offsets_short by (cbn [Nat.add]; lia). reflexivity. }
  split; [| exact Hother].
  intros e. split.
  - intros He.
    destruct (list_eq_dec Byte.byte_eq_dec (firstn 4 data) page_magic)
      as [Hm | Hm]; [| rewrite (Hother Hm) in He; discriminate He].
    destruct (Nat.lt_ge_cases (length data) (8 + 4 * Z.to_nat (u32_at data 4)))
      as [Hlen | Hlen].
    + rewrite (Hshort Hm Hlen) in He.
      split; [congruence | split; assumption].
    + exfalso. rewrite (parse_safari_page_magic w data Hm) in He.
      pose proof (unpack_le_u32_at data 4) as E.
      cbn [Nat.add Z.of_nat Pos.of_succ_nat Pos.succ] in E.
      rewrite E in He by lia. cbn [bind] in He.
      change 0 with (Z.of_nat 0) in He at 1.
      rewrite read_offsets_table in He by (cbn [Nat.add]; lia).
      discriminate He.
  - intros (-> & Hm & Hlen). now apply Hshort.
Qed.

(** ** The file of the paged container *)

Lemma unpack_be_u32_at (d : bytes) (pos : nat) :
  (pos + 4 <= length d)%nat ->
  unpack_be_u32 (firstn 4 (skipn pos d)) = Ok (u32be_at d pos).
Proof.
  intros H. unfold unpack_be_u32, len.
  rewrite length_firstn, length_skipn.
  destruct (Z.eqb_spec (Z.of_nat (Nat.min 4 (length d - pos))) 4) as [_ | E];
    [reflexivity | lia].
Qed.

Lemma unpack_be_u32_short (d : bytes) (pos : nat) :
  (length d < pos + 4)%nat ->
  unpack_be_u32 (firstn 4 (skipn pos d)) = Raise StructError.
Proof.
  intros H. unfold unpack_be_u32, len.
  rewrite length_firstn, length_skipn.
  destruct (Z.eqb_spec (Z.of_nat (Nat.min 4 (length d - pos))) 4) as [E | _];
    [lia | reflexivity].
Qed.

(** The table of the page sizes, read from byte [pos] of the file *)
Lemma read_page_sizes_table (content : bytes) (n pos : nat) :
  (pos + 4 * n <= length content)%nat ->
  read_page_sizes (skipn pos content) n
  = Ok (map (fun k => u32be_at content (pos + 4 * k)) (seq 0 n),
        skipn (pos + 4 * n) content).
Proof.
  revert pos. induction n as [| n IH]; intros pos H.
  - cbn. now rewrite Nat.add_0_r.
  - cbn [read_page_sizes file_read]. change (Z.to_nat 4) with 4%nat.
    rewrite unpack_be_u32_at by lia. cbn [bind].
    rewrite skipn_skipn, (Nat.add_comm 4 pos), IH by lia.
    cbn [bind fst snd seq map]. rewrite <- seq_shift, map_map.
    f_equal. f_equal.
    + f_equal.
      * f_equal. lia.
      * apply map_ext. intros k. f_equal. lia.
    + f_equal. lia.
Qed.

Lemma read_page_sizes_short (content : bytes) (n pos : nat) :
  (0 < n)%nat -> (length content < pos + 4 * n)%nat ->
  read_page_sizes (skipn pos content) n = Raise StructError.
Proof.
  revert pos. induction n as [| n IH]; intros pos Hn H; [lia |].
  cbn [read_page_sizes file_read]. change (Z.to_nat 4) with 4%nat.
  destruct (Nat.lt_ge_cases (length content) (pos + 4)) as [Hs | Hs].
  - now rewrite unpack_be_u32_short.
  - rewrite unpack_be_u32_at by lia. cbn [bind].
    rewrite skipn_skipn, (Nat.add_comm 4 pos), IH by lia. reflexivity.
Qed.

(** The header of the file. A file that does not start with [cook] gives no
    record. Otherwise the big-endian word at byte 4 is the number of pages
    and the words that follow are the sizes of the pages; a file too short
    to hold them all gives no record, and in a file that holds them the
    pages are read one after the other from the end of the table. *)
Theorem safari_file_cookies_header (w : world) (content : bytes) :
  let n := Z.to_nat (u32be_at content 4) in
  (firstn 4 content <> encode "cook" -> safari_file_cookies w content = [])
  /\ (firstn 4 content = encode "cook" ->
      (length content < 8 + 4 * n)%nat ->
      safari_file_cookies w content = [])
  /\ (firstn 4 content = encode "cook" ->
      (8 + 4 * n <= length content)%nat ->
      safari_file_cookies w content
      = safari_pages w (skipn (8 + 4 * n) content)
          (map (fun k => u32be_at content (8 + 4 * k)) (seq 0 n))).
Proof.
  intros n. unfold safari_file_cookies, file_read.
  change (Z.to_nat 4) with 4%nat.
  split; [| split].
  - intros Hm. apply bytes_eqb_neq in Hm. now rewrite Hm.
  - intros Hm Hlen. rewrite Hm.
    change (negb (bytes_eqb (encode "cook") (encode "cook"))) with false.
    cbv iota.
    destruct (Nat.lt_ge_cases (length content) 8) as [H8 | H8].
    + now rewrite unpack_be_u32_short.
    + rewrite unpack_be_u32_at by lia. cbn [bind]. fold n.
      rewrite skipn_skipn. change (4 + 4)%nat with 8%nat.
      rewrite read_page_sizes_short by lia. reflexivity.
  - intros Hm Hlen. rewrite Hm.
    change (negb (bytes_eqb (encode "cook") (encode "cook"))) with false.
    cbv iota.
    rewrite unpack_be_u32_at by lia. cbn [bind]. fold n.
    rewrite skipn_skipn. change (4 + 4)%nat with 8%nat.
    rewrite read_page_sizes_table by lia. reflexivity.
Qed.

Lemma file_read_app (page rest : bytes) :
  file_read (page ++ rest) (len page) = (page, rest).
Proof.
  unfold file_read, len. rewrite Nat2Z.id.
  rewrite firstn_app, firstn_all, Nat.sub_diag, skipn_app, skipn_all,
    Nat.sub_diag.
  cbn. now rewrite app_nil_r.
Qed.

(** The loop over the pages. The records of the pages are concatenated in
    the order of the pages, up to the first page whose parsing raises: that
    page and every page after it give nothing. *)
Theorem safari_pages_until_raise (w : world) (pages1 pages2 : list bytes)
                                 (records : list (list cookie))
                                 (tail : bytes) :
  Forall2 (fun page cookies => parse_safari_page w page = Ok cookies)
          pages1 records ->
  (pages2 = []
   \/ exists page e rest,
        pages2 = page :: rest /\ parse_safari_page w page = Raise e) ->
  safari_pages w (concat (pages1 ++ pages2) ++ tail)
               (map len (pages1 ++ pages2))
  = concat records.
Proof.
  intros H Hstop. induction H as [| page cookies pages1 records Hp _ IH].
  - cbn [app concat].
    destruct Hstop as [-> | (page & e & rest & -> & He)]; [reflexivity |].
    cbn [concat map safari_pages]. rewrite <- app_assoc, file_read_app.
    now rewrite He.
  - cbn [app concat map safari_pages]. rewrite <- app_assoc, file_read_app.
    rewrite Hp. now rewrite IH.
Qed.

(** The file [file_four_pages]: the records of its first page are produced,
    its second page has another magic and gives nothing, its third page is
    truncated, and so its fourth page is never parsed. *)
Lemma safari_pages_until_raise_witness :
  Forall2 (fun page cookies => parse_safari_page linux_world page = Ok cookies)
          [page_two; page_other_magic] [[cookie_sid; cookie_theme]; []]
  /\ parse_safari_page linux_world page_truncated = Raise StructError
  /\ safari_file_cookies linux_world file_four_pages
     = [cookie_sid; cookie_theme].
Proof.
  assert (H1 : Forall2 (fun page cookies =>
                          parse_safari_page linux_world page = Ok cookies)
                 [page_two; page_other_magic] [[cookie_sid; cookie_theme]; []]).
  { repeat constructor; vm_compute; reflexivity. }
  assert (H2 : parse_safari_page linux_world page_truncated = Raise StructError)
    by (vm_compute; reflexivity).
  split; [exact H1 |]. split; [exact H2 |].
  assert (E : safari_file_cookies linux_world file_four_pages
              = safari_pages linux_world
                  (concat ([page_two; page_other_magic]
                           ++ [page_truncated; page_two])
                   ++ fromhex "0000000000000000")
                  (map len ([page_two; page_other_magic]
                            ++ [page_truncated; page_two])))
    by (vm_compute; reflexivity).
  rewrite E.
  exact (safari_pages_until_raise linux_world [page_two; page_other_magic]
           [page_truncated; page_two] [[cookie_sid; cookie_theme]; []]
           (fromhex "0000000000000000") H1
           (or_intror (ex_intro _ page_truncated
              (ex_intro _ StructError (ex_intro _ [page_two]
                 (conj eq_refl H2)))))).
Defined.

(** ** The loops over the rows of the relational stores *)

Lemma collect_until_raise_stop {A B} (f : A -> result B) (l1 l2 : list A)
                               (bs : list B) :
  Forall2 (fun a b => f a = Ok b) l1 bs ->
  (l2 = [] \/ exists a e rest, l2 = a :: rest /\ f a = Raise e) ->
  collect_until_raise f (l1 ++ l2) = bs.
Proof.
  intros H Hstop. induction H as [| a b l1 bs Ha _ IH].
  - destruct Hstop as [-> | (a & e & rest & -> & He)]; [reflexivity |].
    cbn. now rewrite He.
  - cbn. rewrite Ha. now rewrite IH.
Qed.

Lemma export_firefox_cookies_profiles (w : world) :
  export_firefox_cookies w
  = concat (map (firefox_profile_cookies w) (firefox_profiles w)).
Proof. reflexivity. Qed.

(** A row of [moz_cookies] whose expiry cannot be converted ends the loop
    over the rows of its profile: the records of the rows before it stay,
    the row and every row after it give nothing, and the other profiles are
    exported as they would be without it. *)
Theorem export_firefox_cookies_until_raise
          (w : world) (before after : list (option (list firefox_row)))
          (rows1 rows2 : list firefox_row) (cookies : list cookie) :
  firefox_profiles w = before ++ Some (rows1 ++ rows2) :: after ->
  Forall2 (fun row c => firefox_cookie w row = Ok c) rows1 cookies ->
  (rows2 = []
   \/ exists row e rest,
        rows2 = row :: rest /\ firefox_exp_str w (moz_expiry row) = Raise e) ->
  export_firefox_cookies w
  = concat (map (firefox_profile_cookies w) before) ++ cookies
    ++ concat (map (firefox_profile_cookies w) after).
Proof.
  intros Hp H Hstop.
  rewrite export_firefox_cookies_profiles, Hp, map_app, concat_app.
  cbn [map concat firefox_profile_cookies].
  rewrite (collect_until_raise_stop (firefox_cookie w) rows1 rows2 cookies H);
    [reflexivity |].
  destruct Hstop as [-> | (row & e & rest & -> & He)]; [now left | right].
  exists row, e, rest. split; [reflexivity |].
  unfold firefox_cookie. now rewrite He.
Qed.

(** In [two_profile_world] the second row of the first profile has its
    expiry in milliseconds, a time past the year 9999: the first profile
    gives its first row only, the second profile its one row. *)
Lemma export_firefox_cookies_until_raise_witness :
  firefox_exp_str two_profile_world (moz_expiry mozilla_row_milliseconds)
  = Raise ValueError
  /\ map (fun c => (name c, expires c)) (export_firefox_cookies two_profile_world)
     = [("theme", "2026-01-01 00:00:00"); ("sid", "Session")].
Proof.
  assert (He : firefox_exp_str two_profile_world
                 (moz_expiry mozilla_row_milliseconds) = Raise ValueError)
    by (vm_compute; reflexivity).
  split; [exact He |].
  rewrite (export_firefox_cookies_until_raise two_profile_world []
             [Some [mozilla_row]] [mozilla_row_dated]
             [mozilla_row_milliseconds; mozilla_row]
             [ {| browser := "Firefox"; domain := ".example.com";
                  name := "theme"; value := "dark"; path := "/";
                  expires := "2026-01-01 00:00:00"; secure := false;
                  httponly := false; samesite := Some 0 |} ]
             eq_refl
             ltac:(repeat constructor; vm_compute; reflexivity)
             (or_intror (ex_intro _ mozilla_row_milliseconds
                (ex_intro _ ValueError (ex_intro _ [mozilla_row]
                   (conj eq_refl He)))))).
  vm_compute. reflexivity.
Defined.

Lemma chrome_timestamp_total (w : world) (ts : option Z) :
  exists s, chrome_timestamp_to_datetime w ts = Ok s.
Proof.
  unfold chrome_timestamp_to_datetime.
  destruct (match ts with Some 0 => true | _ => false end); [now exists "Session" |].
  match goal with |- context [try_except ?x _] => destruct x as [s | e] end;
    cbn [try_except]; eauto.
Qed.

Lemma chromium_cookie_total (w : world) (b : browser_info) (key : bytes)
                            (row : chromium_row) :
  exists c, chromium_cookie w b key row = Ok c.
Proof.
  unfold chromium_cookie.
  destruct (decrypt_cookie_value_total w
              (match encrypted_value row with Some e => e | None => [] end) key)
    as [s ->].
  destruct (chrome_timestamp_total w (expires_utc row)) as [t ->].
  cbn [bind]. eauto.
Qed.

Lemma collect_until_raise_all {A B} (f : A -> result B) (l : list A) :
  (forall a, exists b, f a = Ok b) ->
  Forall2 (fun a b => f a = Ok b) l (collect_until_raise f l).
Proof.
  intros Hf. induction l as [| a l IH]; cbn; [constructor |].
  destruct (Hf a) as [b Hb]. rewrite Hb. now constructor.
Qed.

(** With a key and a store that can be read, every row of the store gives
    one record, in the order of the rows: no row ends the loop, since
    neither the decoder nor the conversion of the expiry raises. *)
Theorem export_chromium_cookies_every_row
          (w : world) (b : browser_info) (key : bytes)
          (rows : list chromium_row) :
  get_encryption_key w b = Some key -> key <> [] ->
  chromium_rows w b = Some rows ->
  Forall2 (fun row c => chromium_cookie w b key row = Ok c)
          rows (export_chromium_cookies w b).
Proof.
  intros Hk Hne Hr. unfold export_chromium_cookies. rewrite Hk, Hr.
  destruct key as [| k key]; [now destruct Hne |]. cbn [is_empty].
  apply collect_until_raise_all. intros row. apply chromium_cookie_total.
Qed.

(** The store of [corrupt_row_world] holds a row whose value cannot be
    decrypted and whose expiry is absent, then [chrome_row]: both give a
    record, the first with an empty value. *)
Lemma export_chromium_cookies_every_row_witness :
  get_encryption_key corrupt_row_world chrome_info = Some peanuts_key
  /\ peanuts_key <> []
  /\ Forall2 (fun row c =>
                chromium_cookie corrupt_row_world chrome_info peanuts_key row
                = Ok c)
             [chrome_row_corrupt; chrome_row]
             (export_chromium_cookies corrupt_row_world chrome_info)
  /\ map (fun c => (name c, value c, expires c, samesite c))
         (export_chromium_cookies corrupt_row_world chrome_info)
     = [ ("broken", "", "Unknown", Some 0);
         ("sid", "sessionid=42", "2025-07-24 22:56:20", Some 1) ].
Proof.
  assert (Hk : get_encryption_key corrupt_row_world chrome_info
               = Some peanuts_key) by reflexivity.
  assert (Hne : peanuts_key <> []) by (vm_compute; discriminate).
  split; [exact Hk |]. split; [exact Hne |].
  split;
    [exact (export_chromium_cookies_every_row corrupt_row_world chrome_info
              peanuts_key [chrome_row_corrupt; chrome_row] Hk Hne eq_refl) |].
  vm_compute. reflexivity.
Defined.

(** ** The keys of the secret stores *)

Lemma linux_items_skip (w : world) (b : browser_info)
                       (items1 items2 : list secret_item) :
  Forall (other_label w b) items1 ->
  linux_items w b (items1 ++ items2) = linux_items w b items2.
Proof.
  induction 1 as [| item items1 (label & Hl & Hc) _ IH]; [reflexivity |].
  cbn [app linux_items]. rewrite Hl. cbn [bind]. now rewrite Hc.
Qed.

Lemma encode_decode_strict (secret : bytes) (password : str) :
  decode_strict secret = Ok password -> encode password = secret.
Proof.
  unfold decode_strict, encode.
  destruct (forallb _ _); [| discriminate].
  intros H. apply Ok_inj in H. subst password.
  apply list_byte_of_string_of_list_byte.
Qed.

(** The first item of the secret service whose label holds the browser's
    name decides the key, and no later item is consulted: when its secret
    can be read and is well-formed UTF-8, the key is derived from the bytes
    of the secret with one iteration; when it cannot be read or is not
    well-formed, the key is the one of the password [peanuts], whatever the
    later items hold. *)
Theorem get_linux_key_first_match
          (w : world) (b : browser_info) (items1 items2 : list secret_item)
          (item : secret_item) (label : str) :
  secret_items w = Ok (items1 ++ item :: items2) ->
  Forall (other_label w b) items1 ->
  get_label item = Ok label ->
  contains (lower w (browser_name b)) (lower w label) = true ->
  (forall secret password,
     get_secret item = Ok secret -> decode_strict secret = Ok password ->
     get_linux_key w b = Some (KDF.pbkdf2_hmac_sha1 secret saltysalt 1 16))
  /\ (forall e, get_secret item = Raise e ->
        get_linux_key w b = Some peanuts_key)
  /\ (forall secret e,
        get_secret item = Ok secret -> decode_strict secret = Raise e ->
        get_linux_key w b = Some peanuts_key).
Proof.
  intros Hs Ho Hl Hc.
  assert (E : get_linux_key w b
              = match (secret <- get_secret item ;;
                       password <- decode_strict secret ;;
                       Ok (Some (KDF.pbkdf2_hmac_sha1 (encode password)
                                   saltysalt 1 16))) with
                | Ok (Some key) => Some key
                | _ => Some peanuts_key
                end).
  { unfold get_linux_key. rewrite Hs. cbn [bind].
    rewrite (linux_items_skip w b items1 (item :: items2) Ho).
    cbn [linux_items]. rewrite Hl. cbn [bind]. rewrite Hc. reflexivity. }
  split; [| split].
  - intros secret password Hsec Hdec. rewrite E, Hsec. cbn [bind].
    rewrite Hdec. cbn [bind].
    now rewrite (encode_decode_strict secret password Hdec).
  - intros e He. rewrite E, He. reflexivity.
  - intros secret e Hsec Hdec. rewrite E, Hsec. cbn [bind].
    rewrite Hdec. reflexivity.
Qed.

(** The secret service of [keyring_world] holds an item of another
    application, then [Chrome Safe Storage] with the secret [s3cret], then a
    second item that names Chrome: the key is derived from [s3cret]. *)
Lemma get_linux_key_first_match_witness :
  get_linux_key keyring_world chrome_info
  = Some (KDF.pbkdf2_hmac_sha1 (encode "s3cret") saltysalt 1 16).
Proof.
  refine (proj1 (get_linux_key_first_match keyring_world chrome_info
                   [ {| get_label := Ok "Mail account";
                        get_secret := Ok (encode "hunter2") |} ]
                   [ {| get_label := Ok "Google Chrome backup";
                        get_secret := Ok (encode "other") |} ]
                   {| get_label := Ok "Chrome Safe Storage";
                      get_secret := Ok (encode "s3cret") |}
                   "Chrome Safe Storage" eq_refl _ eq_refl _)
                (encode "s3cret") "s3cret" eq_refl _).
  - constructor; [| constructor].
    exists "Mail account". split; [reflexivity | vm_compute; reflexivity].
  - vm_compute. reflexivity.
  - vm_compute. reflexivity.
Defined.

(** On Linux a key is always found. It is the key of the password
    [peanuts] when the secret service does not answer, and when the items
    run out, or the label of an item cannot be read, before any label has
    held the browser's name. *)
Theorem get_linux_key_fallback (w : world) (b : browser_info) :
  (exists key, get_linux_key w b = Some key /\ length key = 16%nat)
  /\ (forall e, secret_items w = Raise e ->
        get_linux_key w b = Some peanuts_key)
  /\ (forall items1 items2,
        secret_items w = Ok (items1 ++ items2) ->
        Forall (other_label w b) items1 ->
        items2 = []
        \/ (exists item e rest,
              items2 = item :: rest /\ get_label item = Raise e) ->
        get_linux_key w b = Some peanuts_key).
Proof.
  split; [| split].
  - destruct (get_linux_key w b) as [key |] eqn:E.
    + exists key. split; [reflexivity |].
      exact (get_linux_key_length w b key E).
    + exfalso. revert E. unfold get_linux_key.
      destruct (bind _ _) as [[key |] | e]; discriminate.
  - intros e He. unfold get_linux_key. now rewrite He.
  - intros items1 items2 Hs Ho Hstop. unfold get_linux_key.
    rewrite Hs. cbn [bind]. rewrite (linux_items_skip w b items1 items2 Ho).
    destruct Hstop as [-> | (item & e & rest & -> & He)]; [reflexivity |].
    cbn [linux_items]. now rewrite He.
Qed.

Lemma macos_derive_password (password : option str) (key : bytes) :
  macos_derive password = Some key ->
  exists p,
    password = Some p /\ p <> ""
    /\ key = KDF.pbkdf2_hmac_sha1 (encode p) saltysalt 1003 16.
Proof.
  unfold macos_derive. destruct password as [p |]; [| discriminate].
  destruct (String.eqb_spec p "") as [-> | Hp]; [discriminate |].
  intros H. apply Some_inj in H. exists p. now repeat split.
Qed.

(** On macOS a key is always derived, with 1003 iterations, from a
    password of the keychain that is not empty, found under the service and
    account of the browser in the table or, failing that, under the
    browser's name followed by [ Safe Storage]; an empty password counts as
    none. *)
Theorem get_macos_key_password (w : world) (b : browser_info) (key : bytes) :
  get_macos_key w b = Some key ->
  exists service account password,
    get_keychain_password w service account = Some password
    /\ password <> ""
    /\ key = KDF.pbkdf2_hmac_sha1 (encode password) saltysalt 1003 16
    /\ (lookup (browser_name b) keychain_map = Some (service, account)
        \/ (service = (browser_name b ++ " Safe Storage")%string
            /\ account = browser_name b)).
Proof.
  unfold get_macos_key. intros H.
  destruct (lookup (browser_name b) keychain_map) as [[service account] |] eqn:El.
  - destruct (macos_derive (get_keychain_password w service account))
      as [k |] eqn:Em.
    + apply Some_inj in H. subst k.
      destruct (macos_derive_password _ _ Em) as (p & Hp & Hne & Hk).
      exists service, account, p. split; [exact Hp |]. split; [exact Hne |]. split; [exact Hk |].
      left. reflexivity.
    + destruct (macos_derive_password _ _ H) as (p & Hp & Hne & Hk).
      exists (browser_name b ++ " Safe Storage")%string, (browser_name b), p.
      split; [exact Hp |]. split; [exact Hne |]. split; [exact Hk |].
    right. split; reflexivity.
  - destruct (macos_derive_password _ _ H) as (p & Hp & Hne & Hk).
    exists (browser_name b ++ " Safe Storage")%string, (browser_name b), p.
    split; [exact Hp |]. split; [exact Hne |]. split; [exact Hk |].
    right. split; reflexivity.
Qed.

(** The keychain of [mac_world] holds the password [hunter2] for Chrome. *)
Lemma get_macos_key_password_witness :
  get_macos_key mac_world chrome_info
  = Some (KDF.pbkdf2_hmac_sha1 (encode "hunter2") saltysalt 1003 16)
  /\ exists service account password,
       get_keychain_password mac_world service account = Some password
       /\ password <> ""
       /\ KDF.pbkdf2_hmac_sha1 (encode "hunter2") saltysalt 1003 16
          = KDF.pbkdf2_hmac_sha1 (encode password) saltysalt 1003 16
       /\ (lookup (browser_name chrome_info) keychain_map
           = Some (service, account)
           \/ (service = (browser_name chrome_info ++ " Safe Storage")%string
               /\ account = browser_name chrome_info)).
Proof.
  assert (H : get_macos_key mac_world chrome_info
              = Some (KDF.pbkdf2_hmac_sha1 (encode "hunter2") saltysalt 1003 16))
    by (cbv -[KDF.pbkdf2_hmac_sha1 encode saltysalt]; reflexivity).
  split; [exact H |].
  exact (get_macos_key_password mac_world chrome_info _ H).
Defined.

(** ** Blobs without a marker, and the platforms *)

Lemma system_eqb_eq (a b : system) : system_eqb a b = true <-> a = b.
Proof. destruct a, b; cbn; split; congruence. Qed.

Lemma utf8_step_positive (l : list Z) :
  l <> [] -> (1 <= fst (utf8_step l))%nat.
Proof.
  intros H. unfold utf8_step.
  repeat match goal with
         | |- context [match ?x with _ => _ end] => destruct x
         end; cbn [fst]; try lia; congruence.
Qed.

(** The items of well-formed UTF-8 are its bytes. *)
Lemma utf8_items_well_formed (fuel : nat) (l : bytes) :
  (length l <= fuel)%nat ->
  forallb (fun i => match i with Some _ => true | None => false end)
          (utf8_items fuel l) = true ->
  concat (map (fun i => match i with Some s => s | None => replacement end)
              (utf8_items fuel l)) = l.
Proof.
  revert l. induction fuel as [| fuel IH]; intros l Hlen Hall.
  - destruct l; [reflexivity | cbn in Hlen; lia].
  - destruct l as [| b t]; [reflexivity |].
    cbn [utf8_items] in *.
    pose proof (utf8_step_positive (map b2z (b :: t)) ltac:(discriminate)) as Hn.
    destruct (utf8_step (map b2z (b :: t))) as [n ok]. cbn [fst] in Hn.
    cbn [forallb map concat] in *.
    apply andb_true_iff in Hall as [Hok Hall].
    destruct ok; [| discriminate].
    rewrite IH; trivial.
    + apply firstn_skipn.
    + rewrite length_skipn. cbn [length] in *. lia.
Qed.

(** What decodes strictly is decoded to the same text with replacement. *)
Lemma decode_replace_strict (b : bytes) (s : str) :
  decode_strict b = Ok s -> decode_replace b = s.
Proof.
  unfold decode_strict, decode_replace.
  destruct (forallb _ _) eqn:E; [| discriminate].
  intros H. apply Ok_inj in H. subst s.
  now rewrite utf8_items_well_formed.
Qed.

Lemma decrypt_body_unmarked (w : world) (blob key : bytes) :
  unmarked blob ->
  decrypt_body w blob key
  = if system_eqb (SYSTEM w) Windows then
      match (unprotected <- CryptUnprotectData w blob ;;
             decode_strict unprotected) with
      | Ok s => Ok s
      | Raise _ => Ok (decode_replace blob)
      end
    else Ok (decode_replace blob).
Proof.
  intros [H10 H11]. unfold decrypt_body.
  change (Some 3) with (Some (Z.of_nat 3)). rewrite slice_to.
  apply bytes_eqb_neq in H10, H11. now rewrite H10, H11.
Qed.

(** A blob that is not empty and carries neither marker is never decrypted
    with the key. Off Windows it is decoded as it is, with replacement, so a
    value stored as well-formed UTF-8 is returned unchanged; on Windows the
    data protection service is tried first, and the blob is decoded as it is
    when the service fails or gives bytes that are not well-formed UTF-8. *)
Theorem decrypt_cookie_value_unmarked (w : world) (blob key : bytes) :
  unmarked blob -> blob <> [] -> key <> [] ->
  (SYSTEM w <> Windows ->
     decrypt_cookie_value w blob key = Ok (decode_replace blob)
     /\ forall s, decode_strict blob = Ok s ->
          decrypt_cookie_value w blob key = Ok s)
  /\ (SYSTEM w = Windows ->
        decrypt_cookie_value w blob key
        = match (unprotected <- CryptUnprotectData w blob ;;
                 decode_strict unprotected) with
          | Ok s => Ok s
          | Raise _ => Ok (decode_replace blob)
          end).
Proof.
  intros Hu Hb Hk.
  assert (E : decrypt_cookie_value w blob key
              = try_except (decrypt_body w blob key) (Ok "")).
  { unfold decrypt_cookie_value.
    destruct blob; [now destruct Hb |]. destruct key; [now destruct Hk |].
    reflexivity. }
  rewrite E, (decrypt_body_unmarked w blob key Hu).
  split.
  - intros Hs.
    destruct (system_eqb (SYSTEM w) Windows) eqn:Es;
      [now apply system_eqb_eq in Es |].
    split; [reflexivity |].
    intros s Hd. cbn [try_except]. now rewrite (decode_replace_strict blob s Hd).
  - intros Hs. rewrite Hs. cbn [system_eqb].
    now destruct (bind _ _).
Qed.

(** Off Windows the blob [sessionid=42], stored without a marker, is
    returned unchanged under any key that is not empty. *)
Lemma decrypt_cookie_value_unmarked_witness :
  unmarked (encode "sessionid=42")
  /\ decrypt_cookie_value linux_world (encode "sessionid=42") [x00]
     = Ok "sessionid=42".
Proof.
  assert (Hu : unmarked (encode "sessionid=42")) by (split; discriminate).
  split; [exact Hu |].
  refine (proj2 (proj1 (decrypt_cookie_value_unmarked linux_world
                          (encode "sessionid=42") [x00] Hu _ _) _)
                "sessionid=42" _);
    [discriminate | discriminate | discriminate | vm_compute; reflexivity].
Defined.

(** A blob that carries a marker is decoded in the same way on every
    platform: the platform and its data protection service are consulted
    for blobs without a marker only. *)
Theorem decrypt_cookie_value_marked_anywhere (w1 w2 : world)
                                             (blob key : bytes) :
  firstn 3 blob = v10 \/ firstn 3 blob = v11 ->
  decrypt_cookie_value w1 blob key = decrypt_cookie_value w2 blob key.
Proof.
  intros H. unfold decrypt_cookie_value, decrypt_body.
  replace (slice blob None (Some 3)) with (firstn 3 blob)
    by (symmetry; apply (slice_to blob 3)).
  destruct H as [-> | ->].
  - reflexivity.
  - rewrite v10_is_not_v11. reflexivity.
Qed.

(** [blob_prefixed] decodes to [sessionid=42] on Linux and on a Mac. *)
Lemma decrypt_cookie_value_marked_anywhere_witness :
  (firstn 3 blob_prefixed = v10 \/ firstn 3 blob_prefixed = v11)
  /\ decrypt_cookie_value mac_world blob_prefixed peanuts_key
     = Ok "sessionid=42".
Proof.
  assert (H : firstn 3 blob_prefixed = v10 \/ firstn 3 blob_prefixed = v11)
    by (left; reflexivity).
  split; [exact H |].
  rewrite (decrypt_cookie_value_marked_anywhere mac_world linux_world
             blob_prefixed peanuts_key H).
  vm_compute. reflexivity.
Defined.

(** ** The discovery of the stores *)

Lemma first_cookie_path_some (fs : Discovery.filesystem) (base sub : str)
                             (subpaths : list str) (p : str) :
  Discovery.first_cookie_path fs base sub subpaths = Some p ->
  exists before c after,
    subpaths = before ++ c :: after
    /\ p = Discovery.path_join fs base [sub; c]
    /\ Discovery.path_exists fs p = true
    /\ Forall (fun c' =>
                 Discovery.path_exists fs (Discovery.path_join fs base [sub; c'])
                 = false) before.
Proof.
  induction subpaths as [| c subpaths IH]; [discriminate |].
  cbn [Discovery.first_cookie_path].
  destruct (Discovery.path_exists fs (Discovery.path_join fs base [sub; c]))
    eqn:E.
  - intros H. apply Some_inj in H. subst p.
    exists [], c, subpaths. repeat split; trivial.
  - intros H. destruct (IH H) as (before & c' & after & -> & Hp & He & Hb).
    exists (c :: before), c', after. repeat split; trivial.
    now constructor.
Qed.

Lemma first_cookie_path_found (fs : Discovery.filesystem) (base sub : str)
                              (subpaths : list str) (c : str) :
  In c subpaths ->
  Discovery.path_exists fs (Discovery.path_join fs base [sub; c]) = true ->
  exists p, Discovery.first_cookie_path fs base sub subpaths = Some p.
Proof.
  induction subpaths as [| c' subpaths IH]; [intros [] |].
  intros Hin He. cbn [Discovery.first_cookie_path].
  destruct (Discovery.path_exists fs (Discovery.path_join fs base [sub; c']))
    eqn:E; [eauto |].
  destruct Hin as [-> | Hin]; [congruence | now apply IH].
Qed.

(** Every browser the discovery reports is a browser of the table whose
    directory lies under a base path that exists; its cookie path is the
    first of [Default/Cookies], [Default/Network/Cookies] and [Cookies]
    under that directory that exists. *)
Theorem discover_chromium_browsers_sound
          (sys : system) (fs : Discovery.filesystem) (b : browser_info) :
  In b (Discovery.discover_chromium_browsers sys fs) ->
  exists base sub before c after,
    In base (Discovery.get_browser_base_paths sys fs)
    /\ Discovery.path_exists fs base = true
    /\ In (sub, browser_name b) Discovery.KNOWN_CHROMIUM_BROWSERS
    /\ base_path b = Discovery.path_join fs base [sub]
    /\ Discovery.cookie_subpaths = before ++ c :: after
    /\ cookie_path b = Discovery.path_join fs base [sub; c]
    /\ Discovery.path_exists fs (cookie_path b) = true
    /\ Forall (fun c' =>
                 Discovery.path_exists fs (Discovery.path_join fs base [sub; c'])
                 = false) before.
Proof.
  unfold Discovery.discover_chromium_browsers. intros H.
  apply in_flat_map in H as (base & Hbase & H).
  destruct (Discovery.path_exists fs base) eqn:Eb; [| destruct H].
  unfold Discovery.discover_under in H.
  apply in_flat_map in H as ([sub nm] & Hk & H).
  destruct (Discovery.first_cookie_path fs base sub Discovery.cookie_subpaths)
    as [p |] eqn:Ep; [| destruct H].
  destruct H as [<- | []].
  destruct (first_cookie_path_some fs base sub _ p Ep)
    as (before & c & after & Hs & Hp & He & Hb).
  exists base, sub, before, c, after.
  cbn [browser_name base_path cookie_path].
  repeat split; trivial.
Qed.

(** In [linux_fs] the store of Chrome exists at [Default/Cookies] and at
    [Default/Network/Cookies], and is reported once, at the first. *)
Lemma discover_chromium_browsers_sound_witness :
  Discovery.discover_chromium_browsers Linux linux_fs
  = [chrome_info; chromium_info]
  /\ exists base sub before c after,
       In base (Discovery.get_browser_base_paths Linux linux_fs)
       /\ Discovery.path_exists linux_fs base = true
       /\ In (sub, browser_name chrome_info) Discovery.KNOWN_CHROMIUM_BROWSERS
       /\ base_path chrome_info = Discovery.path_join linux_fs base [sub]
       /\ Discovery.cookie_subpaths = before ++ c :: after
       /\ cookie_path chrome_info = Discovery.path_join linux_fs base [sub; c]
       /\ Discovery.path_exists linux_fs (cookie_path chrome_info) = true
       /\ Forall (fun c' =>
                    Discovery.path_exists linux_fs
                      (Discovery.path_join linux_fs base [sub; c'])
                    = false) before.
Proof.
  assert (E : Discovery.discover_chromium_browsers Linux linux_fs
              = [chrome_info; chromium_info]) by (vm_compute; reflexivity).
  split; [exact E |].
  apply (discover_chromium_browsers_sound Linux linux_fs chrome_info).
  rewrite E. left. reflexivity.
Defined.

(** Every browser of the table that has a cookie file at one of the three
    places under a base path that exists is reported, with its directory
    under that base path. *)
Theorem discover_chromium_browsers_complete
          (sys : system) (fs : Discovery.filesystem)
          (base sub nm c : str) :
  In base (Discovery.get_browser_base_paths sys fs) ->
  Discovery.path_exists fs base = true ->
  In (sub, nm) Discovery.KNOWN_CHROMIUM_BROWSERS ->
  In c Discovery.cookie_subpaths ->
  Discovery.path_exists fs (Discovery.path_join fs base [sub; c]) = true ->
  exists b,
    In b (Discovery.discover_chromium_browsers sys fs)
    /\ browser_name b = nm
    /\ base_path b = Discovery.path_join fs base [sub]
    /\ Discovery.path_exists fs (cookie_path b) = true.
Proof.
  intros Hbase Eb Hk Hc He.
  destruct (first_cookie_path_found fs base sub _ c Hc He) as [p Hp].
  destruct (first_cookie_path_some fs base sub _ p Hp)
    as (_ & _ & _ & _ & _ & Hex & _).
  exists {| browser_name := nm; cookie_path := p;
            base_path := Discovery.path_join fs base [sub] |}.
  cbn [browser_name base_path cookie_path].
  split; [| repeat split; trivial].
  unfold Discovery.discover_chromium_browsers.
  apply in_flat_map. exists base. split; [exact Hbase |]. rewrite Eb.
  unfold Discovery.discover_under.
  apply in_flat_map. exists (sub, nm). split; [exact Hk |].
  rewrite Hp. left. reflexivity.
Qed.

(** The store of Chromium of [linux_fs] exists at the third place only,
    under the directory [chromium], and is reported. *)
Lemma discover_chromium_browsers_complete_witness :
  exists b,
    In b (Discovery.discover_chromium_browsers Linux linux_fs)
    /\ browser_name b = "Chromium"
    /\ base_path b = "/home/u/.config/chromium"
    /\ Discovery.path_exists linux_fs (cookie_path b) = true.
Proof.
  refine (discover_chromium_browsers_complete Linux linux_fs "/home/u/.config"
            "chromium" "Chromium" "Cookies" _ _ _ _ _).
  - left. reflexivity.
  - reflexivity.
  - do 25 right. left. reflexivity.
  - do 2 right. left. reflexivity.
  - reflexivity.
Defined.

(** ** The calendar of the converted times *)

Ltac month_table :=
  cbv [nth Z.to_nat Pos.to_nat Pos.iter_op Nat.add DT.DAYS_IN_MONTH
       DT.DAYS_BEFORE_MONTH DT.b2i Z.eqb Pos.eqb Z.ltb Z.compare Pos.compare
       Pos.compare_cont andb].

Lemma month_day_inverse (leap : bool) (m d : Z) :
  1 <= m <= 12 ->
  1 <= d <= nth (Z.to_nat m) DT.DAYS_IN_MONTH 0 + DT.b2i ((m =? 2) && leap) ->
  let n := nth (Z.to_nat m) DT.DAYS_BEFORE_MONTH 0
           + DT.b2i ((2 <? m) && leap) + d - 1 in
  DT.month_day leap n = (m, d) /\ 0 <= n <= 364 + DT.b2i leap.
Proof.
  intros Hm Hd n.
  assert (H : forallb (month_day_inverse_ok leap) (seq 0 372) = true)
    by (destruct leap; vm_compute; reflexivity).
  rewrite forallb_forall in H.
  assert (Hd31 : d <= 31).
  { assert (nth (Z.to_nat m) DT.DAYS_IN_MONTH 0 <= 31 /\ DT.b2i ((m =? 2) && leap) <= 1 /\ (m = 2 -> nth (Z.to_nat m) DT.DAYS_IN_MONTH 0 = 28)).
    { assert (Hc : m = 1 \/ m = 2 \/ m = 3 \/ m = 4 \/ m = 5 \/ m = 6 \/ m = 7
                 \/ m = 8 \/ m = 9 \/ m = 10 \/ m = 11 \/ m = 12) by lia.
      destruct leap; repeat (destruct Hc as [-> | Hc]); try subst m;
        month_table; lia. }
    destruct (Z.eqb_spec m 2); cbn [andb] in *; [| unfold DT.b2i in *; lia].
    lia. }
  specialize (H (Z.to_nat ((m - 1) * 31 + (d - 1)))
                ltac:(apply in_seq; lia)).
  unfold month_day_inverse_ok in H.
  replace (Z.of_nat (Z.to_nat ((m - 1) * 31 + (d - 1)) / 31 + 1)) with m in H.
  2:{ rewrite Nat2Z.inj_add, Nat2Z.inj_div, Z2Nat.id by lia.
      change (Z.of_nat 31) with 31. change (Z.of_nat 1) with 1.
      Z.div_mod_to_equations. lia. }
  replace (Z.of_nat (Z.to_nat ((m - 1) * 31 + (d - 1)) mod 31 + 1)) with d in H.
  2:{ rewrite Nat2Z.inj_add, Nat2Z.inj_mod, Z2Nat.id by lia.
      change (Z.of_nat 31) with 31. change (Z.of_nat 1) with 1.
      Z.div_mod_to_equations. lia. }
  fold n in H.
  destruct (Z.leb_spec d (nth (Z.to_nat m) DT.DAYS_IN_MONTH 0
                          + DT.b2i ((m =? 2) && leap))) as [_ | Hgt]; [| lia].
  cbn [negb orb] in H. apply andb_true_iff in H as [H Hn].
  destruct (DT.month_day leap n) as [m' d'].
  apply andb_true_iff in H as [H1 H2].
  apply Z.eqb_eq in H1, H2. apply Z.leb_le in Hn. subst.
  split; [reflexivity |]. split; [| exact Hn].
  unfold n.
  assert (0 <= nth (Z.to_nat m) DT.DAYS_BEFORE_MONTH 0).
  { assert (Hc : m = 1 \/ m = 2 \/ m = 3 \/ m = 4 \/ m = 5 \/ m = 6 \/ m = 7
                 \/ m = 8 \/ m = 9 \/ m = 10 \/ m = 11 \/ m = 12) by lia.
    repeat (destruct Hc as [-> | Hc]); try subst m; month_table; lia. }
  unfold DT.b2i. destruct ((2 <? m) && leap); lia.
Qed.

Lemma is_leap_cycle (y a b c e : Z) :
  y - 1 = 400 * a + 100 * b + 4 * c + e ->
  0 <= b < 4 -> 0 <= c < 25 -> 0 <= e < 4 ->
  DT.is_leap y = (e =? 3) && (negb (c =? 24) || (b =? 3)).
Proof.
  intros Hy Hb Hc He. unfold DT.is_leap.
  destruct (Z.eqb_spec (y mod 4) 0) as [H4 | H4];
    destruct (Z.eqb_spec (y mod 100) 0) as [H100 | H100];
    destruct (Z.eqb_spec (y mod 400) 0) as [H400 | H400];
    destruct (Z.eqb_spec e 3) as [E3 | E3];
    destruct (Z.eqb_spec c 24) as [C24 | C24];
    destruct (Z.eqb_spec b 3) as [B3 | B3];
    cbn; trivial; exfalso; revert H4 H100 H400;
    Z.div_mod_to_equations; lia.
Qed.

Lemma days_before_year_cycle (y a b c e : Z) :
  y - 1 = 400 * a + 100 * b + 4 * c + e ->
  0 <= b < 4 -> 0 <= c < 25 -> 0 <= e < 4 ->
  DT.days_before_year y = 146097 * a + 36524 * b + 1461 * c + 365 * e.
Proof.
  intros Hy Hb Hc He. unfold DT.days_before_year. cbv zeta.
  Z.div_mod_to_equations. lia.
Qed.

Lemma year_cycle (y : Z) :
  exists a b c e,
    y - 1 = 400 * a + 100 * b + 4 * c + e
    /\ 0 <= b < 4 /\ 0 <= c < 25 /\ 0 <= e < 4.
Proof.
  exists ((y - 1) / 400), ((y - 1) mod 400 / 100),
         ((y - 1) mod 100 / 4), ((y - 1) mod 4).
  Z.div_mod_to_equations. lia.
Qed.

(** The date of the ordinal of a date is that date. *)
Lemma ord2ymd_ymd2ord (y m d : Z) :
  valid_date y m d -> DT.ord2ymd (DT.ymd2ord y m d) = (y, m, d).
Proof.
  intros (Hy & Hm & Hd). unfold days_in_month in Hd.
  destruct (year_cycle y) as (a & b & c & e & Ey & Hb & Hc & He).
  pose proof (is_leap_cycle y a b c e Ey Hb Hc He) as El.
  pose proof (days_before_year_cycle y a b c e Ey Hb Hc He) as Ed.
  destruct (month_day_inverse (DT.is_leap y) m d Hm Hd) as [Emd Hk].
  unfold DT.ymd2ord, DT.days_before_month. rewrite Ed.
  set (k := nth (Z.to_nat m) DT.DAYS_BEFORE_MONTH 0
            + DT.b2i ((2 <? m) && DT.is_leap y) + d - 1) in *.
  replace (146097 * a + 36524 * b + 1461 * c + 365 * e
           + (nth (Z.to_nat m) DT.DAYS_BEFORE_MONTH 0
              + DT.b2i ((2 <? m) && DT.is_leap y)) + d)
    with (146097 * a + 36524 * b + 1461 * c + 365 * e + k + 1)
    by (unfold k; lia).
  clearbody k.
  unfold DT.ord2ymd, DT.DI400Y, DT.DI100Y, DT.DI4Y. cbv zeta.
  set (n := 146097 * a + 36524 * b + 1461 * c + 365 * e + k + 1) in *.
  set (n400 := (n - 1) / 146097). set (r1 := (n - 1) mod 146097).
  set (n100 := r1 / 36524). set (r2 := r1 mod 36524).
  set (n4 := r2 / 1461). set (r3 := r2 mod 1461).
  set (n1 := r3 / 365). set (r4 := r3 mod 365).
  assert (H1 : n - 1 = 146097 * n400 + r1 /\ 0 <= r1 < 146097)
    by (unfold n400, r1; split; [apply Z.div_mod | apply Z.mod_pos_bound]; lia).
  assert (H2 : r1 = 36524 * n100 + r2 /\ 0 <= r2 < 36524)
    by (unfold n100, r2; split; [apply Z.div_mod | apply Z.mod_pos_bound]; lia).
  assert (H3 : r2 = 1461 * n4 + r3 /\ 0 <= r3 < 1461)
    by (unfold n4, r3; split; [apply Z.div_mod | apply Z.mod_pos_bound]; lia).
  assert (H4 : r3 = 365 * n1 + r4 /\ 0 <= r4 < 365)
    by (unfold n1, r4; split; [apply Z.div_mod | apply Z.mod_pos_bound]; lia).
  clearbody n400 r1 n100 r2 n4 r3 n1 r4. unfold n in H1. clear n.
  assert (Hleap : DT.b2i (DT.is_leap y) = 1 -> e = 3 /\ (c <> 24 \/ b = 3)).
  { rewrite El. destruct (Z.eqb_spec e 3); destruct (Z.eqb_spec c 24);
      destruct (Z.eqb_spec b 3); cbn; lia. }
  assert (Hnot : DT.b2i (DT.is_leap y) = 0 \/ DT.b2i (DT.is_leap y) = 1)
    by (destruct (DT.is_leap y); cbn; lia).
  assert (E400 : n400 = a) by lia.
  subst n400.
  destruct (Z.eq_dec k 365) as [K | K].
  - (* the last day of a leap year *)
    assert (Hl : DT.is_leap y = true)
      by (destruct (DT.is_leap y); [trivial | cbn in Hk; lia]).
    rewrite Hl in *. cbn [DT.b2i] in *.
    assert (Emd' : (m, d) = (12, 31)).
    { rewrite K in Emd. rewrite <- Emd. vm_compute. reflexivity. }
    apply pair_equal_spec in Emd' as [-> ->].
    destruct ((n1 =? 4) || (n100 =? 4)) eqn:E.
    + f_equal. f_equal.
      apply orb_true_iff in E. rewrite !Z.eqb_eq in E. lia.
    + apply orb_false_iff in E. rewrite !Z.eqb_neq in E. lia.
  - destruct ((n1 =? 4) || (n100 =? 4)) eqn:E.
    + apply orb_true_iff in E. rewrite !Z.eqb_eq in E. lia.
    + assert (Hk' : 0 <= k <= 364) by lia.
      assert (E1 : r1 = 36524 * b + 1461 * c + 365 * e + k) by lia.
      destruct (Z.div_mod_unique 36524 n100 b r2 (1461 * c + 365 * e + k))
        as [-> E2]; [lia | lia | lia |].
      destruct (Z.div_mod_unique 1461 n4 c r3 (365 * e + k))
        as [-> E3]; [lia | lia | lia |].
      destruct (Z.div_mod_unique 365 n1 e r4 k)
        as [-> ->]; [lia | lia | lia |].
      rewrite <- El, Emd. f_equal. f_equal. lia.
Qed.

Lemma ymd2ord_bounds (y m d : Z) :
  valid_date y m d -> 1 <= DT.ymd2ord y m d <= DT.MAXORDINAL.
Proof.
  intros (Hy & Hm & Hd). unfold days_in_month in Hd.
  destruct (month_day_inverse (DT.is_leap y) m d Hm Hd) as [_ Hk].
  unfold DT.ymd2ord, DT.days_before_month, DT.MAXORDINAL.
  set (k := nth (Z.to_nat m) DT.DAYS_BEFORE_MONTH 0
            + DT.b2i ((2 <? m) && DT.is_leap y) + d - 1) in *.
  assert (Hl : y = 9999 -> DT.b2i (DT.is_leap y) = 0) by (now intros ->).
  assert (Hb : DT.b2i (DT.is_leap y) = 0 \/ DT.b2i (DT.is_leap y) = 1)
    by (destruct (DT.is_leap y); cbn; lia).
  replace (DT.days_before_year y
           + (nth (Z.to_nat m) DT.DAYS_BEFORE_MONTH 0
              + DT.b2i ((2 <? m) && DT.is_leap y)) + d)
    with (DT.days_before_year y + k + 1) by (unfold k; lia).
  clearbody k. unfold DT.days_before_year. cbv zeta.
  Z.div_mod_to_equations. lia.
Qed.

(** The format of a time that is a date and a time of the day *)
Lemma strftime_calendar (pads : bool) (y m d hh mm ss us : Z) :
  valid_date y m d -> valid_time hh mm ss -> 0 <= us < 1000000 ->
  DT.strftime pads
    (DT.datetime y m d + seconds_of_day hh mm ss * 1000000 + us)
  = show_time pads y m d hh mm ss.
Proof.
  intros Hd (Hh & Hmi & Hs) Hus. unfold DT.strftime, DT.datetime.
  set (o := DT.ymd2ord y m d). set (s := seconds_of_day hh mm ss).
  assert (Hsec : 0 <= s < 86400) by (unfold s, seconds_of_day; lia).
  assert (E1 : (o * DT.us_per_day + s * 1000000 + us) / DT.us_per_day = o)
    by (unfold DT.us_per_day; Z.div_mod_to_equations; lia).
  assert (E2 : (o * DT.us_per_day + s * 1000000 + us) mod DT.us_per_day
               / 1000000 = s)
    by (unfold DT.us_per_day; Z.div_mod_to_equations; lia).
  rewrite E1, E2. unfold o. rewrite (ord2ymd_ymd2ord y m d Hd).
  unfold show_time.
  replace (s / 3600) with hh
    by (unfold s, seconds_of_day; Z.div_mod_to_equations; lia).
  replace (s / 60 mod 60) with mm
    by (unfold s, seconds_of_day; Z.div_mod_to_equations; lia).
  replace (s mod 60) with ss
    by (unfold s, seconds_of_day; Z.div_mod_to_equations; lia).
  reflexivity.
Qed.

Lemma valid_calendar (y m d hh mm ss us : Z) :
  valid_date y m d -> valid_time hh mm ss -> 0 <= us < 1000000 ->
  DT.valid (DT.datetime y m d + seconds_of_day hh mm ss * 1000000 + us) = true.
Proof.
  intros Hd (Hh & Hmi & Hs) Hus. unfold DT.valid, DT.datetime.
  pose proof (ymd2ord_bounds y m d Hd) as Ho.
  set (o := DT.ymd2ord y m d) in *. set (s := seconds_of_day hh mm ss).
  assert (Hsec : 0 <= s < 86400) by (unfold s, seconds_of_day; lia).
  assert (E1 : (o * DT.us_per_day + s * 1000000 + us) / DT.us_per_day = o)
    by (unfold DT.us_per_day; Z.div_mod_to_equations; lia).
  rewrite E1. apply andb_true_iff. split; apply Z.leb_le; lia.
Qed.

(** A Chrome timestamp other than 0 is shown as the date and the time of
    the day that lie that many microseconds after 1601-01-01 00:00:00 in the
    proleptic Gregorian calendar, the microseconds of the last second
    dropped. *)
Theorem chrome_timestamp_calendar (w : world) (y m d hh mm ss us : Z) :
  valid_date y m d -> valid_time hh mm ss -> 0 <= us < 1000000 ->
  let t := DT.datetime y m d + seconds_of_day hh mm ss * 1000000 + us
           - DT.datetime 1601 1 1 in
  t <> 0 ->
  chrome_timestamp_to_datetime w (Some t)
  = Ok (show_time (pads_year w) y m d hh mm ss).
Proof.
  intros Hd Ht Hus t Hne. rewrite (chrome_conversion w t Hne).
  replace (DT.datetime 1601 1 1 + t)
    with (DT.datetime y m d + seconds_of_day hh mm ss * 1000000 + us)
    by (unfold t; lia).
  rewrite (valid_calendar y m d hh mm ss us Hd Ht Hus).
  now rewrite (strftime_calendar (pads_year w) y m d hh mm ss us Hd Ht Hus).
Qed.


(** The timestamp 13253932800123456 lies 123456 microseconds after the
    start of 2021-01-01. *)
Lemma chrome_timestamp_calendar_witness :
  valid_date 2021 1 1 /\ valid_time 0 0 0
  /\ chrome_timestamp_to_datetime linux_world (Some 13253932800123456)
     = Ok "2021-01-01 00:00:00".
Proof.
  assert (Hd : valid_date 2021 1 1)
    by (unfold valid_date; repeat split; try lia; vm_compute; discriminate).
  assert (Ht : valid_time 0 0 0) by (unfold valid_time; lia).
  split; [exact Hd |]. split; [exact Ht |].
  pose proof (chrome_timestamp_calendar linux_world 2021 1 1 0 0 0 123456
                Hd Ht ltac:(lia)) as H.
  cbv zeta in H.
  assert (E : DT.datetime 2021 1 1 + seconds_of_day 0 0 0 * 1000000 + 123456
              - DT.datetime 1601 1 1 = 13253932800123456)
    by (vm_compute; reflexivity).
  assert (S : show_time (pads_year linux_world) 2021 1 1 0 0 0
              = "2021-01-01 00:00:00") by (vm_compute; reflexivity).
  rewrite E, S in H. apply H. discriminate.
Defined.


(** * The cipher and the envelopes *)

(** ** Bytes *)

Lemma byte_okb_ok (z : Z) : byte_okb z = true <-> byte_ok z.
Proof. unfold byte_okb, byte_ok. lia. Qed.

(** A property checked on the 256 values holds of every byte. *)
Lemma byte_values_forall (P : Z -> bool) :
  forallb P AES.byte_values = true -> forall a, byte_ok a -> P a = true.
Proof.
  intros H a Ha. rewrite forallb_forall in H. apply H.
  unfold AES.byte_values. apply in_map_iff. exists (Z.to_nat a).
  split; [unfold byte_ok in Ha; lia |]. apply in_seq. unfold byte_ok in Ha. lia.
Qed.

Lemma lxor_byte (a b : Z) : byte_ok a -> byte_ok b -> byte_ok (Z.lxor a b).
Proof.
  unfold byte_ok. intros Ha Hb.
  assert (Hn : 0 <= Z.lxor a b) by (apply Z.lxor_nonneg; lia).
  split; [exact Hn |].
  destruct (Z.eq_dec (Z.lxor a b) 0) as [-> | Hz]; [lia |].
  change 256 with (2 ^ 8). apply Z.log2_lt_pow2; [lia |].
  pose proof (Z.log2_lxor a b ltac:(lia) ltac:(lia)) as Hl.
  assert (La : Z.log2 a < 8).
  { destruct (Z.eq_dec a 0) as [-> | Hna]; [cbn; lia |].
    apply Z.log2_lt_pow2; lia. }
  assert (Lb : Z.log2 b < 8).
  { destruct (Z.eq_dec b 0) as [-> | Hnb]; [cbn; lia |].
    apply Z.log2_lt_pow2; lia. }
  lia.
Qed.

Lemma z2b_b2z (b : byte) : z2b (b2z b) = b.
Proof.
  unfold z2b. pose proof (b2z_range b) as Hr.
  rewrite Z.mod_small by exact Hr. unfold b2z.
  now rewrite N2Z.id, Byte.of_to_N.
Qed.

Lemma b2z_z2b (z : Z) : byte_ok z -> b2z (z2b z) = z.
Proof.
  unfold byte_ok, z2b, b2z. intros Hz. rewrite Z.mod_small by exact Hz.
  destruct (Byte.of_N (Z.to_N z)) as [b |] eqn:E.
  - apply Byte.to_of_N in E. rewrite E. lia.
  - apply Byte.of_N_None_iff in E. lia.
Qed.

Lemma map_z2b_b2z (l : bytes) : map z2b (map b2z l) = l.
Proof.
  induction l as [| b l IH]; [reflexivity |].
  cbn [map]. now rewrite z2b_b2z, IH.
Qed.

Lemma map_b2z_z2b (l : list Z) :
  Forall byte_ok l -> map b2z (map z2b l) = l.
Proof.
  induction 1 as [| z l Hz _ IH]; [reflexivity |].
  cbn [map]. now rewrite b2z_z2b, IH.
Qed.

Lemma map_b2z_ok (l : bytes) : Forall byte_ok (map b2z l).
Proof.
  apply Forall_forall. intros z Hz.
  apply in_map_iff in Hz as (b & <- & _). apply b2z_range.
Qed.

Lemma xor_list_ok (a b : list Z) :
  Forall byte_ok a -> Forall byte_ok b -> Forall byte_ok (AES.xor_list a b).
Proof.
  intros Ha. revert b. induction Ha as [| x a Hx _ IH]; intros b Hb;
    [constructor |].
  destruct Hb as [| y b Hy Hb]; [constructor |].
  cbn [AES.xor_list]. constructor; [now apply lxor_byte | now apply IH].
Qed.

(** Adding the same key twice gives the state back. *)
Lemma xor_list_twice (a b : list Z) :
  (length a <= length b)%nat -> AES.xor_list (AES.xor_list a b) b = a.
Proof.
  revert b. induction a as [| x a IH]; intros b H; [reflexivity |].
  destruct b as [| y b]; [cbn in H; lia |].
  cbn [AES.xor_list]. rewrite Z.lxor_assoc, Z.lxor_nilpotent, Z.lxor_0_r.
  rewrite IH; [reflexivity | cbn in H; lia].
Qed.

Lemma xor_list_block (n : nat) (a b : list Z) :
  block_ok n a -> block_ok n b -> block_ok n (AES.xor_list a b).
Proof.
  intros [La Ha] [Lb Hb]. split; [| now apply xor_list_ok].
  rewrite xor_list_length, La, Lb. apply Nat.min_id.
Qed.

(** ** The substitution box and the rows *)

Lemma nth_table_ok (table : list Z) (i : nat) :
  forallb byte_okb table = true -> byte_ok (nth i table 0).
Proof.
  intros H. rewrite forallb_forall in H.
  destruct (Nat.lt_ge_cases i (length table)) as [Hi | Hi].
  - apply byte_okb_ok, H, nth_In, Hi.
  - rewrite nth_overflow by exact Hi. unfold byte_ok. lia.
Qed.

Lemma sbox_ok (a : Z) : byte_ok (AES.sbox a).
Proof. apply nth_table_ok. vm_compute. reflexivity. Qed.

Lemma inv_sbox_ok (a : Z) : byte_ok (AES.inv_sbox a).
Proof. apply nth_table_ok. vm_compute. reflexivity. Qed.

Lemma inv_sbox_sbox (a : Z) : byte_ok a -> AES.inv_sbox (AES.sbox a) = a.
Proof.
  intros Ha. apply Z.eqb_eq.
  apply (byte_values_forall (fun a => AES.inv_sbox (AES.sbox a) =? a));
    [vm_compute; reflexivity | exact Ha].
Qed.

Lemma map_sbox_ok (s : list Z) : Forall byte_ok (map AES.sbox s).
Proof.
  apply Forall_forall. intros z Hz.
  apply in_map_iff in Hz as (a & <- & _). apply sbox_ok.
Qed.

Lemma map_inv_sbox_sbox (s : list Z) :
  Forall byte_ok s -> map AES.inv_sbox (map AES.sbox s) = s.
Proof.
  induction 1 as [| a s Ha _ IH]; [reflexivity |].
  cbn [map]. now rewrite inv_sbox_sbox, IH.
Qed.

Lemma at_ok (s : list Z) (i : nat) : Forall byte_ok s -> byte_ok (AES.at_ s i).
Proof.
  intros H. unfold AES.at_.
  destruct (Nat.lt_ge_cases i (length s)) as [Hi | Hi].
  - rewrite Forall_forall in H. apply H, nth_In, Hi.
  - rewrite nth_overflow by exact Hi. unfold byte_ok. lia.
Qed.

Lemma shift_rows_block (s : list Z) :
  Forall byte_ok s -> block_ok 16 (AES.shift_rows s).
Proof.
  intros H. unfold AES.shift_rows. split.
  - now rewrite length_map, length_seq.
  - apply Forall_forall. intros z Hz.
    apply in_map_iff in Hz as (i & <- & _). now apply at_ok.
Qed.

Lemma inv_shift_rows_shift_rows (s : list Z) :
  length s = 16%nat -> AES.inv_shift_rows (AES.shift_rows s) = s.
Proof.
  intros H.
  do 16 (destruct s as [| ? s]; [discriminate H |]).
  destruct s; [reflexivity | discriminate H].
Qed.

(** ** The columns *)

Ltac xor_bits :=
  apply Z.bits_inj'; intros ?n _; rewrite ?Z.lxor_spec, ?Z.bits_0; btauto.

Lemma lxor_interchange (a b c d : Z) :
  Z.lxor (Z.lxor a b) (Z.lxor c d) = Z.lxor (Z.lxor a c) (Z.lxor b d).
Proof. xor_bits. Qed.

(** The sum of the rows of a square of 16 values is the sum of its
    columns. *)
Lemma lxor_transpose (a0 a1 a2 a3 b0 b1 b2 b3 c0 c1 c2 c3 d0 d1 d2 d3 : Z) :
  Z.lxor (Z.lxor (Z.lxor (Z.lxor a0 a1) (Z.lxor a2 a3))
                 (Z.lxor (Z.lxor b0 b1) (Z.lxor b2 b3)))
         (Z.lxor (Z.lxor (Z.lxor c0 c1) (Z.lxor c2 c3))
                 (Z.lxor (Z.lxor d0 d1) (Z.lxor d2 d3)))
  = Z.lxor (Z.lxor (Z.lxor (Z.lxor a0 b0) (Z.lxor c0 d0))
                   (Z.lxor (Z.lxor a1 b1) (Z.lxor c1 d1)))
           (Z.lxor (Z.lxor (Z.lxor a2 b2) (Z.lxor c2 d2))
                   (Z.lxor (Z.lxor a3 b3) (Z.lxor c3 d3))).
Proof. xor_bits. Qed.

(** The product by a constant distributes over the sum. *)
Lemma gmul_aux_lxor (n : nat) (a x y : Z) :
  AES.gmul_aux n a (Z.lxor x y)
  = Z.lxor (AES.gmul_aux n a x) (AES.gmul_aux n a y).
Proof.
  revert a x y. induction n as [| n IH]; intros a x y; [reflexivity |].
  cbn [AES.gmul_aux].
  rewrite !Z.div2_spec, Z.shiftr_lxor, IH, <- !Z.bit0_odd, Z.lxor_spec.
  destruct (Z.testbit x 0), (Z.testbit y 0); cbn [xorb]; xor_bits.
Qed.

Lemma gmul_lxor (a x y : Z) :
  AES.gmul a (Z.lxor x y) = Z.lxor (AES.gmul a x) (AES.gmul a y).
Proof. apply gmul_aux_lxor. Qed.

Lemma gmul_lxor4 (a x y z t : Z) :
  AES.gmul a (Z.lxor (Z.lxor x y) (Z.lxor z t))
  = Z.lxor (Z.lxor (AES.gmul a x) (AES.gmul a y))
           (Z.lxor (AES.gmul a z) (AES.gmul a t)).
Proof. now rewrite !gmul_lxor. Qed.

Lemma mix_coefficients (a : Z) :
  byte_ok a ->
  Z.lxor (Z.lxor (AES.gmul 14 (AES.gmul 2 a)) (AES.gmul 11 a)) (Z.lxor (AES.gmul 13 a) (AES.gmul 9 (AES.gmul 3 a))) = a
  /\ Z.lxor (Z.lxor (AES.gmul 14 (AES.gmul 3 a)) (AES.gmul 11 (AES.gmul 2 a))) (Z.lxor (AES.gmul 13 a) (AES.gmul 9 a)) = 0
  /\ Z.lxor (Z.lxor (AES.gmul 14 a) (AES.gmul 11 (AES.gmul 3 a))) (Z.lxor (AES.gmul 13 (AES.gmul 2 a)) (AES.gmul 9 a)) = 0
  /\ Z.lxor (Z.lxor (AES.gmul 14 a) (AES.gmul 11 a)) (Z.lxor (AES.gmul 13 (AES.gmul 3 a)) (AES.gmul 9 (AES.gmul 2 a))) = 0
  /\ Z.lxor (Z.lxor (AES.gmul 9 (AES.gmul 2 a)) (AES.gmul 14 a)) (Z.lxor (AES.gmul 11 a) (AES.gmul 13 (AES.gmul 3 a))) = 0
  /\ Z.lxor (Z.lxor (AES.gmul 9 (AES.gmul 3 a)) (AES.gmul 14 (AES.gmul 2 a))) (Z.lxor (AES.gmul 11 a) (AES.gmul 13 a)) = a
  /\ Z.lxor (Z.lxor (AES.gmul 9 a) (AES.gmul 14 (AES.gmul 3 a))) (Z.lxor (AES.gmul 11 (AES.gmul 2 a)) (AES.gmul 13 a)) = 0
  /\ Z.lxor (Z.lxor (AES.gmul 9 a) (AES.gmul 14 a)) (Z.lxor (AES.gmul 11 (AES.gmul 3 a)) (AES.gmul 13 (AES.gmul 2 a))) = 0
  /\ Z.lxor (Z.lxor (AES.gmul 13 (AES.gmul 2 a)) (AES.gmul 9 a)) (Z.lxor (AES.gmul 14 a) (AES.gmul 11 (AES.gmul 3 a))) = 0
  /\ Z.lxor (Z.lxor (AES.gmul 13 (AES.gmul 3 a)) (AES.gmul 9 (AES.gmul 2 a))) (Z.lxor (AES.gmul 14 a) (AES.gmul 11 a)) = 0
  /\ Z.lxor (Z.lxor (AES.gmul 13 a) (AES.gmul 9 (AES.gmul 3 a))) (Z.lxor (AES.gmul 14 (AES.gmul 2 a)) (AES.gmul 11 a)) = a
  /\ Z.lxor (Z.lxor (AES.gmul 13 a) (AES.gmul 9 a)) (Z.lxor (AES.gmul 14 (AES.gmul 3 a)) (AES.gmul 11 (AES.gmul 2 a))) = 0
  /\ Z.lxor (Z.lxor (AES.gmul 11 (AES.gmul 2 a)) (AES.gmul 13 a)) (Z.lxor (AES.gmul 9 a) (AES.gmul 14 (AES.gmul 3 a))) = 0
  /\ Z.lxor (Z.lxor (AES.gmul 11 (AES.gmul 3 a)) (AES.gmul 13 (AES.gmul 2 a))) (Z.lxor (AES.gmul 9 a) (AES.gmul 14 a)) = 0
  /\ Z.lxor (Z.lxor (AES.gmul 11 a) (AES.gmul 13 (AES.gmul 3 a))) (Z.lxor (AES.gmul 9 (AES.gmul 2 a)) (AES.gmul 14 a)) = 0
  /\ Z.lxor (Z.lxor (AES.gmul 11 a) (AES.gmul 13 a)) (Z.lxor (AES.gmul 9 (AES.gmul 3 a)) (AES.gmul 14 (AES.gmul 2 a))) = a.
Proof.
  intros Ha.
  pose proof (byte_values_forall mix_coefficients_ok
                ltac:(vm_compute; reflexivity) a Ha) as H.
  unfold mix_coefficients_ok in H.
  rewrite !andb_true_iff, !Z.eqb_eq in H. tauto.
Qed.

Lemma inv_mix_column_mix_column (a0 a1 a2 a3 : Z) :
  byte_ok a0 -> byte_ok a1 -> byte_ok a2 -> byte_ok a3 ->
  AES.inv_mix_column (AES.mix_column [a0; a1; a2; a3]) = [a0; a1; a2; a3].
Proof.
  intros H0 H1 H2 H3. cbv [AES.inv_mix_column AES.mix_column].
  rewrite !gmul_lxor4.
  pose proof (mix_coefficients a0 H0) as E0.
  pose proof (mix_coefficients a1 H1) as E1.
  pose proof (mix_coefficients a2 H2) as E2.
  pose proof (mix_coefficients a3 H3) as E3.
  repeat match goal with H : _ /\ _ |- _ => destruct H end.
  repeat f_equal; rewrite lxor_transpose;
    repeat match goal with
           | H : Z.lxor _ _ = _ |- _ => try rewrite H; clear H
           end;
    now rewrite ?Z.lxor_0_r, ?Z.lxor_0_l.
Qed.

Lemma gmul_2_3_ok (a : Z) :
  byte_ok a -> byte_ok (AES.gmul 2 a) /\ byte_ok (AES.gmul 3 a).
Proof.
  intros Ha.
  pose proof (byte_values_forall
                (fun a => byte_okb (AES.gmul 2 a) && byte_okb (AES.gmul 3 a))
                ltac:(vm_compute; reflexivity) a Ha) as H.
  cbv beta in H. apply andb_true_iff in H as [H2 H3].
  split; now apply byte_okb_ok.
Qed.

Lemma mix_column_block (a0 a1 a2 a3 : Z) :
  byte_ok a0 -> byte_ok a1 -> byte_ok a2 -> byte_ok a3 ->
  block_ok 4 (AES.mix_column [a0; a1; a2; a3]).
Proof.
  intros H0 H1 H2 H3.
  destruct (gmul_2_3_ok a0 H0), (gmul_2_3_ok a1 H1), (gmul_2_3_ok a2 H2),
    (gmul_2_3_ok a3 H3).
  split; [reflexivity |].
  cbv [AES.mix_column].
  repeat (apply Forall_cons; [repeat first [assumption | apply lxor_byte] |]).
  apply Forall_nil.
Qed.

Ltac sixteen s H :=
  destruct H as [Hlen H];
  do 16 (destruct s as [| ? s]; [discriminate Hlen |]);
  (destruct s; [| discriminate Hlen]);
  repeat match goal with
         | H : Forall byte_ok (_ :: _) |- _ =>
           apply Forall_cons_iff in H as [? H]
         end.

Lemma mix_columns_block (s : list Z) :
  block_ok 16 s -> block_ok 16 (AES.mix_columns s).
Proof.
  intros H. sixteen s H.
  change (AES.mix_columns [z; z0; z1; z2; z3; z4; z5; z6; z7; z8; z9; z10;
                            z11; z12; z13; z14])
    with (AES.mix_column [z; z0; z1; z2] ++ AES.mix_column [z3; z4; z5; z6]
          ++ AES.mix_column [z7; z8; z9; z10]
          ++ AES.mix_column [z11; z12; z13; z14]).
  destruct (mix_column_block z z0 z1 z2) as [L0 F0]; trivial.
  destruct (mix_column_block z3 z4 z5 z6) as [L1 F1]; trivial.
  destruct (mix_column_block z7 z8 z9 z10) as [L2 F2]; trivial.
  destruct (mix_column_block z11 z12 z13 z14) as [L3 F3]; trivial.
  split.
  - rewrite !length_app, L0, L1, L2, L3. reflexivity.
  - repeat (apply Forall_app; split); assumption.
Qed.

Lemma inv_mix_columns_mix_columns (s : list Z) :
  block_ok 16 s -> AES.inv_mix_columns (AES.mix_columns s) = s.
Proof.
  intros H. sixteen s H.
  change (AES.inv_mix_columns
            (AES.mix_columns [z; z0; z1; z2; z3; z4; z5; z6; z7; z8; z9; z10;
                              z11; z12; z13; z14]))
    with (AES.inv_mix_column (AES.mix_column [z; z0; z1; z2])
          ++ AES.inv_mix_column (AES.mix_column [z3; z4; z5; z6])
          ++ AES.inv_mix_column (AES.mix_column [z7; z8; z9; z10])
          ++ AES.inv_mix_column (AES.mix_column [z11; z12; z13; z14]) ++ []).
  rewrite !inv_mix_column_mix_column by assumption. reflexivity.
Qed.

(** ** The rounds *)

Lemma encrypt_round_block (s rk : list Z) :
  block_ok 16 rk -> block_ok 16 (AES.encrypt_round s rk).
Proof.
  intros Hrk. unfold AES.encrypt_round.
  apply xor_list_block; [| exact Hrk].
  apply mix_columns_block, shift_rows_block, map_sbox_ok.
Qed.

Lemma fold_encrypt_round_block (rks : list (list Z)) (s : list Z) :
  Forall (block_ok 16) rks -> block_ok 16 s ->
  block_ok 16 (fold_left AES.encrypt_round rks s).
Proof.
  intros H. revert s. induction H as [| rk rks Hrk _ IH]; intros s Hs;
    [exact Hs |].
  cbn [fold_left]. apply IH. now apply encrypt_round_block.
Qed.

(** A round of the inverse cipher undoes a round of the cipher. *)
Lemma decrypt_round_encrypt_round (s rk : list Z) :
  block_ok 16 rk ->
  AES.decrypt_round
    (AES.shift_rows (map AES.sbox (AES.encrypt_round s rk))) rk
  = AES.shift_rows (map AES.sbox s).
Proof.
  intros Hrk. unfold AES.decrypt_round.
  pose proof (encrypt_round_block s rk Hrk) as [He Hb].
  rewrite inv_shift_rows_shift_rows by (now rewrite length_map).
  rewrite map_inv_sbox_sbox by exact Hb.
  unfold AES.encrypt_round.
  pose proof (mix_columns_block (AES.shift_rows (map AES.sbox s))
                (shift_rows_block _ (map_sbox_ok s))) as [Hm _].
  rewrite xor_list_twice by (destruct Hrk as [-> _]; rewrite Hm; lia).
  apply inv_mix_columns_mix_columns, shift_rows_block, map_sbox_ok.
Qed.

Lemma fold_decrypt_round_encrypt_round (rks : list (list Z)) (s : list Z) :
  Forall (block_ok 16) rks ->
  fold_left AES.decrypt_round (rev rks)
    (AES.shift_rows (map AES.sbox (fold_left AES.encrypt_round rks s)))
  = AES.shift_rows (map AES.sbox s).
Proof.
  revert s. induction rks as [| rk rks IH] using rev_ind; intros s H;
    [reflexivity |].
  apply Forall_app in H as [Hrks Hrk].
  apply Forall_cons_iff in Hrk as [Hrk _].
  rewrite fold_left_app, rev_app_distr. cbn [rev app fold_left].
  rewrite decrypt_round_encrypt_round by exact Hrk.
  now apply IH.
Qed.

Lemma round_keys_split (rks : list (list Z)) :
  (2 <= length rks)%nat ->
  exists rk0 middle rkn, rks = rk0 :: middle ++ [rkn].
Proof.
  intros H. destruct rks as [| rk0 rest]; [cbn in H; lia |].
  destruct (exists_last (l := rest)) as (middle & rkn & ->);
    [destruct rest; [cbn in H; lia | discriminate] |].
  now exists rk0, middle, rkn.
Qed.

Lemma cipher_split (rk0 rkn : list Z) (middle : list (list Z)) (b : list Z) :
  AES.cipher (rk0 :: middle ++ [rkn]) b
  = AES.xor_list
      (AES.shift_rows
         (map AES.sbox
            (fold_left AES.encrypt_round middle (AES.xor_list b rk0))))
      rkn.
Proof. unfold AES.cipher. now rewrite removelast_last, last_last. Qed.

Lemma inv_cipher_split (rk0 rkn : list Z) (middle : list (list Z))
                       (c : list Z) :
  AES.inv_cipher (rk0 :: middle ++ [rkn]) c
  = AES.xor_list
      (map AES.inv_sbox
         (AES.inv_shift_rows
            (fold_left AES.decrypt_round (rev middle) (AES.xor_list c rkn))))
      rk0.
Proof.
  unfold AES.inv_cipher. cbn [rev]. rewrite rev_app_distr. cbn [rev app].
  now rewrite removelast_last, last_last.
Qed.

(** The output of the cipher is a block, whatever its input. *)
Lemma cipher_block (rks : list (list Z)) (b : list Z) :
  Forall (block_ok 16) rks -> (2 <= length rks)%nat ->
  block_ok 16 (AES.cipher rks b).
Proof.
  intros H Hlen.
  destruct (round_keys_split rks Hlen) as (rk0 & middle & rkn & ->).
  rewrite cipher_split.
  apply Forall_cons_iff in H as [_ H]. apply Forall_app in H as [_ H].
  apply Forall_cons_iff in H as [Hn _].
  apply xor_list_block; [| exact Hn].
  apply shift_rows_block, map_sbox_ok.
Qed.

(** The inverse cipher undoes the cipher. *)
Lemma inv_cipher_cipher (rks : list (list Z)) (b : list Z) :
  Forall (block_ok 16) rks -> (2 <= length rks)%nat -> block_ok 16 b ->
  AES.inv_cipher rks (AES.cipher rks b) = b.
Proof.
  intros H Hlen Hb.
  destruct (round_keys_split rks Hlen) as (rk0 & middle & rkn & ->).
  rewrite cipher_split, inv_cipher_split.
  apply Forall_cons_iff in H as [H0 H]. apply Forall_app in H as [Hm H].
  apply Forall_cons_iff in H as [Hn _].
  pose proof (shift_rows_block _
                (map_sbox_ok (fold_left AES.encrypt_round middle
                                (AES.xor_list b rk0)))) as [Hs _].
  rewrite xor_list_twice by (destruct Hn as [-> _]; rewrite Hs; lia).
  rewrite fold_decrypt_round_encrypt_round by exact Hm.
  pose proof (xor_list_block 16 b rk0 Hb H0) as [Hx Fx].
  rewrite inv_shift_rows_shift_rows by (now rewrite length_map).
  rewrite map_inv_sbox_sbox by exact Fx.
  apply xor_list_twice. destruct Hb as [-> _], H0 as [-> _]. lia.
Qed.

(** ** The key schedule *)

Lemma xtime_ok (a : Z) : byte_ok a -> byte_ok (AES.xtime a).
Proof.
  intros Ha. apply byte_okb_ok.
  apply (byte_values_forall (fun a => byte_okb (AES.xtime a)));
    [vm_compute; reflexivity | exact Ha].
Qed.

Lemma rcon_ok (i : nat) : byte_ok (AES.rcon i).
Proof.
  induction i as [| i IH]; [unfold byte_ok; cbn; lia |].
  destruct i as [| i]; [unfold byte_ok; cbn; lia |].
  change (AES.rcon (S (S i))) with (AES.xtime (AES.rcon (S i))).
  now apply xtime_ok.
Qed.

Lemma nth_block (n : nat) (ws : list (list Z)) (i : nat) :
  Forall (block_ok n) ws -> (i < length ws)%nat -> block_ok n (nth i ws []).
Proof.
  intros H Hi. rewrite Forall_forall in H. apply H, nth_In, Hi.
Qed.

Lemma expand_ok (n nk i : nat) (ws : list (list Z)) :
  (0 < nk)%nat -> (nk <= length ws)%nat -> Forall (block_ok 4) ws ->
  Forall (block_ok 4) (AES.expand n nk i ws)
  /\ length (AES.expand n nk i ws) = (n + length ws)%nat.
Proof.
  intros Hnk. revert i ws. induction n as [| n IH]; intros i ws Hlen H;
    [now split |].
  cbn [AES.expand]. cbv zeta.
  pose proof (nth_block 4 ws 0 H ltac:(lia)) as Hprev.
  pose proof (nth_block 4 ws (nk - 1) H ltac:(lia)) as Hback.
  set (prev := nth 0 ws []) in *.
  set (temp := if (i mod nk =? 0)%nat
               then AES.xor_list (map AES.sbox (AES.rot_word prev))
                                 [AES.rcon (i / nk); 0; 0; 0]
               else if (6 <? nk)%nat && (i mod nk =? 4)%nat
                    then map AES.sbox prev else prev).
  assert (Htemp : block_ok 4 temp).
  { unfold temp. destruct Hprev as [Lp Fp].
    destruct (i mod nk =? 0)%nat; [| destruct (_ && _)].
    - apply xor_list_block.
      + split; [| apply map_sbox_ok].
        rewrite length_map. destruct prev as [| a t]; [discriminate Lp |].
        cbn [AES.rot_word]. rewrite length_app. cbn in *. lia.
      + split; [reflexivity |].
        repeat (apply Forall_cons; [first [apply rcon_ok
                                          | unfold byte_ok; lia] |]).
        apply Forall_nil.
    - split; [now rewrite length_map | apply map_sbox_ok].
    - now split. }
  destruct (IH (S i) (AES.xor_list (nth (nk - 1) ws []) temp :: ws))
    as [HF HL].
  - cbn [length]. lia.
  - apply Forall_cons; [| exact H]. apply xor_list_block; [exact Hback |].
    exact Htemp.
  - split; [exact HF |]. rewrite HL. cbn [length]. lia.
Qed.

Lemma Forall_firstn {A} (P : A -> Prop) (n : nat) (l : list A) :
  Forall P l -> Forall P (firstn n l).
Proof.
  intros H. revert n. induction H as [| a l Ha _ IH]; intros [| n]; cbn;
    constructor; auto.
Qed.

Lemma Forall_skipn {A} (P : A -> Prop) (n : nat) (l : list A) :
  Forall P l -> Forall P (skipn n l).
Proof.
  intros H. revert n. induction H as [| a l Ha H IH]; intros [| n]; cbn;
    auto.
Qed.

Lemma chunks_ok (n size : nat) (l : list Z) :
  (n * size <= length l)%nat -> Forall byte_ok l ->
  Forall (block_ok size) (AES.chunks n size l)
  /\ length (AES.chunks n size l) = n.
Proof.
  revert l. induction n as [| n IH]; intros l Hlen H; [now split |].
  cbn [AES.chunks]. destruct (IH (skipn size l)) as [HF HL].
  - rewrite length_skipn. lia.
  - now apply Forall_skipn.
  - split; [| cbn [length]; now rewrite HL].
    apply Forall_cons; [| exact HF]. split.
    + rewrite length_firstn. lia.
    + now apply Forall_firstn.
Qed.

Lemma concat_blocks (n : nat) (ws : list (list Z)) :
  Forall (block_ok n) ws ->
  length (concat ws) = (length ws * n)%nat /\ Forall byte_ok (concat ws).
Proof.
  induction 1 as [| w ws [Lw Fw] _ [IH1 IH2]]; [now split |].
  cbn [concat length]. split.
  - rewrite length_app, IH1, Lw. lia.
  - apply Forall_app. now split.
Qed.

(** The round keys of a key of 16, 24 or 32 bytes: 11, 13 or 15 blocks *)
Lemma key_schedule_ok (key : list Z) :
  AES.valid_key_length (length key) = true -> Forall byte_ok key ->
  Forall (block_ok 16) (AES.key_schedule key)
  /\ (2 <= length (AES.key_schedule key))%nat.
Proof.
  intros Hv Hk. unfold AES.key_schedule.
  set (nk := (length key / 4)%nat).
  assert (Hnk : (length key = 4 * nk /\ 4 <= nk)%nat).
  { unfold AES.valid_key_length in Hv. unfold nk.
    rewrite !orb_true_iff, !Nat.eqb_eq in Hv.
    destruct Hv as [[-> | ->] | ->]; cbn; lia. }
  destruct Hnk as [Lk Hnk].
  destruct (chunks_ok nk 4 key ltac:(lia) Hk) as [HF0 HL0].
  destruct (expand_ok (4 * (nk + 6 + 1) - nk) nk nk
              (rev (AES.chunks nk 4 key)) ltac:(lia)
              ltac:(rewrite length_rev; lia)
              ltac:(now apply Forall_rev)) as [HF HL].
  rewrite length_rev, HL0 in HL.
  destruct (concat_blocks 4 _ (Forall_rev HF)) as [HcL HcF].
  rewrite length_rev, HL in HcL.
  destruct (chunks_ok (nk + 6 + 1) 16 _ ltac:(rewrite HcL; lia) HcF)
    as [HF1 HL1].
  split; [exact HF1 | rewrite HL1; lia].
Qed.

Lemma key_schedule_bytes (key : bytes) :
  AES.valid_key_length (length key) = true ->
  Forall (block_ok 16) (AES.key_schedule (map b2z key))
  /\ (2 <= length (AES.key_schedule (map b2z key)))%nat.
Proof.
  intros Hv. apply key_schedule_ok; [now rewrite length_map |].
  apply map_b2z_ok.
Qed.

(** ** Cipher block chaining *)

Lemma cbc_blocks_round_trip (n : nat) (rks : list (list Z)) (prev p : list Z) :
  Forall (block_ok 16) rks -> (2 <= length rks)%nat ->
  block_ok 16 prev -> length p = (16 * n)%nat -> Forall byte_ok p ->
  AES.cbc_blocks n rks prev (Envelope.cbc_blocks n rks prev p) = p
  /\ block_ok (16 * n) (Envelope.cbc_blocks n rks prev p).
Proof.
  intros Hrks Hlen. revert prev p.
  induction n as [| n IH]; intros prev p Hprev Hp Fp.
  - destruct p; [| discriminate Hp]. cbn. repeat split. constructor.
  - cbn [Envelope.cbc_blocks AES.cbc_blocks]. cbv zeta.
    set (block := AES.cipher rks (AES.xor_list (firstn 16 p) prev)).
    assert (Hfirst : block_ok 16 (firstn 16 p)).
    { split; [rewrite length_firstn; lia | now apply Forall_firstn]. }
    pose proof (cipher_block rks (AES.xor_list (firstn 16 p) prev) Hrks Hlen)
      as Hblock.
    fold block in Hblock.
    destruct (IH block (skipn 16 p) Hblock
                ltac:(rewrite length_skipn; lia)
                ltac:(now apply Forall_skipn)) as [E [L F]].
    destruct Hblock as [Lb Fb].
    rewrite firstn_app, firstn_all2, Lb, Nat.sub_diag by lia.
    rewrite firstn_O, app_nil_r.
    rewrite skipn_app, skipn_all2, Lb, Nat.sub_diag by lia.
    rewrite skipn_O. cbn [app]. rewrite E. unfold block.
    rewrite inv_cipher_cipher
      by (trivial; now apply xor_list_block).
    rewrite xor_list_twice
      by (destruct Hfirst as [-> _], Hprev as [-> _]; lia).
    split; [apply firstn_skipn |]. split.
    + rewrite length_app. fold block. rewrite Lb, L. lia.
    + apply Forall_app. split; assumption.
Qed.

(** Decryption undoes encryption, for data of whole blocks. *)
Lemma cbc_decrypt_encrypt (key iv data : bytes) :
  AES.valid_key_length (length key) = true -> length iv = 16%nat ->
  (length data mod 16 = 0)%nat ->
  AES.cbc_decrypt key iv (Envelope.cbc_encrypt key iv data) = Ok data.
Proof.
  intros Hk Hiv Hd.
  destruct (key_schedule_bytes key Hk) as [Hrks Hlen].
  assert (Hn : length (map b2z data) = (16 * (length data / 16))%nat).
  { rewrite length_map. apply Nat.Div0.div_exact in Hd. lia. }
  destruct (cbc_blocks_round_trip (length data / 16)
              (AES.key_schedule (map b2z key)) (map b2z iv) (map b2z data)
              Hrks Hlen) as [E [L F]];
    [split; [now rewrite length_map | apply map_b2z_ok]
    | exact Hn | apply map_b2z_ok |].
  unfold AES.cbc_decrypt, Envelope.cbc_encrypt.
  rewrite Hk, Hiv, length_map, L. cbn [negb Nat.eqb].
  replace (16 * (length data / 16))%nat with (length data)
    by (rewrite length_map in Hn; exact Hn).
  rewrite Hd. cbn [Nat.eqb negb].
  rewrite map_b2z_z2b by exact F. rewrite E. now rewrite map_z2b_b2z.
Qed.

(** ** The round trip of a [v10] envelope *)

Lemma pad_length_range (data : bytes) :
  (1 <= Envelope.pad_length data <= 16)%nat
  /\ ((length data + Envelope.pad_length data) mod 16 = 0)%nat.
Proof.
  unfold Envelope.pad_length.
  pose proof (Nat.mod_upper_bound (length data) 16 ltac:(lia)) as Hr.
  pose proof (Nat.div_mod_eq (length data) 16) as Hq.
  split; [lia |].
  replace (length data + (16 - length data mod 16))%nat
    with ((length data / 16 + 1) * 16)%nat by lia.
  apply Nat.Div0.mod_mul.
Qed.

Lemma repeat_last {A} (x : A) (n : nat) :
  (0 < n)%nat -> repeat x n = repeat x (n - 1) ++ [x].
Proof.
  intros H. destruct n as [| n]; [lia |].
  replace (S n - 1)%nat with n by lia.
  cbn [repeat]. apply repeat_cons.
Qed.

Lemma pkcs7_last (data : bytes) :
  last_opt (Envelope.pkcs7 data)
  = Some (z2b (Z.of_nat (Envelope.pad_length data))).
Proof.
  unfold Envelope.pkcs7.
  destruct (pad_length_range data) as [Hn _].
  rewrite repeat_last by lia. rewrite app_assoc. apply last_opt_app.
Qed.

(** What the decoder makes of the plaintext of a [v10] envelope: the text,
    followed by the padding when the padding is a whole block *)
Lemma v10_unpad (prefix text : bytes) :
  length prefix = 32%nat ->
  let p := Envelope.pkcs7 (prefix ++ text) in
  (padding_len <- index p (-1) ;;
   let p' := if b2z padding_len <? 16
             then slice p None (Some (- b2z padding_len)) else p in
   Ok (decode_replace
         (if 32 <? len p' then slice p' (Some 32) None else p')))
  = Ok (decode_replace
          (if (length text mod 16 =? 0)%nat then text ++ repeat x10 16
           else text)).
Proof.
  intros Hp p. rewrite index_minus_one. unfold p at 1.
  rewrite pkcs7_last. cbn [bind].
  destruct (pad_length_range (prefix ++ text)) as [Hn _].
  set (n := Envelope.pad_length (prefix ++ text)) in *.
  rewrite b2z_z2b by (unfold byte_ok; lia).
  assert (En : n = (16 - length text mod 16)%nat).
  { unfold n, Envelope.pad_length. rewrite length_app, Hp.
    replace (32 + length text)%nat with (length text + 2 * 16)%nat by lia.
    now rewrite Nat.Div0.mod_add. }
  pose proof (Nat.mod_upper_bound (length text) 16 ltac:(lia)) as Hr.
  assert (Lp : length p = (32 + length text + n)%nat).
  { unfold p, Envelope.pkcs7. fold n.
    rewrite !length_app, repeat_length, Hp. lia. }
  f_equal. f_equal.
  destruct (Nat.eqb_spec (length text mod 16) 0) as [E0 | E0].
  - (* a whole block of padding, which stays *)
    assert (n = 16%nat) as E16 by lia.
    destruct (Z.ltb_spec (Z.of_nat n) 16) as [H | _]; [lia |].
    unfold len. rewrite Lp.
    destruct (Z.ltb_spec 32 (Z.of_nat (32 + length text + n))) as [_ | H];
      [| lia].
    change 32 with (Z.of_nat 32). rewrite slice_from.
    unfold p, Envelope.pkcs7. fold n. rewrite E16.
    rewrite <- app_assoc, skipn_app, skipn_all2, Hp, Nat.sub_diag by lia.
    reflexivity.
  - assert (Ht : length text <> 0%nat)
      by (intros Ez; rewrite Ez in E0; now apply E0).
    destruct (Z.ltb_spec (Z.of_nat n) 16) as [_ | H]; [| lia].
    rewrite slice_drop_last by lia. rewrite Lp.
    replace (32 + length text + n - n)%nat with (length (prefix ++ text))
      by (rewrite length_app, Hp; lia).
    unfold p, Envelope.pkcs7. rewrite firstn_app, firstn_all, Nat.sub_diag.
    cbn [firstn]. rewrite app_nil_r.
    unfold len. rewrite length_app, Hp.
    destruct (Z.ltb_spec 32 (Z.of_nat (32 + length text))) as [_ | H]; [| lia].
    change 32 with (Z.of_nat 32). rewrite slice_from.
    rewrite skipn_app, skipn_all2, Hp, Nat.sub_diag by lia. reflexivity.
Qed.

Lemma valid_key_not_empty (key : bytes) :
  AES.valid_key_length (length key) = true -> is_empty key = false.
Proof. destruct key; [discriminate | reflexivity]. Qed.

(** A value that the browser puts into a [v10] envelope comes out of the
    decoder when its length is not a multiple of 16. When it is, the empty
    value included, the padding is a whole block of bytes 16, the decoder
    does not take it for padding, and the value comes out followed by those
    16 bytes. *)
Theorem v10_round_trip (w : world) (key prefix text : bytes) :
  AES.valid_key_length (length key) = true -> length prefix = 32%nat ->
  decrypt_cookie_value w (Envelope.v10_envelope key prefix text) key
  = Ok (decode_replace
          (if (length text mod 16 =? 0)%nat then text ++ repeat x10 16
           else text)).
Proof.
  intros Hk Hp.
  set (blob := Envelope.v10_envelope key prefix text).
  assert (Hv : firstn 3 blob = v10) by reflexivity.
  assert (Hc : AES.cbc_decrypt key spaces_iv (skipn 3 blob)
               = Ok (Envelope.pkcs7 (prefix ++ text))).
  { change (skipn 3 blob)
      with (Envelope.cbc_encrypt key spaces_iv
              (Envelope.pkcs7 (prefix ++ text))).
    apply cbc_decrypt_encrypt; [exact Hk | reflexivity |].
    unfold Envelope.pkcs7. rewrite length_app, repeat_length.
    apply pad_length_range. }
  unfold decrypt_cookie_value.
  rewrite (prefix_not_empty blob v10 Hv) by discriminate.
  rewrite (valid_key_not_empty key Hk). cbn [orb].
  rewrite (decrypt_body_v10 w blob key _ Hv Hc).
  rewrite (v10_unpad prefix text Hp). reflexivity.
Qed.

(** The envelope of [sessionid=42] under [peanuts_key] with a prefix of 32
    bytes 0 is [blob_prefixed], and decodes to [sessionid=42]; the envelope
    of the 16 bytes [sixteen byte msg] decodes to them and 16 bytes 16. *)
Lemma v10_round_trip_witness :
  Envelope.v10_envelope peanuts_key (repeat x00 32) (encode "sessionid=42")
  = blob_prefixed
  /\ decrypt_cookie_value linux_world blob_prefixed peanuts_key
     = Ok "sessionid=42"
  /\ decrypt_cookie_value linux_world
       (Envelope.v10_envelope peanuts_key (repeat x00 32)
          (encode "sixteen byte msg")) peanuts_key
     = Ok (decode_replace (encode "sixteen byte msg" ++ repeat x10 16)).
Proof.
  assert (Hk : AES.valid_key_length (length peanuts_key) = true)
    by (vm_compute; reflexivity).
  assert (E : Envelope.v10_envelope peanuts_key (repeat x00 32)
                (encode "sessionid=42") = blob_prefixed)
    by (vm_compute; reflexivity).
  split; [exact E |]. split.
  - rewrite <- E.
    rewrite (v10_round_trip linux_world peanuts_key (repeat x00 32)
               (encode "sessionid=42") Hk eq_refl).
    vm_compute. reflexivity.
  - exact (v10_round_trip linux_world peanuts_key (repeat x00 32)
             (encode "sixteen byte msg") Hk eq_refl).
Defined.

(** ** The round trip of a [v11] envelope *)

Lemma ctr_blocks_nil (n : nat) (rks : list (list Z)) (j : list Z) (i : Z) :
  GCM.ctr_blocks n rks j i [] = [].
Proof.
  revert i. induction n as [| n IH]; intros i; [reflexivity |].
  cbn [GCM.ctr_blocks firstn skipn AES.xor_list app]. apply IH.
Qed.

(** Counter mode is its own inverse, and keeps bytes and lengths. *)
Lemma ctr_blocks_twice (n : nat) (rks : list (list Z)) (j : list Z) (i : Z)
                       (data : list Z) :
  Forall (block_ok 16) rks -> (2 <= length rks)%nat ->
  Forall byte_ok data ->
  GCM.ctr_blocks n rks j i (GCM.ctr_blocks n rks j i data) = firstn (16 * n) data
  /\ length (GCM.ctr_blocks n rks j i data) = Nat.min (16 * n) (length data)
  /\ Forall byte_ok (GCM.ctr_blocks n rks j i data).
Proof.
  intros Hrks Hlen. revert i data.
  induction n as [| n IH]; intros i data Hd.
  - cbn. repeat split. constructor.
  - cbn [GCM.ctr_blocks].
    pose proof (cipher_block rks (GCM.counter_block j i) Hrks Hlen) as [Lk Fk].
    set (K := AES.cipher rks (GCM.counter_block j i)) in *.
    destruct (IH (i + 1) (skipn 16 data) (Forall_skipn _ 16 data Hd))
      as (E & L & F).
    set (rest := GCM.ctr_blocks n rks j (i + 1) (skipn 16 data)) in *.
    set (first := AES.xor_list (firstn 16 data) K).
    assert (Lf : length first = Nat.min 16 (length data)).
    { unfold first. rewrite xor_list_length, length_firstn, Lk. lia. }
    assert (Ff : Forall byte_ok first)
      by (apply xor_list_ok; [now apply Forall_firstn | exact Fk]).
    assert (Ef : AES.xor_list first K = firstn 16 data).
    { unfold first. apply xor_list_twice. rewrite length_firstn, Lk. lia. }
    assert (Hsplit : firstn 16 (first ++ rest) = first
                     /\ skipn 16 (first ++ rest) = rest).
    { destruct (Nat.le_gt_cases 16 (length data)) as [Hl | Hl].
      - rewrite firstn_app, skipn_app, Lf, Nat.min_l by exact Hl.
        rewrite Nat.sub_diag, firstn_O, skipn_O, app_nil_r.
        rewrite firstn_all2, skipn_all2 by lia. now split.
      - assert (rest = []) as ->.
        { unfold rest. rewrite skipn_all2 by lia. apply ctr_blocks_nil. }
        rewrite app_nil_r, firstn_all2, skipn_all2 by lia. now split. }
    destruct Hsplit as [-> ->]. rewrite Ef. fold rest. rewrite E.
    split; [| split].
    + rewrite <- (firstn_skipn 16 data) at 3.
      replace (16 * S n)%nat with (16 + 16 * n)%nat by lia.
      destruct (Nat.le_gt_cases 16 (length data)) as [Hl | Hl].
      * rewrite firstn_app, length_firstn, Nat.min_l by exact Hl.
        replace (16 + 16 * n - 16)%nat with (16 * n)%nat by lia.
        f_equal. rewrite firstn_firstn. f_equal. lia.
      * rewrite (skipn_all2 data) by lia. rewrite firstn_nil, !app_nil_r.
        rewrite firstn_firstn. f_equal. lia.
    + rewrite length_app, Lf, L, length_skipn. lia.
    + apply Forall_app. now split.
Qed.

Lemma ctr_twice (rks : list (list Z)) (j data : list Z) :
  Forall (block_ok 16) rks -> (2 <= length rks)%nat ->
  Forall byte_ok data ->
  GCM.ctr rks j (GCM.ctr rks j data) = data
  /\ length (GCM.ctr rks j data) = length data
  /\ Forall byte_ok (GCM.ctr rks j data).
Proof.
  intros Hrks Hlen Hd. unfold GCM.ctr.
  assert (Hn : (length data <= 16 * ((length data + 15) / 16))%nat).
  { pose proof (Nat.div_mod_eq (length data + 15) 16) as Hq.
    pose proof (Nat.mod_upper_bound (length data + 15) 16 ltac:(lia)). lia. }
  destruct (ctr_blocks_twice ((length data + 15) / 16) rks j 1 data
              Hrks Hlen Hd) as (E & L & F).
  rewrite Nat.min_r in L by exact Hn.
  rewrite L, E. rewrite firstn_all2 by exact Hn. now repeat split.
Qed.

(** What is encrypted and authenticated decrypts and verifies. *)
Lemma decrypt_and_verify_encrypt (key nonce text : bytes) :
  AES.valid_key_length (length key) = true -> nonce <> [] ->
  len text <= 16 * 2 ^ 32 ->
  let '(c, tag) := GCM.encrypt_and_digest key nonce text in
  GCM.decrypt_and_verify key nonce c tag = Ok text
  /\ length c = length text /\ length tag = 16%nat.
Proof.
  intros Hk Hn Ht. unfold GCM.encrypt_and_digest, GCM.decrypt_and_verify.
  destruct (key_schedule_bytes key Hk) as [Hrks Hlen].
  set (rks := AES.key_schedule (map b2z key)) in *.
  set (h := be_value (AES.cipher rks (repeat 0 16))).
  set (j := GCM.j0 h (map b2z nonce)).
  destruct (ctr_twice rks j (map b2z text) Hrks Hlen (map_b2z_ok text))
    as (E & L & F).
  rewrite length_map in L.
  set (c := GCM.ctr rks j (map b2z text)) in *.
  rewrite Hk. cbn [negb].
  destruct nonce as [| b nonce]; [now destruct Hn |]. cbn [length Nat.eqb].
  unfold len in *. rewrite length_map, L.
  destruct (Z.ltb_spec (16 * 2 ^ 32) (Z.of_nat (length text))) as [H | _];
    [lia |].
  rewrite (map_b2z_z2b c F).
  assert (Eb : bytes_eqb (map z2b (GCM.mac rks h j c))
                         (map z2b (GCM.mac rks h j c)) = true)
    by now apply bytes_eqb_eq.
  rewrite Eb, E, map_z2b_b2z.
  split; [reflexivity |]. split; [reflexivity |].
  rewrite length_map. unfold GCM.mac.
  rewrite xor_list_length, be_bytes_length.
  destruct (cipher_block rks j Hrks Hlen) as [-> _]. reflexivity.
Qed.

(** A value that the browser puts into a [v11] envelope, under a nonce of
    12 bytes, comes out of the decoder: its decoding as UTF-8 with
    replacement, on every platform. *)
Theorem v11_round_trip (w : world) (key nonce text : bytes) :
  AES.valid_key_length (length key) = true -> length nonce = 12%nat ->
  len text <= 16 * 2 ^ 32 ->
  decrypt_cookie_value w (Envelope.v11_envelope key nonce text) key
  = Ok (decode_replace text).
Proof.
  intros Hk Hn Ht. unfold Envelope.v11_envelope.
  pose proof (decrypt_and_verify_encrypt key nonce text Hk
                ltac:(destruct nonce; [discriminate Hn | discriminate]) Ht)
    as H.
  destruct (GCM.encrypt_and_digest key nonce text) as [c tag].
  destruct H as (Hd & _ & Ltag).
  destruct (v11_fields nonce c tag Hn Ltag) as (Hv & En & Ec & Et).
  unfold decrypt_cookie_value.
  rewrite (prefix_not_empty _ v11 Hv) by discriminate.
  rewrite (valid_key_not_empty key Hk). cbn [orb].
  rewrite (decrypt_body_v11 w _ key Hv), En, Ec, Et, Hd. reflexivity.
Qed.

(** The envelope of [sessionid=42] under [gcm_key] and the nonce of
    [blob_v11] is [blob_v11], and decodes to [sessionid=42]. *)
Lemma v11_round_trip_witness :
  Envelope.v11_envelope gcm_key (fromhex "101112131415161718191a1b")
    (encode "sessionid=42") = blob_v11
  /\ decrypt_cookie_value linux_world blob_v11 gcm_key = Ok "sessionid=42".
Proof.
  assert (E : Envelope.v11_envelope gcm_key
                (fromhex "101112131415161718191a1b") (encode "sessionid=42")
              = blob_v11) by (vm_compute; reflexivity).
  split; [exact E |]. rewrite <- E.
  rewrite (v11_round_trip linux_world gcm_key
             (fromhex "101112131415161718191a1b") (encode "sessionid=42")
             eq_refl eq_refl ltac:(vm_compute; discriminate)).
  vm_compute. reflexivity.
Defined.

(** The envelopes built here are the ones of the examples, which were made
    with another implementation of the ciphers. *)
Example envelope_known_answers :
  v10 ++ Envelope.cbc_encrypt peanuts_key spaces_iv
           (Envelope.pkcs7 (encode "sixteen byte msg")) = blob_full
  /\ v10 ++ Envelope.cbc_encrypt peanuts_key spaces_iv plain_space
     = blob_space
  /\ Envelope.v10_envelope peanuts_key (repeat x00 32) (encode "sessionid=42")
     = blob_prefixed
  /\ Envelope.v11_envelope gcm_key (fromhex "101112131415161718191a1b")
       (encode "sessionid=42") = blob_v11.
Proof. split; [| split; [| split]]; vm_compute; reflexivity. Qed.

(** ** The file that [main] writes *)

Lemma read_from_app (r : reader) (a b : string) :
  read_from r (a ++ b)%string = read_from (read_from r a) b.
Proof. revert r. induction a as [| c a IH]; intros r; cbn; auto. Qed.

Lemma push_append (s : string) (c : ascii) (t : string) :
  (push s c ++ t)%string = (s ++ String c t)%string.
Proof. unfold push. induction s as [| x s IH]; cbn; congruence. Qed.

Lemma append_empty (s : string) : (s ++ "")%string = s.
Proof. induction s as [| x s IH]; cbn; congruence. Qed.

Lemma special_false (c : ascii) :
  Csv.special c = false ->
  Ascii.eqb c "," = false /\ Ascii.eqb c Csv.quotechar = false
  /\ Ascii.eqb c Csv.CR = false /\ Ascii.eqb c Csv.LF = false.
Proof.
  unfold Csv.special. intros H.
  repeat (apply orb_false_iff in H as [H ?]). auto.
Qed.

(** Reading a field that was written without quotes *)
Lemma read_plain (s acc : string) (rw : list string) (rws : list (list string)) :
  Csv.needs_quotes s = false ->
  read_from {| state := InField; pending := acc; row := rw; rows := rws |} s
  = {| state := InField; pending := (acc ++ s)%string; row := rw;
       rows := rws |}.
Proof.
  revert acc. induction s as [| c s IH]; intros acc H.
  - cbn. now rewrite append_empty.
  - cbn [Csv.needs_quotes] in H. apply orb_false_iff in H as [Hc Hs].
    destruct (special_false c Hc) as (E1 & E2 & E3 & E4).
    cbn [read_from]. unfold read_char. cbn [state pending row rows].
    rewrite E1, E3. cbn [orb]. rewrite (IH _ Hs). now rewrite push_append.
Qed.

(** Reading the inside of a field that was written between quotes *)
Lemma read_doubled (s acc : string) (rw : list string)
                   (rws : list (list string)) :
  read_from {| state := InQuotes; pending := acc; row := rw; rows := rws |}
            (Csv.double_quotes s)
  = {| state := InQuotes; pending := (acc ++ s)%string; row := rw;
       rows := rws |}.
Proof.
  revert acc. induction s as [| c s IH]; intros acc.
  - cbn. now rewrite append_empty.
  - cbn [Csv.double_quotes]. destruct (Ascii.eqb c Csv.quotechar) eqn:E.
    + apply Ascii.eqb_eq in E. subst c.
      cbn [read_from]. unfold read_char at 2. cbn [state pending row rows].
      rewrite Ascii.eqb_refl. unfold read_char. cbn [state pending row rows].
      rewrite Ascii.eqb_refl. rewrite IH. now rewrite push_append.
    + cbn [read_from]. unfold read_char. cbn [state pending row rows].
      rewrite E. rewrite IH. now rewrite push_append.
Qed.

Lemma read_field (f : string) (rw : list string) (rws : list (list string)) :
  holds (read_from {| state := AtStart; pending := ""; row := rw; rows := rws |}
                   (Csv.field f)) f rw rws.
Proof.
  unfold Csv.field. destruct (Csv.needs_quotes f) eqn:E.
  - cbn [read_from]. unfold read_char at 1. cbn [state pending row rows].
    rewrite Ascii.eqb_refl.
    rewrite read_from_app, read_doubled. cbn [read_from append].
    unfold read_char. cbn [state pending row rows]. rewrite Ascii.eqb_refl.
    unfold holds. cbn [state pending row rows append]. intuition.
  - destruct f as [| c t].
    + cbn. unfold holds. cbn. intuition.
    + cbn [Csv.needs_quotes] in E. apply orb_false_iff in E as [Hc Ht].
      destruct (special_false c Hc) as (E1 & E2 & E3 & E4).
      cbn [read_from]. unfold read_char. cbn [state pending row rows].
      rewrite E1, E2, E3. cbn [orb]. rewrite (read_plain t _ rw rws Ht).
      unfold holds, push. cbn. intuition.
Qed.

Lemma read_separator (r : reader) (f : string) (rw : list string)
                     (rws : list (list string)) (c : ascii) :
  holds r f rw rws -> c = ","%char \/ c = Csv.CR ->
  read_char r c
  = {| state := if Ascii.eqb c "," then AtStart else AfterCR;
       pending := ""; row := rw ++ [f]; rows := rws |}.
Proof.
  intros (Hp & Hr & Hrs & Hs) Hc.
  assert (Eq : Ascii.eqb c Csv.quotechar = false)
    by (destruct Hc as [-> | ->]; reflexivity).
  assert (Es : Ascii.eqb c "," || Ascii.eqb c Csv.CR = true)
    by (destruct Hc as [-> | ->]; reflexivity).
  unfold read_char.
  destruct Hs as [-> | [-> | [-> _]]]; rewrite ?Eq, Es;
    unfold end_field; now rewrite Hp, Hr, Hrs.
Qed.

(** Reading the fields of a row, joined by commas *)
Lemma read_join (fields : list string) (f : string) (rw : list string)
                (rws : list (list string)) :
  holds (read_from {| state := AtStart; pending := ""; row := rw; rows := rws |}
                   (Csv.join (map Csv.field (fields ++ [f]))))
        f (rw ++ fields) rws.
Proof.
  revert rw. induction fields as [| g fields IH]; intros rw.
  - cbn [app map Csv.join]. rewrite app_nil_r. apply read_field.
  - cbn [app map].
    assert (E : Csv.join (Csv.field g :: map Csv.field (fields ++ [f]))
                = (Csv.field g ++ String "," (Csv.join
                                               (map Csv.field (fields ++ [f])))
                  )%string).
    { destruct (fields ++ [f]) eqn:El; [now destruct fields |]. reflexivity. }
    rewrite E, read_from_app. cbn [read_from].
    rewrite (read_separator _ g rw rws "," (read_field g rw rws))
      by now left.
    cbn [Ascii.eqb]. change (Ascii.eqb "," ",") with true. cbv iota.
    replace (rw ++ g :: fields) with ((rw ++ [g]) ++ fields)
      by now rewrite <- app_assoc.
    apply IH.
Qed.

Lemma field_empty (f : string) : Csv.field f = "" -> f = "".
Proof.
  unfold Csv.field. destruct (Csv.needs_quotes f); [discriminate | trivial].
Qed.

(** Reading a row that was written *)
Lemma read_writerow (fields : list string) (rws : list (list string))
                    (rest : string) :
  fields <> [] ->
  read_from {| state := AtStart; pending := ""; row := []; rows := rws |}
            (Csv.writerow fields ++ rest)
  = read_from {| state := AtStart; pending := ""; row := [];
                 rows := rws ++ [fields] |} rest.
Proof.
  intros Hne.
  destruct (exists_last Hne) as (init & f & ->).
  unfold Csv.writerow. cbv zeta. rewrite !read_from_app.
  unfold Csv.lineterminator. cbn [read_from].
  match goal with
  | |- context [read_from ?r (if ?c then ?a else ?b)] =>
    assert (H : holds (read_from r (if c then a else b)) f init rws)
  end.
  { destruct (_ && _) eqn:E.
    - apply andb_true_iff in E as [E1 E2].
      apply Nat.eqb_eq in E1. rewrite length_app in E1. cbn in E1.
      destruct init; [| cbn in E1; lia].
      apply String.eqb_eq in E2. cbn in E2. apply field_empty in E2.
      subst f. cbn. unfold holds. cbn. intuition.
    - apply (read_join init f [] rws). }
  rewrite (read_separator _ f init rws Csv.CR H) by now right.
  change (Ascii.eqb Csv.CR ",") with false. cbv iota.
  unfold read_char. cbn [state pending row rows].
  rewrite Ascii.eqb_refl. reflexivity.
Qed.

Lemma read_rows (rs rws : list (list string)) :
  Forall (fun fields => fields <> []) rs ->
  read_from {| state := AtStart; pending := ""; row := []; rows := rws |}
            (String.concat "" (map Csv.writerow rs))
  = {| state := AtStart; pending := ""; row := []; rows := rws ++ rs |}.
Proof.
  intros H. revert rws. induction H as [| fields rs Hf _ IH]; intros rws.
  - cbn. now rewrite app_nil_r.
  - assert (E : String.concat "" (map Csv.writerow (fields :: rs))
                = (Csv.writerow fields
                   ++ String.concat "" (map Csv.writerow rs))%string).
    { cbn [map String.concat]. destruct (map Csv.writerow rs) eqn:El.
      - cbn. now rewrite append_empty.
      - reflexivity. }
    rewrite E, (read_writerow fields rws _ Hf), IH.
    now rewrite <- app_assoc.
Qed.

(** What is written is read back: the rows, and in each row the fields,
    whatever commas, quotes and line ends the fields hold. *)
Lemma read_csv_written (rs : list (list string)) :
  Forall (fun fields => fields <> []) rs ->
  read_csv (String.concat "" (map Csv.writerow rs)) = rs.
Proof. intros H. unfold read_csv. now rewrite (read_rows rs [] H). Qed.

(** [main] writes no file when there is no record. The file it writes
    otherwise is read back, by a reader of comma-separated values, as the
    row of the nine column names followed by one row of nine fields for each
    record, in the order of the records: no value, whatever commas, quotes
    or line ends it holds, changes or moves to another field. *)
Theorem main_csv_round_trip (w : world) :
  match main w with
  | None => all_cookies w = []
  | Some text =>
    all_cookies w <> []
    /\ read_csv text = fieldnames :: map cookie_values (all_cookies w)
  end.
Proof.
  unfold main. cbv zeta. destruct (all_cookies w) as [| c cs] eqn:E;
    [reflexivity |].
  cbn [is_empty]. split; [discriminate |].
  unfold csv_file.
  rewrite <- (map_map cookie_values Csv.writerow (c :: cs)).
  change (Csv.writerow fieldnames
          ++ String.concat ""
               (map Csv.writerow (map cookie_values (c :: cs))))%string
    with (String.concat ""
            (map Csv.writerow (fieldnames :: map cookie_values (c :: cs)))).
  apply read_csv_written.
  constructor; [discriminate |].
  apply Forall_forall. intros fields Hin.
  apply in_map_iff in Hin as (x & <- & _). discriminate.
Qed.

(** In [two_store_world] the file has the row of the column names, the row
    of Chrome's record and the row of Firefox's record. *)
Lemma main_csv_round_trip_witness :
  exists text,
    main two_store_world = Some text
    /\ read_csv text
       = [ fieldnames;
           [ "Chrome"; ".example.com"; "sid"; "sessionid=42"; "/";
             "2025-07-24 22:56:20"; "True"; "False"; "1" ];
           [ "Firefox"; ".example.com"; "sid"; "sessionid=42"; "/";
             "Session"; "True"; "False"; "1" ] ].
Proof.
  pose proof (main_csv_round_trip two_store_world) as H.
  destruct (main two_store_world) as [text |] eqn:E.
  - exists text. split; [reflexivity |].
    destruct H as [_ H]. rewrite H. vm_compute. reflexivity.
  - exfalso. vm_compute in H. discriminate H.
Defined.

(** The rows that the writer of the runtime gives for these fields *)
Example csv_known_answers :
  map nat_of_ascii
    (list_ascii_of_string
       (Csv.writerow ["a,b"; String "c" (String Csv.quotechar "d");
                      String "e" (String Csv.LF "f")]))
  = [34; 97; 44; 98; 34; 44; 34; 99; 34; 34; 100; 34; 44; 34; 101; 10; 102;
     34; 13; 10]%nat
  /\ map nat_of_ascii (list_ascii_of_string (Csv.writerow [""; ""; ""]))
     = [44; 44; 13; 10]%nat
  /\ map nat_of_ascii (list_ascii_of_string (Csv.writerow [""]))
     = [34; 34; 13; 10]%nat
  /\ map nat_of_ascii
       (list_ascii_of_string
          (Csv.writerow [str_of_bool true; ""; str_of_int 0; str_of_int (-5)]))
     = [84; 114; 117; 101; 44; 44; 48; 44; 45; 53; 13; 10]%nat.
Proof. split; [| split; [| split]]; vm_compute; reflexivity. Qed.

(** ** The expiry of the paged container, in whole seconds *)

(** The length of time of a float that holds a whole number of seconds *)
Lemma timedelta_seconds_whole (x : spec_float) (n : Z) :
  whole_number x = Some n ->
  DT.timedelta_seconds x = DT.check_delta (n * 1000000).
Proof.
  destruct x as [s | s | | s m e]; try discriminate.
  - intros H. apply Some_inj in H. subst n. destruct s; reflexivity.
  - unfold whole_number, DT.timedelta_seconds.
    destruct (Z.leb_spec 0 e) as [He | He].
    + intros H. apply Some_inj in H. subst n.
      unfold Float.trunc, Float.frac.
      destruct (Z.leb_spec 0 e) as [_ | Hc]; [| lia].
      rewrite Z.shiftl_mul_pow2 by exact He.
      replace (Float.round_half_even
                 (Float.mul (Float.of_Z 1000000) (S754_zero s))) with 0
        by (destruct s; reflexivity).
      f_equal. lia.
    + destruct (Z.eqb_spec (Zpos m mod 2 ^ (- e)) 0) as [Hm | Hm];
        [| discriminate].
      intros H. apply Some_inj in H. subst n.
      unfold Float.trunc, Float.frac.
      destruct (Z.leb_spec 0 e) as [Hc | _]; [lia |].
      rewrite Hm, Z.shiftr_div_pow2 by lia.
      replace (Float.round_half_even
                 (Float.mul (Float.of_Z 1000000)
                    (binary_normalize Float.prec Float.emax
                       (Float.signed s 0) e s))) with 0
        by (destruct s; reflexivity).
      f_equal. lia.
Qed.

Lemma whole_number_positive (x : spec_float) (n : Z) :
  whole_number x = Some n -> 0 < n -> Float.gt0 x = true.
Proof.
  intros H Hn. rewrite gt0_positive.
  destruct x as [s | s | | s m e]; try discriminate.
  - apply Some_inj in H. lia.
  - destruct s; [| reflexivity]. exfalso. revert H. unfold whole_number.
    destruct (Z.leb_spec 0 e) as [He | He].
    + intros H. apply Some_inj in H. cbn [Float.signed] in H.
      pose proof (Z.pow_nonneg 2 e ltac:(lia)). nia.
    + destruct (_ =? 0); [| discriminate].
      intros H. apply Some_inj in H. cbn [Float.signed] in H.
      pose proof (Z.pow_pos_nonneg 2 (- e) ltac:(lia) ltac:(lia)).
      assert (0 <= Zpos m / 2 ^ (- e)) by (apply Z.div_pos; lia). lia.
Qed.

(** An expiry of the paged container that is a whole number of seconds,
    greater than zero, is shown as the date and the time of the day that
    lie that many seconds after 2001-01-01 00:00:00, with no time zone. *)
Theorem safari_expiry_calendar (w : world) (exp : spec_float)
                               (n y m d hh mm ss : Z) :
  whole_number exp = Some n -> 0 < n ->
  valid_date y m d -> valid_time hh mm ss ->
  n * 1000000
  = DT.datetime y m d + seconds_of_day hh mm ss * 1000000
    - DT.datetime 2001 1 1 ->
  safari_exp_str w exp = Ok (show_time (pads_year w) y m d hh mm ss).
Proof.
  intros Hw Hn Hd Ht E. unfold safari_exp_str.
  rewrite (whole_number_positive exp n Hw Hn).
  rewrite (timedelta_seconds_whole exp n Hw).
  pose proof (valid_calendar y m d hh mm ss 0 Hd Ht ltac:(lia)) as Hv.
  pose proof (ymd2ord_bounds y m d Hd) as Ho.
  assert (Hc : DT.check_delta (n * 1000000) = Ok (n * 1000000)).
  { unfold DT.check_delta.
    assert (Hq : 0 <= n * 1000000 / DT.us_per_day <= DT.max_delta_days).
    { destruct Ht as (Hh & Hmi & Hs).
      assert (0 <= seconds_of_day hh mm ss < 86400)
        by (unfold seconds_of_day; lia).
      rewrite E. unfold DT.datetime.
      change (DT.ymd2ord 2001 1 1) with 730486.
      unfold DT.MAXORDINAL in Ho.
      unfold DT.us_per_day, DT.max_delta_days.
      assert (0 <= n * 1000000) by lia.
      revert E. unfold DT.datetime, DT.us_per_day.
      change (DT.ymd2ord 2001 1 1) with 730486. intros E.
      Z.div_mod_to_equations. lia. }
    destruct (Z.ltb_spec (n * 1000000 / DT.us_per_day) (- DT.max_delta_days))
      as [H | _]; [unfold DT.max_delta_days in *; lia |].
    destruct (Z.ltb_spec DT.max_delta_days (n * 1000000 / DT.us_per_day))
      as [H | _]; [lia | reflexivity]. }
  rewrite Hc. cbn [bind]. unfold DT.add.
  replace (DT.datetime 2001 1 1 + n * 1000000)
    with (DT.datetime y m d + seconds_of_day hh mm ss * 1000000 + 0) by lia.
  rewrite Hv. cbn [bind].
  now rewrite (strftime_calendar (pads_year w) y m d hh mm ss 0 Hd Ht
                 ltac:(lia)).
Qed.

(** The float 86400.0 holds one day: the expiry is 2001-01-02. *)
Lemma safari_expiry_calendar_witness :
  whole_number float_one_day = Some 86400
  /\ valid_date 2001 1 2 /\ valid_time 0 0 0
  /\ safari_exp_str linux_world float_one_day = Ok "2001-01-02 00:00:00".
Proof.
  assert (Hw : whole_number float_one_day = Some 86400)
    by (vm_compute; reflexivity).
  assert (Hd : valid_date 2001 1 2)
    by (unfold valid_date; repeat split; try lia; vm_compute; discriminate).
  assert (Ht : valid_time 0 0 0) by (unfold valid_time; lia).
  split; [exact Hw |]. split; [exact Hd |]. split; [exact Ht |].
  pose proof (safari_expiry_calendar linux_world float_one_day 86400
                2001 1 2 0 0 0 Hw ltac:(lia) Hd Ht
                ltac:(vm_compute; reflexivity)) as H.
  assert (S : show_time (pads_year linux_world) 2001 1 2 0 0 0
              = "2001-01-02 00:00:00") by (vm_compute; reflexivity).
  rewrite S in H. exact H.
Defined.

(** ** A key of another length *)

(** Under a key that is not of 16, 24 or 32 bytes no blob with a marker is
    decrypted: the cipher refuses the key, and the decoder returns the empty
    string. *)
Theorem decrypt_cookie_value_bad_key (w : world) (blob key : bytes) :
  AES.valid_key_length (length key) = false ->
  firstn 3 blob = v10 \/ firstn 3 blob = v11 ->
  decrypt_cookie_value w blob key = Ok "".
Proof.
  intros Hk [Hv | Hv].
  - apply (decrypt_cookie_value_raise w blob key ValueError).
    apply decrypt_body_v10_raise; [exact Hv |].
    unfold AES.cbc_decrypt. now rewrite Hk.
  - assert (E : exists e,
               GCM.decrypt_and_verify key (v11_nonce blob)
                 (v11_ciphertext blob) (v11_tag blob) = Raise e).
    { unfold GCM.decrypt_and_verify. rewrite Hk.
      cbn [negb].
      destruct (length (v11_nonce blob) =? 0)%nat; eexists; reflexivity. }
    destruct E as [e He].
    apply (decrypt_cookie_value_raise w blob key e).
    now rewrite (decrypt_body_v11 w blob key Hv), He.
Qed.

(** [blob_prefixed] under a key of five bytes *)
Lemma decrypt_cookie_value_bad_key_witness :
  AES.valid_key_length (length (encode "short")) = false
  /\ decrypt_cookie_value linux_world blob_prefixed (encode "short") = Ok "".
Proof.
  split; [reflexivity |].
  apply decrypt_cookie_value_bad_key; [reflexivity | left; reflexivity].
Defined.

(** ** A [v10] envelope without the prefix *)

(** What the decoder makes of a padded plaintext whose length is not a
    multiple of 16: the plaintext, without its first 32 bytes when it holds
    more than 32 *)
Lemma v10_unpad_body (body : bytes) :
  (length body mod 16 <> 0)%nat ->
  let p := Envelope.pkcs7 body in
  (padding_len <- index p (-1) ;;
   let p' := if b2z padding_len <? 16
             then slice p None (Some (- b2z padding_len)) else p in
   Ok (decode_replace
         (if 32 <? len p' then slice p' (Some 32) None else p')))
  = Ok (decode_replace (drop_prefix body)).
Proof.
  intros Hm p. rewrite index_minus_one. unfold p at 1.
  rewrite pkcs7_last. cbn [bind].
  destruct (pad_length_range body) as [Hn _].
  pose proof (Nat.mod_upper_bound (length body) 16 ltac:(lia)) as Hr.
  assert (Hlt : (Envelope.pad_length body < 16)%nat)
    by (unfold Envelope.pad_length in *; lia).
  set (n := Envelope.pad_length body) in *.
  rewrite b2z_z2b by (unfold byte_ok; lia).
  destruct (Z.ltb_spec (Z.of_nat n) 16) as [_ | H]; [| lia].
  rewrite slice_drop_last by lia.
  assert (Lp : length p = (length body + n)%nat).
  { unfold p, Envelope.pkcs7. fold n. now rewrite length_app, repeat_length. }
  rewrite Lp.
  replace (length body + n - n)%nat with (length body) by lia.
  unfold p, Envelope.pkcs7.
  rewrite firstn_app, firstn_all, Nat.sub_diag, firstn_O, app_nil_r.
  now rewrite drop_prefix_slice.
Qed.

(** A value put into a [v10] envelope with no prefix before it, as the
    browsers did before they added one, comes out whole when it holds at
    most 32 bytes, and without its first 32 bytes when it holds more (its
    length not a multiple of 16). *)
Theorem v10_round_trip_without_prefix (w : world) (key text : bytes) :
  AES.valid_key_length (length key) = true ->
  (length text mod 16 <> 0)%nat ->
  decrypt_cookie_value w (Envelope.v10_envelope key [] text) key
  = Ok (decode_replace
          (if (32 <? length text)%nat then skipn 32 text else text)).
Proof.
  intros Hk Hm.
  set (blob := Envelope.v10_envelope key [] text).
  assert (Hv : firstn 3 blob = v10) by reflexivity.
  assert (Hc : AES.cbc_decrypt key spaces_iv (skipn 3 blob)
               = Ok (Envelope.pkcs7 text)).
  { change (skipn 3 blob)
      with (Envelope.cbc_encrypt key spaces_iv (Envelope.pkcs7 text)).
    apply cbc_decrypt_encrypt; [exact Hk | reflexivity |].
    unfold Envelope.pkcs7. rewrite length_app, repeat_length.
    apply pad_length_range. }
  unfold decrypt_cookie_value.
  rewrite (prefix_not_empty blob v10 Hv) by discriminate.
  rewrite (valid_key_not_empty key Hk). cbn [orb].
  rewrite (decrypt_body_v10 w blob key _ Hv Hc).
  rewrite (v10_unpad_body text Hm). reflexivity.
Qed.

(** Without a prefix, [hello world] comes out whole, and a value of 44
    bytes comes out without its first 32. *)
Lemma v10_round_trip_without_prefix_witness :
  decrypt_cookie_value linux_world
    (Envelope.v10_envelope peanuts_key [] (encode "hello world")) peanuts_key
  = Ok "hello world"
  /\ decrypt_cookie_value linux_world
       (Envelope.v10_envelope peanuts_key []
          (encode "0123456789abcdef0123456789abcdefsessionid=42"))
       peanuts_key
     = Ok "sessionid=42".
Proof.
  assert (Hk : AES.valid_key_length (length peanuts_key) = true)
    by (vm_compute; reflexivity).
  split.
  - rewrite (v10_round_trip_without_prefix linux_world peanuts_key
               (encode "hello world") Hk ltac:(discriminate)).
    vm_compute. reflexivity.
  - rewrite (v10_round_trip_without_prefix linux_world peanuts_key
               (encode "0123456789abcdef0123456789abcdefsessionid=42") Hk
               ltac:(discriminate)).
    vm_compute. reflexivity.
Defined.
